(** * The axis state machine of the motor driver (Firmware/MotorControl/axis.cpp)

    A shallow embedding of [Axis]: the task chain, the control-loop
    variants, the step/direction callback and the top-level state machine,
    written as programs of a small monad over the axis object and a script
    of answers given by the collaborators (motor, encoder, estimator,
    controller, GPIO and RTOS). *)

From Stdlib Require Import ZArith List Bool Lia SpecFloat.
Import ListNotations.
Local Open Scope Z_scope.

(** ** Single-precision arithmetic

    The C++ type [float] of the target (IEEE 754 binary32, round to nearest
    even) as the Standard Library's specification floats with a 24 bit
    significand. *)
Definition float : Type := spec_float.

Module F32.

Definition prec : Z := 24.
Definition emax : Z := 128.

Definition add : float -> float -> float := SFadd prec emax.
Definition mul : float -> float -> float := SFmul prec emax.
Definition div : float -> float -> float := SFdiv prec emax.
Definition ltb : float -> float -> bool := SFltb.
Definition leb : float -> float -> bool := SFleb.

(** The float nearest to an integer, in canonical form. *)
Definition of_Z (z : Z) : float := binary_normalize prec emax z 0 false.

Definition zero : float := S754_zero false.
Definition one : float := of_Z 1.
Definition minus_one : float := of_Z (-1).

(** Exact value of a finite float as a fraction [n / 2^k] or [n * 2^k],
    returned as numerator and binary exponent. *)
Definition exact (x : float) : option (Z * Z) :=
  match x with
  | S754_zero _ => Some (0, 0)
  | S754_finite s m e => Some (cond_Zopp s (Zpos m), e)
  | _ => None
  end.

(** [x] is a finite float whose exact value is the integer [z]. *)
Definition holds_integer (x : float) (z : Z) : Prop :=
  match exact x with
  | Some (n, e) => e <= 0 /\ n = z * 2 ^ (- e)
  | None => False
  end.

(** Significand and exponent of the float of a positive integer below
    2^24: the integer shifted left to 24 bits. *)
Definition small_exponent (p : positive) : Z := Zpos (digits2_pos p) - 24.
Definition small_mantissa (p : positive) : positive :=
  fst (shl_align p 0 (small_exponent p)).

(** [ceil (x / y)] of two finite floats with [y] positive, in exact
    arithmetic. *)
Definition ceil_div (x y : float) : option Z :=
  match exact x, exact y with
  | Some (nx, ex), Some (ny, ey) =>
      if 0 <? ny then
        let num := nx * 2 ^ Z.max (ex - ey) 0 in
        let den := ny * 2 ^ Z.max (ey - ex) 0 in
        Some (- ((- num) / den))
      else None
  | _, _ => None
  end.

(** A positive finite float in canonical form. *)
Definition is_positive (x : float) : bool :=
  match x with
  | S754_finite false m e => bounded 24 128 m e
  | _ => false
  end.

(** The significand [m] has the length that the exponent [e] asks for. *)
Definition canonical (m : positive) (e : Z) : Prop :=
  fexp 24 128 (Z.pos (digits2_pos m) + e) = e.

(** Zero, a positive float in canonical form, or plus infinity. *)
Definition nonneg (x : float) : Prop :=
  match x with
  | S754_zero s => s = false
  | S754_infinity s => s = false
  | S754_finite s m e => s = false /\ canonical m e
  | S754_nan => False
  end.

(** The float to which [M * 2^e], known up to the location [l], is
    rounded: the significand is cut at the exponent of its last digit,
    rounded to nearest even, and cut once more if that carried. *)
Definition rounded (s : bool) (M : positive) (e : Z) (l : location) : float :=
  let t := fexp 24 128 (Z.pos (digits2_pos M) + e) in
  let m_r := round_nearest_even (Z.pos M / 2 ^ (t - e)) l in
  let sh2 := fexp 24 128 (Zdigits2 m_r + t) - t in
  let m2 := if 0 <? sh2 then m_r / 2 ^ sh2 else m_r in
  let e2 := if 0 <? sh2 then t + sh2 else t in
  match m2 with
  | 0 => S754_zero s
  | Z.pos m => if e2 <=? 104 then S754_finite s m e2 else S754_infinity s
  | Z.neg _ => S754_nan
  end.

End F32.

(** ** Enumerations of axis.hpp *)

Inductive State_t : Type :=
| AXIS_STATE_UNDEFINED
| AXIS_STATE_IDLE
| AXIS_STATE_STARTUP_SEQUENCE
| AXIS_STATE_FULL_CALIBRATION_SEQUENCE
| AXIS_STATE_MOTOR_CALIBRATION
| AXIS_STATE_ENCODER_CALIBRATION
| AXIS_STATE_SENSORLESS_CONTROL
| AXIS_STATE_CLOSED_LOOP_CONTROL.

Inductive Error_t : Type :=
| ERROR_NO_ERROR
| ERROR_CURRENT_MEASUREMENT_TIMEOUT
| ERROR_MOTOR_FAILED
| ERROR_DC_BUS_UNDER_VOLTAGE
| ERROR_POS_CTRL_DURING_SENSORLESS
| ERROR_SENSORLESS_ESTIMATOR_FAILED
| ERROR_CONTROLLER_FAILED
| ERROR_ENCODER_FAILED
| ERROR_INVALID_STATE.

Definition State_eqb (s t : State_t) : bool :=
  match s, t with
  | AXIS_STATE_UNDEFINED, AXIS_STATE_UNDEFINED
  | AXIS_STATE_IDLE, AXIS_STATE_IDLE
  | AXIS_STATE_STARTUP_SEQUENCE, AXIS_STATE_STARTUP_SEQUENCE
  | AXIS_STATE_FULL_CALIBRATION_SEQUENCE, AXIS_STATE_FULL_CALIBRATION_SEQUENCE
  | AXIS_STATE_MOTOR_CALIBRATION, AXIS_STATE_MOTOR_CALIBRATION
  | AXIS_STATE_ENCODER_CALIBRATION, AXIS_STATE_ENCODER_CALIBRATION
  | AXIS_STATE_SENSORLESS_CONTROL, AXIS_STATE_SENSORLESS_CONTROL
  | AXIS_STATE_CLOSED_LOOP_CONTROL, AXIS_STATE_CLOSED_LOOP_CONTROL => true
  | _, _ => false
  end.

Definition Error_eqb (e f : Error_t) : bool :=
  match e, f with
  | ERROR_NO_ERROR, ERROR_NO_ERROR
  | ERROR_CURRENT_MEASUREMENT_TIMEOUT, ERROR_CURRENT_MEASUREMENT_TIMEOUT
  | ERROR_MOTOR_FAILED, ERROR_MOTOR_FAILED
  | ERROR_DC_BUS_UNDER_VOLTAGE, ERROR_DC_BUS_UNDER_VOLTAGE
  | ERROR_POS_CTRL_DURING_SENSORLESS, ERROR_POS_CTRL_DURING_SENSORLESS
  | ERROR_SENSORLESS_ESTIMATOR_FAILED, ERROR_SENSORLESS_ESTIMATOR_FAILED
  | ERROR_CONTROLLER_FAILED, ERROR_CONTROLLER_FAILED
  | ERROR_ENCODER_FAILED, ERROR_ENCODER_FAILED
  | ERROR_INVALID_STATE, ERROR_INVALID_STATE => true
  | _, _ => false
  end.

(** ** Declarations that axis.cpp takes from headers outside the sources

    axis.hpp, controller.hpp, utils.h and the board header are not part of
    the sources: the numeric values of the [State_t] enumerators (the state
    validation compares them with [>]), the enumerator
    [CTRL_MODE_POSITION_CONTROL], the constant [current_meas_period] and the
    helper [wrap_pm_pi] are parameters of the model. *)
Class Declarations : Type := {
  state_value : State_t -> Z;
  CTRL_MODE_POSITION_CONTROL : Z;
  current_meas_period : float;
  wrap_pm_pi : float -> float
}.

(** ** Data *)

Record AxisConfig_t : Type := {
  startup_motor_calibration : bool;
  startup_encoder_calibration : bool;
  startup_closed_loop_control : bool;
  startup_sensorless_control : bool;
  enable_step_dir : bool;
  counts_per_step : float;
  ramp_up_time : float;
  ramp_up_distance : float;
  spin_up_current : float;
  spin_up_acceleration : float;
  spin_up_target_vel : float;
  dc_bus_brownout_trip_level : float
}.

(** Calls that leave the axis object, in the order they are made. *)
Inductive Event : Type :=
| ev_wait_current_meas
| ev_motor_do_checks
| ev_read_vbus_voltage
| ev_motor_update (I_mag phase : float)
| ev_encoder_update (outputs : bool)
| ev_sensorless_update (outputs : bool)
| ev_controller_update (pos_estimate vel_estimate : float)
| ev_motor_run_calibration
| ev_encoder_run_calibration
| ev_motor_arm
| ev_gpio_init_dir
| ev_gpio_subscribe
| ev_gpio_unsubscribe.

(** Writes made by other contexts (the communication thread, the step
    interrupt, a collaborator) to the memory axis.cpp reads. *)
Inductive Async : Type :=
| write_requested_state (s : State_t)
| step_irq (dir_pin : bool)
| write_motor_is_calibrated (b : bool)
| write_encoder_is_calibrated (b : bool)
| write_control_mode (m : Z)
| write_pos_setpoint (p : float).

(** What one call into a collaborator gives back: its boolean result, the
    values it stores through its output pointers, and the writes of other
    contexts that happen while the call is in progress. *)
Record Input : Type := {
  ok : bool;
  out1 : float;
  out2 : float;
  out3 : float;
  during : list Async
}.

(** The axis object together with the fields of its collaborators that
    axis.cpp reads or writes; [task_chain_] is the array, [current_state_]
    its first element. *)
Record Axis : Type := {
  config_ : AxisConfig_t;
  error_ : Error_t;
  enable_step_dir_ : bool;
  requested_state_ : State_t;
  task_chain_ : list State_t;
  motor_is_calibrated_ : bool;
  encoder_is_calibrated_ : bool;
  control_mode : Z;
  pos_setpoint_ : float;
  log : list Event
}.

Definition set_error_ (e : Error_t) (a : Axis) : Axis :=
  {| config_ := config_ a; error_ := e;
     enable_step_dir_ := enable_step_dir_ a;
     requested_state_ := requested_state_ a; task_chain_ := task_chain_ a;
     motor_is_calibrated_ := motor_is_calibrated_ a;
     encoder_is_calibrated_ := encoder_is_calibrated_ a;
     control_mode := control_mode a; pos_setpoint_ := pos_setpoint_ a;
     log := log a |}.

Definition set_enable_step_dir_ (b : bool) (a : Axis) : Axis :=
  {| config_ := config_ a; error_ := error_ a;
     enable_step_dir_ := b;
     requested_state_ := requested_state_ a; task_chain_ := task_chain_ a;
     motor_is_calibrated_ := motor_is_calibrated_ a;
     encoder_is_calibrated_ := encoder_is_calibrated_ a;
     control_mode := control_mode a; pos_setpoint_ := pos_setpoint_ a;
     log := log a |}.

Definition set_requested_state_ (s : State_t) (a : Axis) : Axis :=
  {| config_ := config_ a; error_ := error_ a;
     enable_step_dir_ := enable_step_dir_ a;
     requested_state_ := s; task_chain_ := task_chain_ a;
     motor_is_calibrated_ := motor_is_calibrated_ a;
     encoder_is_calibrated_ := encoder_is_calibrated_ a;
     control_mode := control_mode a; pos_setpoint_ := pos_setpoint_ a;
     log := log a |}.

Definition set_task_chain_ (c : list State_t) (a : Axis) : Axis :=
  {| config_ := config_ a; error_ := error_ a;
     enable_step_dir_ := enable_step_dir_ a;
     requested_state_ := requested_state_ a; task_chain_ := c;
     motor_is_calibrated_ := motor_is_calibrated_ a;
     encoder_is_calibrated_ := encoder_is_calibrated_ a;
     control_mode := control_mode a; pos_setpoint_ := pos_setpoint_ a;
     log := log a |}.

Definition set_motor_is_calibrated_ (b : bool) (a : Axis) : Axis :=
  {| config_ := config_ a; error_ := error_ a;
     enable_step_dir_ := enable_step_dir_ a;
     requested_state_ := requested_state_ a; task_chain_ := task_chain_ a;
     motor_is_calibrated_ := b;
     encoder_is_calibrated_ := encoder_is_calibrated_ a;
     control_mode := control_mode a; pos_setpoint_ := pos_setpoint_ a;
     log := log a |}.

Definition set_encoder_is_calibrated_ (b : bool) (a : Axis) : Axis :=
  {| config_ := config_ a; error_ := error_ a;
     enable_step_dir_ := enable_step_dir_ a;
     requested_state_ := requested_state_ a; task_chain_ := task_chain_ a;
     motor_is_calibrated_ := motor_is_calibrated_ a;
     encoder_is_calibrated_ := b;
     control_mode := control_mode a; pos_setpoint_ := pos_setpoint_ a;
     log := log a |}.

Definition set_control_mode (m : Z) (a : Axis) : Axis :=
  {| config_ := config_ a; error_ := error_ a;
     enable_step_dir_ := enable_step_dir_ a;
     requested_state_ := requested_state_ a; task_chain_ := task_chain_ a;
     motor_is_calibrated_ := motor_is_calibrated_ a;
     encoder_is_calibrated_ := encoder_is_calibrated_ a;
     control_mode := m; pos_setpoint_ := pos_setpoint_ a;
     log := log a |}.

Definition set_pos_setpoint_ (p : float) (a : Axis) : Axis :=
  {| config_ := config_ a; error_ := error_ a;
     enable_step_dir_ := enable_step_dir_ a;
     requested_state_ := requested_state_ a; task_chain_ := task_chain_ a;
     motor_is_calibrated_ := motor_is_calibrated_ a;
     encoder_is_calibrated_ := encoder_is_calibrated_ a;
     control_mode := control_mode a; pos_setpoint_ := p;
     log := log a |}.

Definition add_log (e : Event) (a : Axis) : Axis :=
  {| config_ := config_ a; error_ := error_ a;
     enable_step_dir_ := enable_step_dir_ a;
     requested_state_ := requested_state_ a; task_chain_ := task_chain_ a;
     motor_is_calibrated_ := motor_is_calibrated_ a;
     encoder_is_calibrated_ := encoder_is_calibrated_ a;
     control_mode := control_mode a; pos_setpoint_ := pos_setpoint_ a;
     log := log a ++ [e] |}.

(** ** The step/direction callback (axis.cpp, [Axis::step_cb])

    [dir_pin] is what [HAL_GPIO_ReadPin] returns for the direction pin:
    [true] for [GPIO_PIN_SET]. *)
Definition step_cb (dir_pin : bool) (a : Axis) : Axis :=
  if enable_step_dir_ a then
    let dir := if dir_pin then F32.one else F32.minus_one in
    set_pos_setpoint_
      (F32.add (pos_setpoint_ a) (F32.mul dir (counts_per_step (config_ a)))) a
  else a.

(** A write of another context takes effect on the shared memory. *)
Definition deliver (a : Axis) (w : Async) : Axis :=
  match w with
  | write_requested_state s => set_requested_state_ s a
  | step_irq dir_pin => step_cb dir_pin a
  | write_motor_is_calibrated b => set_motor_is_calibrated_ b a
  | write_encoder_is_calibrated b => set_encoder_is_calibrated_ b a
  | write_control_mode m => set_control_mode m a
  | write_pos_setpoint p => set_pos_setpoint_ p a
  end.

Definition deliver_all (ws : list Async) (a : Axis) : Axis :=
  fold_left deliver ws a.

(** ** The monad of axis programs

    A program runs on the axis object and on the script of the answers the
    collaborators will give.  It ends with a result ([Done]), is still
    waiting for an answer when the script is over ([Starved], with the axis
    object as it is then), or has left the language ([Fault]: an access
    outside [task_chain_]). *)
Inductive Res (A : Type) : Type :=
| Done (x : A) (a : Axis) (rest : list Input)
| Starved (a : Axis)
| Fault.
Arguments Done {A} x a rest.
Arguments Starved {A} a.
Arguments Fault {A}.

Definition M (A : Type) : Type := Axis -> list Input -> Res A.

Definition ret {A} (x : A) : M A := fun a s => Done x a s.

Definition bind {A B} (m : M A) (k : A -> M B) : M B :=
  fun a s =>
    match m a s with
    | Done x a' s' => k x a' s'
    | Starved a' => Starved a'
    | Fault => Fault
    end.

Declare Scope axis_scope.
Delimit Scope axis_scope with axis.
Notation "x <- m ;; k" := (bind m (fun x => k))
  (at level 61, m at next level, right associativity) : axis_scope.
Notation "' pat <- m ;; k" := (bind m (fun x => match x with pat => k end))
  (at level 61, pat pattern, m at next level, right associativity) : axis_scope.
Notation "m ;; k" := (bind m (fun _ => k))
  (at level 61, right associativity) : axis_scope.
Local Open Scope axis_scope.

Definition get : M Axis := fun a s => Done a a s.
Definition modify (f : Axis -> Axis) : M unit := fun a s => Done tt (f a) s.
Definition fault {A} : M A := fun _ _ => Fault.

(** A call that returns at once and whose result axis.cpp does not use. *)
Definition emit (e : Event) : M unit := modify (add_log e).

(** A call into a collaborator: it is logged, takes its answer from the
    script, and the writes of other contexts made meanwhile are visible
    when it returns. *)
Definition call (e : Event) : M Input :=
  fun a s =>
    match s with
    | [] => Starved (add_log e a)
    | i :: rest => Done i (deliver_all (during i) (add_log e a)) rest
    end.

(** [task_chain_[i]] as an rvalue and as an lvalue. *)
Definition load (i : nat) : M State_t :=
  fun a s =>
    match nth_error (task_chain_ a) i with
    | Some st => Done st a s
    | None => Fault
    end.

Fixpoint update_nth (i : nat) (v : State_t) (c : list State_t) : list State_t :=
  match c, i with
  | [], _ => []
  | _ :: c', O => v :: c'
  | x :: c', S i' => x :: update_nth i' v c'
  end.

Definition store (i : nat) (v : State_t) : M unit :=
  fun a s =>
    if Nat.ltb i (length (task_chain_ a))
    then Done tt (set_task_chain_ (update_nth i v (task_chain_ a)) a) s
    else Fault.

(** [task_chain_[pos++] = v] *)
Definition push (pos : nat) (v : State_t) : M nat :=
  store pos v ;; ret (S pos).

(** ** The programs of axis.cpp *)
Section Programs.

Context {D : Declarations}.

(** [Axis::wait_for_current_meas]: [osSignalWait] answers whether the
    measurement signal came before the timeout. *)
Definition wait_for_current_meas : M bool :=
  i <- call ev_wait_current_meas ;;
  if ok i then ret true
  else modify (set_error_ ERROR_CURRENT_MEASUREMENT_TIMEOUT) ;; ret false.

(** [Axis::set_step_dir_enabled] *)
Definition set_step_dir_enabled (enable : bool) : M unit :=
  if enable then
    emit ev_gpio_init_dir ;;
    emit ev_gpio_subscribe ;;
    modify (set_enable_step_dir_ true)
  else
    modify (set_enable_step_dir_ false) ;;
    emit ev_gpio_unsubscribe.

(** [Axis::check_PSU_brownout]: the global [vbus_voltage] is read from the
    environment ([out1] of the answer). *)
Definition check_PSU_brownout : M bool :=
  i <- call ev_read_vbus_voltage ;;
  a <- get ;;
  ret (F32.leb (dc_bus_brownout_trip_level (config_ a)) (out1 i)).

(** [Axis::do_checks] *)
Definition do_checks : M bool :=
  i <- call ev_motor_do_checks ;;
  if negb (ok i) then modify (set_error_ ERROR_MOTOR_FAILED) ;; ret false
  else
    psu <- check_PSU_brownout ;;
    if negb psu then modify (set_error_ ERROR_DC_BUS_UNDER_VOLTAGE) ;; ret false
    else ret true.

(** [current_state_], the reference to [task_chain_[0]]. *)
Definition current_state : M State_t := load 0.

(** Modelled from the spec: [Axis::run_control_loop] is a template of
    axis.hpp, which is not part of the sources.  Spec 4.3 and 2: the runner
    repeats until a state change is requested; each round it waits for the
    current measurement (4.8, [wait_for_current_meas]) and then invokes the
    handler once; it stops when the handler returns false or, except when
    the current state is Idle, when the measurement was missed.  [L] is the
    loop-local data the handler captures by reference.  The recursion is on
    [fuel], one unit per round; every round takes an answer from the
    script, so [run_control_loop] gives it one unit more than the script
    is long. *)
Fixpoint run_control_loop_fuel {L : Type} (fuel : nat)
    (update_handler : L -> M (bool * L)) (l : L) : M L :=
  match fuel with
  | O => fun a _ => Starved a
  | S fuel' =>
      a <- get ;;
      if State_eqb (requested_state_ a) AXIS_STATE_UNDEFINED then
        meas <- wait_for_current_meas ;;
        cur <- current_state ;;
        if negb meas && negb (State_eqb cur AXIS_STATE_IDLE) then ret l
        else
          '(continue, l') <- update_handler l ;;
          if continue then run_control_loop_fuel fuel' update_handler l'
          else ret l'
      else ret l
  end.

(** Modelled from the spec: the runner of 4.3 on a script, see
    [run_control_loop_fuel]. *)
Definition run_control_loop {L : Type}
    (update_handler : L -> M (bool * L)) (l : L) : M L :=
  fun a s => run_control_loop_fuel (S (length s)) update_handler l a s.

(** The handler of the first loop of [Axis::run_sensorless_spin_up]; the
    captured local is [x]. *)
Definition spin_up_ramp_handler (x : float) : M (bool * float) :=
  a <- get ;;
  let phase := wrap_pm_pi (F32.mul (ramp_up_distance (config_ a)) x) in
  let I_mag := F32.mul (spin_up_current (config_ a)) x in
  let x := F32.add x (F32.div current_meas_period (ramp_up_time (config_ a))) in
  i <- call (ev_motor_update I_mag phase) ;;
  if negb (ok i) then modify (set_error_ ERROR_MOTOR_FAILED) ;; ret (false, x)
  else ret (F32.ltb x F32.one, x).

(** The handler of its second loop; the captured locals are [vel] and
    [phase]. *)
Definition spin_up_accel_handler (l : float * float) : M (bool * (float * float)) :=
  a <- get ;;
  let vel := F32.add (fst l)
               (F32.mul (spin_up_acceleration (config_ a)) current_meas_period) in
  let phase := wrap_pm_pi (F32.add (snd l) (F32.mul vel current_meas_period)) in
  let I_mag := spin_up_current (config_ a) in
  i <- call (ev_motor_update I_mag phase) ;;
  if negb (ok i) then modify (set_error_ ERROR_MOTOR_FAILED) ;; ret (false, (vel, phase))
  else ret (F32.ltb vel (spin_up_target_vel (config_ a)), (vel, phase)).

(** [Axis::run_sensorless_spin_up] *)
Definition run_sensorless_spin_up : M bool :=
  run_control_loop spin_up_ramp_handler F32.zero ;;
  a <- get ;;
  if negb (Error_eqb (error_ a) ERROR_NO_ERROR) then ret false
  else
    let vel := F32.div (ramp_up_distance (config_ a)) (ramp_up_time (config_ a)) in
    let phase := wrap_pm_pi (ramp_up_distance (config_ a)) in
    run_control_loop spin_up_accel_handler (vel, phase) ;;
    a <- get ;;
    ret (Error_eqb (error_ a) ERROR_NO_ERROR).

(** The handler of [Axis::run_sensorless_control_loop]. *)
Definition sensorless_handler (_ : unit) : M (bool * unit) :=
  a <- get ;;
  if CTRL_MODE_POSITION_CONTROL <=? control_mode a then
    modify (set_error_ ERROR_POS_CTRL_DURING_SENSORLESS) ;; ret (false, tt)
  else
    call (ev_encoder_update false) ;;
    est <- call (ev_sensorless_update true) ;;
    if negb (ok est) then
      modify (set_error_ ERROR_SENSORLESS_ESTIMATOR_FAILED) ;; ret (false, tt)
    else
      ctl <- call (ev_controller_update (out1 est) (out2 est)) ;;
      if negb (ok ctl) then
        modify (set_error_ ERROR_CONTROLLER_FAILED) ;; ret (false, tt)
      else
        mot <- call (ev_motor_update (out1 ctl) (out3 est)) ;;
        if negb (ok mot) then
          modify (set_error_ ERROR_MOTOR_FAILED) ;; ret (false, tt)
        else ret (true, tt).

(** [Axis::run_sensorless_control_loop] *)
Definition run_sensorless_control_loop : M bool :=
  a <- get ;;
  set_step_dir_enabled (enable_step_dir (config_ a)) ;;
  run_control_loop sensorless_handler tt ;;
  set_step_dir_enabled false ;;
  a <- get ;;
  ret (Error_eqb (error_ a) ERROR_NO_ERROR).

(** The handler of [Axis::run_closed_loop_control_loop]. *)
Definition closed_loop_handler (_ : unit) : M (bool * unit) :=
  call (ev_sensorless_update false) ;;
  enc <- call (ev_encoder_update true) ;;
  if negb (ok enc) then
    modify (set_error_ ERROR_ENCODER_FAILED) ;; ret (false, tt)
  else
    ctl <- call (ev_controller_update (out1 enc) (out2 enc)) ;;
    if negb (ok ctl) then
      modify (set_error_ ERROR_CONTROLLER_FAILED) ;; ret (false, tt)
    else
      mot <- call (ev_motor_update (out1 ctl) (out3 enc)) ;;
      if negb (ok mot) then
        modify (set_error_ ERROR_MOTOR_FAILED) ;; ret (false, tt)
      else ret (true, tt).

(** [Axis::run_closed_loop_control_loop] *)
Definition run_closed_loop_control_loop : M bool :=
  a <- get ;;
  set_step_dir_enabled (enable_step_dir (config_ a)) ;;
  run_control_loop closed_loop_handler tt ;;
  set_step_dir_enabled false ;;
  a <- get ;;
  ret (Error_eqb (error_ a) ERROR_NO_ERROR).

(** The handler of [Axis::run_idle_loop]. *)
Definition idle_handler (_ : unit) : M (bool * unit) :=
  call (ev_sensorless_update false) ;;
  call (ev_encoder_update false) ;;
  ret (true, tt).

(** [Axis::run_idle_loop] *)
Definition run_idle_loop : M bool :=
  run_control_loop idle_handler tt ;;
  a <- get ;;
  ret (Error_eqb (error_ a) ERROR_NO_ERROR).

(** *** One round of the [for (;;)] of [Axis::run_state_machine_loop] *)

(** Lines 212-235: the task chain is loaded when a request is pending. *)
Definition load_task_chain : M unit :=
  a <- get ;;
  if negb (State_eqb (requested_state_ a) AXIS_STATE_UNDEFINED) then
    let pos := O in
    pos <-
      match requested_state_ a with
      | AXIS_STATE_STARTUP_SEQUENCE =>
          pos <- (if startup_motor_calibration (config_ a)
                  then push pos AXIS_STATE_MOTOR_CALIBRATION else ret pos) ;;
          pos <- (if startup_encoder_calibration (config_ a)
                  then push pos AXIS_STATE_ENCODER_CALIBRATION else ret pos) ;;
          pos <- (if startup_closed_loop_control (config_ a)
                  then push pos AXIS_STATE_CLOSED_LOOP_CONTROL
                  else if startup_sensorless_control (config_ a)
                  then push pos AXIS_STATE_SENSORLESS_CONTROL else ret pos) ;;
          push pos AXIS_STATE_IDLE
      | AXIS_STATE_FULL_CALIBRATION_SEQUENCE =>
          pos <- push pos AXIS_STATE_MOTOR_CALIBRATION ;;
          pos <- push pos AXIS_STATE_ENCODER_CALIBRATION ;;
          push pos AXIS_STATE_IDLE
      | AXIS_STATE_UNDEFINED => ret pos
      | requested =>
          pos <- push pos requested ;;
          push pos AXIS_STATE_IDLE
      end ;;
    push pos AXIS_STATE_UNDEFINED ;;
    modify (set_requested_state_ AXIS_STATE_UNDEFINED)
  else ret tt.

(** Lines 239-243: the state is validated before it is run. *)
Definition validate_state : M unit :=
  cur <- current_state ;;
  a <- get ;;
  (if (state_value AXIS_STATE_MOTOR_CALIBRATION <? state_value cur)
      && negb (motor_is_calibrated_ a)
   then store 0 AXIS_STATE_UNDEFINED else ret tt) ;;
  cur <- current_state ;;
  a <- get ;;
  if (state_value AXIS_STATE_ENCODER_CALIBRATION <? state_value cur)
     && negb (encoder_is_calibrated_ a)
  then store 0 AXIS_STATE_UNDEFINED else ret tt.

(** Lines 248-276: the [switch] on [current_state_]. *)
Definition run_state (cur : State_t) : M bool :=
  match cur with
  | AXIS_STATE_MOTOR_CALIBRATION =>
      i <- call ev_motor_run_calibration ;; ret (ok i)
  | AXIS_STATE_ENCODER_CALIBRATION =>
      i <- call ev_encoder_run_calibration ;; ret (ok i)
  | AXIS_STATE_SENSORLESS_CONTROL =>
      status <- run_sensorless_spin_up ;;
      if status then run_sensorless_control_loop else ret status
  | AXIS_STATE_CLOSED_LOOP_CONTROL =>
      run_closed_loop_control_loop
  | AXIS_STATE_IDLE =>
      run_idle_loop ;;
      i <- call ev_motor_arm ;; ret (ok i)
  | _ =>
      modify (set_error_ ERROR_INVALID_STATE) ;; ret false
  end.

(** [memcpy(task_chain_, task_chain_ + 1, sizeof(task_chain_) -
    sizeof(task_chain_[0]))]: every element but the last takes the value
    of its successor, the last one keeps its own. *)
Definition shift_chain (c : list State_t) : list State_t :=
  match c with
  | [] => []
  | x :: c' => c' ++ [last c' x]
  end.

(** Lines 278-282: go to idle on failure, else advance the task chain. *)
Definition finish_state (status : bool) : M unit :=
  if negb status then store 0 AXIS_STATE_IDLE
  else modify (fun a => set_task_chain_ (shift_chain (task_chain_ a)) a).

(** The state the round dispatches: [current_state_] when the [switch]
    is reached. *)
Definition select_state : M State_t :=
  load_task_chain ;;
  validate_state ;;
  current_state.

(** One round; it returns the state it ran and the status. *)
Definition state_machine_round : M (State_t * bool) :=
  cur <- select_state ;;
  status <- run_state cur ;;
  finish_state status ;;
  ret (cur, status).

Fixpoint state_machine_rounds (n : nat) : M (list (State_t * bool)) :=
  match n with
  | O => ret []
  | S n' =>
      r <- state_machine_round ;;
      rs <- state_machine_rounds n' ;;
      ret (r :: rs)
  end.

(** [Axis::run_state_machine_loop], cut after [n] rounds of its endless
    loop.  The allocation of the anti-cogging map before the loop touches
    nothing the axis reads and is left out. *)
Definition run_state_machine_loop (n : nat) : M (list (State_t * bool)) :=
  call ev_motor_arm ;;
  state_machine_rounds n.

End Programs.

(** ** A concrete set of declarations, for running the model *)

(** Modelled from the spec: the enumerator values of axis.hpp are missing;
    section 3 orders the states "by calibration dependency" as Undefined,
    Idle, MotorCalibration, EncoderCalibration, SensorlessControl,
    ClosedLoopControl and names the two compound requests after them. *)
Definition spec_state_value (s : State_t) : Z :=
  match s with
  | AXIS_STATE_UNDEFINED => 0
  | AXIS_STATE_IDLE => 1
  | AXIS_STATE_MOTOR_CALIBRATION => 2
  | AXIS_STATE_ENCODER_CALIBRATION => 3
  | AXIS_STATE_SENSORLESS_CONTROL => 4
  | AXIS_STATE_CLOSED_LOOP_CONTROL => 5
  | AXIS_STATE_STARTUP_SEQUENCE => 6
  | AXIS_STATE_FULL_CALIBRATION_SEQUENCE => 7
  end.

(** Modelled from the spec: a constant of [spec_wrap_pm_pi] below,
    [floor (2 * pi * 2^192)]. *)
Definition two_pi_192 : Z :=
  39440193395453077124792266728456537782926901730380179465120.

(** Modelled from the spec: the upper end of the range of
    [spec_wrap_pm_pi] below, the largest float below pi, 3.14159250f; the
    float nearest to pi, 3.14159274f, lies above pi. *)
Definition pi_below : float := S754_finite false 13176794 (-22).

(** Modelled from the spec: the last step of [spec_wrap_pm_pi] below, the
    float of the range from [- pi_below] to [pi_below] nearest to [w]. *)
Definition clamp_pm_pi (w : float) : float :=
  if F32.leb w pi_below then
    if F32.leb (SFopp pi_below) w then w else SFopp pi_below
  else pi_below.

(** Modelled from the spec: [wrap_pm_pi] of utils.h is missing; 4.4 and 8
    say that it maps every phase into the range (-pi, pi].  From the exact
    value of [x] the multiple [k] of two pi is taken off for which the
    difference lies in that range, [k = ceil (x / (2 pi) - 1/2)], with two
    pi known to 192 binary places; the difference is rounded to single
    precision, and to the nearest float inside the range where that
    rounding leaves it.  Both [x] and two pi are scaled by 2^341, which
    makes integers of them, as the exponent of a float is at least -149.
    A phase that is infinite or not a number is mapped to zero. *)
Definition spec_wrap_pm_pi (x : float) : float :=
  match x with
  | S754_finite s m e =>
      let X := cond_Zopp s (Z.pos m) * 2 ^ (e + 341) in
      let T := two_pi_192 * 2 ^ 149 in
      let k := - ((T - 2 * X) / (2 * T)) in
      clamp_pm_pi (binary_normalize F32.prec F32.emax (X - k * T) (-341) false)
  | _ => F32.zero
  end.

(** The measurement period of an 8 kHz control loop, 0.000125f. *)
Definition period_8kHz : float := F32.div (F32.of_Z 1) (F32.of_Z 8000).

Definition spec_declarations : Declarations :=
  {| state_value := spec_state_value;
     CTRL_MODE_POSITION_CONTROL := 3;
     current_meas_period := period_8kHz;
     wrap_pm_pi := spec_wrap_pm_pi |}.

(** ** The task chain *)

(** [p] written over the first entries of the array [c]. *)
Definition overwrite (p c : list State_t) : list State_t :=
  p ++ skipn (length p) c.

(** The entries that lines 214-232 write for a request, in order. *)
Definition expansion (cfg : AxisConfig_t) (requested : State_t) : list State_t :=
  match requested with
  | AXIS_STATE_UNDEFINED => []
  | AXIS_STATE_STARTUP_SEQUENCE =>
      (if startup_motor_calibration cfg then [AXIS_STATE_MOTOR_CALIBRATION] else [])
      ++ (if startup_encoder_calibration cfg then [AXIS_STATE_ENCODER_CALIBRATION] else [])
      ++ (if startup_closed_loop_control cfg then [AXIS_STATE_CLOSED_LOOP_CONTROL]
          else if startup_sensorless_control cfg then [AXIS_STATE_SENSORLESS_CONTROL]
          else [])
      ++ [AXIS_STATE_IDLE; AXIS_STATE_UNDEFINED]
  | AXIS_STATE_FULL_CALIBRATION_SEQUENCE =>
      [AXIS_STATE_MOTOR_CALIBRATION; AXIS_STATE_ENCODER_CALIBRATION;
       AXIS_STATE_IDLE; AXIS_STATE_UNDEFINED]
  | requested => [requested; AXIS_STATE_IDLE; AXIS_STATE_UNDEFINED]
  end.

(** The task chain of section 4.1 for a StartupSequence request, in the
    words of the spec: MotorCalibration if [startup_motor_calibration],
    EncoderCalibration if [startup_encoder_calibration], then
    ClosedLoopControl if [startup_closed_loop_control] or else
    SensorlessControl if [startup_sensorless_control], then Idle. *)
Definition startup_sequence_spec (cfg : AxisConfig_t) : list State_t :=
  filter (fun st =>
            match st with
            | AXIS_STATE_MOTOR_CALIBRATION => startup_motor_calibration cfg
            | AXIS_STATE_ENCODER_CALIBRATION => startup_encoder_calibration cfg
            | AXIS_STATE_CLOSED_LOOP_CONTROL => startup_closed_loop_control cfg
            | AXIS_STATE_SENSORLESS_CONTROL =>
                negb (startup_closed_loop_control cfg)
                && startup_sensorless_control cfg
            | _ => true
            end)
         [AXIS_STATE_MOTOR_CALIBRATION; AXIS_STATE_ENCODER_CALIBRATION;
          AXIS_STATE_CLOSED_LOOP_CONTROL; AXIS_STATE_SENSORLESS_CONTROL;
          AXIS_STATE_IDLE].

(** ** Predicates on runs *)

(** [holds P r]: the axis object the run [r] has reached satisfies [P]. *)
Definition holds {A} (P : Axis -> Prop) (r : Res A) : Prop :=
  match r with
  | Done _ a _ => P a
  | Starved a => P a
  | Fault => True
  end.

(** [P] is an invariant of the program [m]. *)
Definition Preserves {A} (P : Axis -> Prop) (m : M A) : Prop :=
  forall a s, P a -> holds P (m a s).

(** [P] is not disturbed by the log or by the writes of other contexts. *)
Definition Stable (P : Axis -> Prop) : Prop :=
  (forall e a, P a -> P (add_log e a)) /\
  (forall w a, P a -> P (deliver a w)).

(** The program [m] takes answers from the script and adds none. *)
Definition Shrinks {A} (m : M A) : Prop :=
  forall a s x a' s', m a s = Done x a' s' -> (length s' <= length s)%nat.

(** The result of a run that ended, and the axis object a run reached. *)
Definition outcome {A} (r : Res A) : option A :=
  match r with
  | Done x _ _ => Some x
  | _ => None
  end.

Definition final {A} (r : Res A) : option Axis :=
  match r with
  | Done _ a _ => Some a
  | Starved a => Some a
  | Fault => None
  end.

(** An error is recorded. *)
Definition error_set (a : Axis) : Prop := error_ a <> ERROR_NO_ERROR.

(** A control loop that ended gave failure; the error is still recorded. *)
Definition reports_failure (r : Res bool) : Prop :=
  match r with
  | Done status a _ => status = false /\ error_set a
  | Starved a => error_set a
  | Fault => True
  end.

(** What [set_step_dir_enabled (enable)] logs. *)
Definition step_dir_log (enable : bool) : list Event :=
  if enable then [ev_gpio_init_dir; ev_gpio_subscribe]
  else [ev_gpio_unsubscribe].

(** [x] is a state inside a control loop entered from [a]: the step/dir
    flag is what the configuration asks for, and the log continues the
    one of the entry. *)
Definition inside_loop (a x : Axis) : Prop :=
  config_ x = config_ a /\
  enable_step_dir_ x = enable_step_dir (config_ a) /\
  exists mid,
    log x = log a ++ step_dir_log (enable_step_dir (config_ a)) ++ mid.

(** The run [r] of a control loop entered from [a]: while it runs the axis
    is [inside_loop]; when it has ended, step/dir is disabled, the GPIO
    unsubscription is the last call made, and the status tells whether an
    error is recorded. *)
Definition bracketed (a : Axis) (r : Res bool) : Prop :=
  match r with
  | Done status a' _ =>
      enable_step_dir_ a' = false /\
      status = Error_eqb (error_ a') ERROR_NO_ERROR /\
      exists mid,
        log a' = log a ++ step_dir_log (enable_step_dir (config_ a))
                 ++ mid ++ [ev_gpio_unsubscribe]
  | Starved x => inside_loop a x
  | Fault => True
  end.

(** An answer that reports success and during which nothing is written
    by another context. *)
Definition quiet (i : Input) : Prop := ok i = true /\ during i = [].

Definition add_logs (es : list Event) (a : Axis) : Axis :=
  fold_left (fun x e => add_log e x) es a.

(** [n] pulses on the step input, the direction pin reading [dir_pin]. *)
Definition step_pulses (n : nat) (dir_pin : bool) (a : Axis) : Axis :=
  deliver_all (repeat (step_irq dir_pin) n) a.

(** ** The open-loop ramp of the spin-up *)

Section Ramp.

Context {D : Declarations}.

(** What the first loop of the spin-up adds to [x] in each iteration. *)
Definition ramp_increment (cfg : AxisConfig_t) : float :=
  F32.div current_meas_period (ramp_up_time cfg).

(** [x] after [k] iterations, starting from [x0]. *)
Fixpoint ramp_from (cfg : AxisConfig_t) (x0 : float) (k : nat) : float :=
  match k with
  | O => x0
  | S k' => F32.add (ramp_from cfg x0 k') (ramp_increment cfg)
  end.

Definition ramp_x (cfg : AxisConfig_t) (k : nat) : float :=
  ramp_from cfg F32.zero k.

(** The calls of [k] iterations of that loop, starting from [x0]. *)
Fixpoint ramp_log (cfg : AxisConfig_t) (x0 : float) (k : nat) : list Event :=
  match k with
  | O => []
  | S k' =>
      ev_wait_current_meas
      :: ev_motor_update (F32.mul (spin_up_current cfg) x0)
           (wrap_pm_pi (F32.mul (ramp_up_distance cfg) x0))
      :: ramp_log cfg (F32.add x0 (ramp_increment cfg)) k'
  end.

End Ramp.

(** ** The acceleration of the spin-up *)

Section Acceleration.

Context {D : Declarations}.

(** The velocity and the phase with which the second loop of the spin-up
    starts. *)
Definition accel_start (cfg : AxisConfig_t) : float * float :=
  (F32.div (ramp_up_distance cfg) (ramp_up_time cfg),
   wrap_pm_pi (ramp_up_distance cfg)).

(** What one iteration of that loop makes of the velocity and the
    phase. *)
Definition accel_step (cfg : AxisConfig_t) (l : float * float) : float * float :=
  let vel := F32.add (fst l)
               (F32.mul (spin_up_acceleration cfg) current_meas_period) in
  (vel, wrap_pm_pi (F32.add (snd l) (F32.mul vel current_meas_period))).

Fixpoint accel_from (cfg : AxisConfig_t) (l : float * float) (k : nat)
    : float * float :=
  match k with
  | O => l
  | S k' => accel_step cfg (accel_from cfg l k')
  end.

(** The calls of [k] iterations of that loop, starting from [l]. *)
Fixpoint accel_log (cfg : AxisConfig_t) (l : float * float) (k : nat)
    : list Event :=
  match k with
  | O => []
  | S k' =>
      ev_wait_current_meas
      :: ev_motor_update (spin_up_current cfg) (snd (accel_step cfg l))
      :: accel_log cfg (accel_step cfg l) k'
  end.

End Acceleration.

(** ** Example inputs *)

Definition example_config : AxisConfig_t :=
  {| startup_motor_calibration := true;
     startup_encoder_calibration := true;
     startup_closed_loop_control := true;
     startup_sensorless_control := false;
     enable_step_dir := true;
     counts_per_step := F32.of_Z 2;
     ramp_up_time := F32.div (F32.of_Z 4) (F32.of_Z 10);
     ramp_up_distance := F32.of_Z 12;
     spin_up_current := F32.of_Z 10;
     spin_up_acceleration := F32.of_Z 400;
     spin_up_target_vel := F32.of_Z 400;
     dc_bus_brownout_trip_level := F32.of_Z 8 |}.

Definition with_enable_step_dir (b : bool) (cfg : AxisConfig_t) : AxisConfig_t :=
  {| startup_motor_calibration := startup_motor_calibration cfg;
     startup_encoder_calibration := startup_encoder_calibration cfg;
     startup_closed_loop_control := startup_closed_loop_control cfg;
     startup_sensorless_control := startup_sensorless_control cfg;
     enable_step_dir := b;
     counts_per_step := counts_per_step cfg;
     ramp_up_time := ramp_up_time cfg;
     ramp_up_distance := ramp_up_distance cfg;
     spin_up_current := spin_up_current cfg;
     spin_up_acceleration := spin_up_acceleration cfg;
     spin_up_target_vel := spin_up_target_vel cfg;
     dc_bus_brownout_trip_level := dc_bus_brownout_trip_level cfg |}.

Definition with_ramp_up_time (t : float) (cfg : AxisConfig_t) : AxisConfig_t :=
  {| startup_motor_calibration := startup_motor_calibration cfg;
     startup_encoder_calibration := startup_encoder_calibration cfg;
     startup_closed_loop_control := startup_closed_loop_control cfg;
     startup_sensorless_control := startup_sensorless_control cfg;
     enable_step_dir := enable_step_dir cfg;
     counts_per_step := counts_per_step cfg;
     ramp_up_time := t;
     ramp_up_distance := ramp_up_distance cfg;
     spin_up_current := spin_up_current cfg;
     spin_up_acceleration := spin_up_acceleration cfg;
     spin_up_target_vel := spin_up_target_vel cfg;
     dc_bus_brownout_trip_level := dc_bus_brownout_trip_level cfg |}.

(** Answers of a collaborator: success or failure, with the writes of
    other contexts that happen meanwhile. *)
Definition answer (b : bool) (ws : list Async) : Input :=
  {| ok := b; out1 := F32.zero; out2 := F32.zero; out3 := F32.zero; during := ws |}.

Definition yes : Input := answer true [].
Definition no : Input := answer false [].

(** An axis with a task chain of [capacity] entries and a pending
    request, nothing calibrated, no error. *)
Definition fresh_axis (cfg : AxisConfig_t) (capacity : nat) (requested : State_t) : Axis :=
  {| config_ := cfg;
     error_ := ERROR_NO_ERROR;
     enable_step_dir_ := false;
     requested_state_ := requested;
     task_chain_ := repeat AXIS_STATE_UNDEFINED capacity;
     motor_is_calibrated_ := false;
     encoder_is_calibrated_ := false;
     control_mode := 2;
     pos_setpoint_ := F32.zero;
     log := [] |}.

(** A calibrated axis in closed loop control, no request pending. *)
Definition closed_loop_axis (cfg : AxisConfig_t) : Axis :=
  {| config_ := cfg;
     error_ := ERROR_NO_ERROR;
     enable_step_dir_ := false;
     requested_state_ := AXIS_STATE_UNDEFINED;
     task_chain_ :=
       [AXIS_STATE_CLOSED_LOOP_CONTROL; AXIS_STATE_IDLE]
       ++ repeat AXIS_STATE_UNDEFINED 8;
     motor_is_calibrated_ := true;
     encoder_is_calibrated_ := true;
     control_mode := 2;
     pos_setpoint_ := F32.zero;
     log := [] |}.

(** An axis that was calibrated before, with the chain of a full
    calibration sequence loaded and no request pending. *)
Definition recalibrating_axis : Axis :=
  {| config_ := example_config;
     error_ := ERROR_NO_ERROR;
     enable_step_dir_ := false;
     requested_state_ := AXIS_STATE_UNDEFINED;
     task_chain_ :=
       [AXIS_STATE_MOTOR_CALIBRATION; AXIS_STATE_ENCODER_CALIBRATION;
        AXIS_STATE_IDLE] ++ repeat AXIS_STATE_UNDEFINED 7;
     motor_is_calibrated_ := true;
     encoder_is_calibrated_ := true;
     control_mode := 2;
     pos_setpoint_ := F32.zero;
     log := [] |}.

(** [recalibrating_axis] after a round in which the motor calibration
    failed. *)
Definition recalibration_failed : Axis :=
  set_task_chain_
    ([AXIS_STATE_IDLE; AXIS_STATE_ENCODER_CALIBRATION; AXIS_STATE_IDLE]
     ++ repeat AXIS_STATE_UNDEFINED 7)
    (add_log ev_motor_run_calibration recalibrating_axis).

(** Closed loop control is requested of an axis that is not calibrated:
    the axis before the round, after loading the chain, and after the
    round. *)
Definition closed_loop_request : Axis :=
  fresh_axis example_config 10 AXIS_STATE_CLOSED_LOOP_CONTROL.

Definition closed_loop_loaded : Axis :=
  set_requested_state_ AXIS_STATE_UNDEFINED
    (set_task_chain_
       ([AXIS_STATE_CLOSED_LOOP_CONTROL; AXIS_STATE_IDLE]
        ++ repeat AXIS_STATE_UNDEFINED 8) closed_loop_request).

Definition closed_loop_refused : Axis :=
  set_task_chain_
    ([AXIS_STATE_IDLE; AXIS_STATE_IDLE] ++ repeat AXIS_STATE_UNDEFINED 8)
    (set_error_ ERROR_INVALID_STATE closed_loop_loaded).

(** The axis of [closed_loop_axis] with an error recorded earlier, with
    the controller in position control, and with step/dir input switched
    off in the configuration. *)
Definition failed_before : Axis :=
  set_error_ ERROR_ENCODER_FAILED (closed_loop_axis example_config).

Definition position_controlled : Axis :=
  set_control_mode 3 (closed_loop_axis example_config).

Definition without_step_dir : Axis :=
  closed_loop_axis (with_enable_step_dir false example_config).

(** A ramp-up time of 1.5 ms, 0.0015f: twelve measurement periods of
    [period_8kHz]. *)
Definition short_ramp_time : float := F32.div (F32.of_Z 15) (F32.of_Z 10000).

(** A calibrated axis about to spin up without sensor, with that ramp. *)
Definition short_ramp_axis : Axis :=
  {| config_ := with_ramp_up_time short_ramp_time example_config;
     error_ := ERROR_NO_ERROR;
     enable_step_dir_ := false;
     requested_state_ := AXIS_STATE_UNDEFINED;
     task_chain_ :=
       [AXIS_STATE_SENSORLESS_CONTROL; AXIS_STATE_IDLE]
       ++ repeat AXIS_STATE_UNDEFINED 8;
     motor_is_calibrated_ := true;
     encoder_is_calibrated_ := false;
     control_mode := 2;
     pos_setpoint_ := F32.zero;
     log := [] |}.

(** A ramp-up time of 2^26 measurement periods of [period_8kHz], about
    8389 s; the product is exact. *)
Definition long_ramp_time : float :=
  F32.mul period_8kHz (F32.of_Z 67108864).

(** A calibrated axis about to spin up without sensor, with that ramp. *)
Definition long_ramp_axis : Axis :=
  {| config_ := with_ramp_up_time long_ramp_time example_config;
     error_ := ERROR_NO_ERROR;
     enable_step_dir_ := false;
     requested_state_ := AXIS_STATE_UNDEFINED;
     task_chain_ :=
       [AXIS_STATE_SENSORLESS_CONTROL; AXIS_STATE_IDLE]
       ++ repeat AXIS_STATE_UNDEFINED 8;
     motor_is_calibrated_ := true;
     encoder_is_calibrated_ := false;
     control_mode := 2;
     pos_setpoint_ := F32.zero;
     log := [] |}.

(** The float of [j * 2^-26]: [j] steps of the ramp of [long_ramp_axis]. *)
Definition ticks (j : Z) : float :=
  binary_normalize F32.prec F32.emax j (-26) false.

(** 0.25f. *)
Definition a_quarter : float := F32.div (F32.of_Z 1) (F32.of_Z 4).

(** An axis with step/dir input enabled and the position setpoint at
    [p]. *)
Definition stepping_axis (p : float) : Axis :=
  set_pos_setpoint_ p
    (set_enable_step_dir_ true (closed_loop_axis example_config)).

(** *** Scripts *)

(** The motor calibration fails while the user asks for closed loop
    control; in the closed loop the first encoder update fails. *)
Definition script_request_during_failure : list Input :=
  [ answer false [write_requested_state AXIS_STATE_CLOSED_LOOP_CONTROL];
    yes; yes; no ].

(** The motor calibration fails; while the axis idles a request is written
    and, during the arming that follows, written back to undefined; the
    encoder calibration succeeds. *)
Definition script_request_withdrawn : list Input :=
  [ no;
    answer true [write_requested_state AXIS_STATE_CLOSED_LOOP_CONTROL];
    yes; yes;
    answer true [write_requested_state AXIS_STATE_UNDEFINED];
    yes ].

(** One round of a control loop in which every update succeeds and, during
    the motor update, Idle is requested. *)
Definition script_good_round_then_request : list Input :=
  [ yes; yes; yes; yes; answer true [write_requested_state AXIS_STATE_IDLE] ].

(** A step pulse arrives during the first wait for the current
    measurement; then the encoder update fails. *)
Definition script_pulse_then_failure : list Input :=
  [ answer true [step_irq true]; yes; no ].

(** Scenarios of section 8 of the spec.  A full calibration sequence in
    which both calibrations succeed; the answers are those of the first
    arming, of the two calibrations (which mark the devices calibrated),
    of one round of the idle loop during which closed loop control is
    requested, and of the arming after it. *)
Definition script_full_calibration : list Input :=
  [ yes;
    answer true [write_motor_is_calibrated true];
    answer true [write_encoder_is_calibrated true];
    yes; yes;
    answer true [write_requested_state AXIS_STATE_CLOSED_LOOP_CONTROL];
    yes ].

(** Closed loop control in which the first encoder update fails. *)
Definition script_encoder_fails : list Input := [ yes; yes; no ].

(** *** Invariants on scripts *)

(** [Keeps Q F P m]: run from an axis that satisfies [P] on a script whose
    answers all satisfy [Q], the program [m] reaches an axis that
    satisfies [P] and leaves a script of such answers; it makes an access
    outside [task_chain_] only if [F]. *)
Definition Keeps {A} (Q : Input -> Prop) (F : Prop) (P : Axis -> Prop)
    (m : M A) : Prop :=
  forall a s, Forall Q s -> P a ->
    match m a s with
    | Done _ a' s' => P a' /\ Forall Q s'
    | Starved a' => P a'
    | Fault => F
    end.

(** The task chain has [n] entries and, if [sentinel] is set, its last
    entry is Undefined. *)
Definition chain_kept (n : nat) (sentinel : bool) (a : Axis) : Prop :=
  length (task_chain_ a) = n /\
  (sentinel = true ->
   last (task_chain_ a) AXIS_STATE_IDLE = AXIS_STATE_UNDEFINED).

(** No other context writes the position setpoint while the call is in
    progress; step pulses and the other writes may arrive. *)
Definition no_setpoint_write (i : Input) : Prop :=
  Forall (fun w => match w with write_pos_setpoint _ => False | _ => True end)
    (during i).

(** Step/dir input is disabled and the position setpoint is [p]. *)
Definition setpoint_rests (p : float) (a : Axis) : Prop :=
  enable_step_dir_ a = false /\ pos_setpoint_ a = p.

(** The run [r] of a control loop ended in failure with the error [e]
    and left the answers [rest]; the last calls it made before it
    unsubscribed from the step input were [last_calls]. *)
Definition loop_failed (r : Res bool) (rest : list Input) (e : Error_t)
    (last_calls : list Event) : Prop :=
  exists a' mid,
    r = Done false a' rest /\
    error_ a' = e /\
    enable_step_dir_ a' = false /\
    log a' = mid ++ last_calls ++ [ev_gpio_unsubscribe].

(** The run [r] of a control loop entered from [a] ended because the
    state [requested] was requested: it left the answers [rest], the
    request is pending, step/dir input is disabled, and the status tells
    whether an error had been recorded before. *)
Definition loop_left (a : Axis) (r : Res bool) (rest : list Input)
    (requested : State_t) : Prop :=
  exists a',
    r = Done (Error_eqb (error_ a) ERROR_NO_ERROR) a' rest /\
    requested_state_ a' = requested /\
    error_ a' = error_ a /\
    enable_step_dir_ a' = false.

(** *** Further inputs *)

(** The answer of a successful read that gives back the value [v]. *)
Definition reading (v : float) : Input :=
  {| ok := true; out1 := v; out2 := F32.zero; out3 := F32.zero; during := [] |}.

(** An uncalibrated axis with EncoderCalibration requested. *)
Definition encoder_calibration_request : Axis :=
  fresh_axis example_config 10 AXIS_STATE_ENCODER_CALIBRATION.

(** Pulses arrive on the step input while the axis waits for the current
    measurement and while the estimator is updated. *)
Definition script_pulses_while_idle : list Input :=
  [ answer true [step_irq true]; answer false [step_irq true; step_irq false];
    yes ].

(** An idle axis, calibrated, step/dir input disabled. *)
Definition idle_axis : Axis :=
  {| config_ := example_config;
     error_ := ERROR_NO_ERROR;
     enable_step_dir_ := false;
     requested_state_ := AXIS_STATE_UNDEFINED;
     task_chain_ := AXIS_STATE_IDLE :: repeat AXIS_STATE_UNDEFINED 9;
     motor_is_calibrated_ := true;
     encoder_is_calibrated_ := true;
     control_mode := 2;
     pos_setpoint_ := F32.of_Z 1000;
     log := [] |}.

(** No other context writes the requested state while the call is in
    progress. *)
Definition no_request (i : Input) : Prop :=
  Forall (fun w => match w with write_requested_state _ => False | _ => True end)
    (during i).

(** The current measurement is missed; then the two monitoring updates
    succeed, and during the second one closed loop control is requested. *)
Definition script_missed_measurement : list Input :=
  [ no; yes;
    answer true [write_requested_state AXIS_STATE_CLOSED_LOOP_CONTROL];
    yes ].

(** A calibrated axis about to spin up without sensor: the ramp of
    [short_ramp_axis] and an acceleration of 1000 per measurement period
    from 12 / 0.0015 = 8000 to the target velocity 10000. *)
Definition spin_up_config : AxisConfig_t :=
  {| startup_motor_calibration := true;
     startup_encoder_calibration := false;
     startup_closed_loop_control := false;
     startup_sensorless_control := true;
     enable_step_dir := false;
     counts_per_step := F32.of_Z 2;
     ramp_up_time := short_ramp_time;
     ramp_up_distance := F32.of_Z 12;
     spin_up_current := F32.of_Z 10;
     spin_up_acceleration := F32.of_Z 8000000;
     spin_up_target_vel := F32.of_Z 10000;
     dc_bus_brownout_trip_level := F32.of_Z 8 |}.

Definition spin_up_axis : Axis :=
  {| config_ := spin_up_config;
     error_ := ERROR_NO_ERROR;
     enable_step_dir_ := false;
     requested_state_ := AXIS_STATE_UNDEFINED;
     task_chain_ :=
       [AXIS_STATE_SENSORLESS_CONTROL; AXIS_STATE_IDLE]
       ++ repeat AXIS_STATE_UNDEFINED 8;
     motor_is_calibrated_ := true;
     encoder_is_calibrated_ := false;
     control_mode := 2;
     pos_setpoint_ := F32.zero;
     log := [] |}.

(** * Properties *)

(** ** Reasoning about programs *)

Lemma State_eqb_spec (s t : State_t) : reflect (s = t) (State_eqb s t).
Proof. destruct s, t; simpl; constructor; congruence. Qed.

Lemma Error_eqb_spec (e f : Error_t) : reflect (e = f) (Error_eqb e f).
Proof. destruct e, f; simpl; constructor; congruence. Qed.

Lemma bind_Done {A B} (m : M A) (k : A -> M B) a s y a' s' :
  bind m k a s = Done y a' s' ->
  exists x a1 s1, m a s = Done x a1 s1 /\ k x a1 s1 = Done y a' s'.
Proof.
  unfold bind. destruct (m a s) as [x a1 s1| |]; try discriminate.
  intros H. exists x, a1, s1. split; [reflexivity | exact H].
Qed.

Lemma Preserves_ret {A} P (x : A) : Preserves P (ret x).
Proof. intros a s H. exact H. Qed.

Lemma Preserves_bind {A B} P (m : M A) (k : A -> M B) :
  Preserves P m -> (forall x, Preserves P (k x)) -> Preserves P (bind m k).
Proof.
  intros Hm Hk a s H. unfold bind.
  specialize (Hm a s H). destruct (m a s) as [x a1 s1| |]; simpl in *; auto.
  apply Hk. exact Hm.
Qed.

Lemma Preserves_get P : Preserves P get.
Proof. intros a s H. exact H. Qed.

Lemma Preserves_fault {A} P : Preserves P (@fault A).
Proof. intros a s H. exact I. Qed.

Lemma Preserves_modify P f :
  (forall a, P a -> P (f a)) -> Preserves P (modify f).
Proof. intros Hf a s H. simpl. auto. Qed.

Lemma Preserves_emit P e : Stable P -> Preserves P (emit e).
Proof. intros [Hl _]. apply Preserves_modify. auto. Qed.

Lemma deliver_all_stable P ws a : Stable P -> P a -> P (deliver_all ws a).
Proof.
  intros [_ Hd]. revert a. unfold deliver_all.
  induction ws as [|w ws IH]; simpl; auto.
Qed.

Lemma Preserves_call P e : Stable P -> Preserves P (call e).
Proof.
  intros HS a s H. pose proof HS as [Hl _]. unfold call.
  destruct s as [|i rest]; simpl.
  - apply Hl, H.
  - apply deliver_all_stable; [exact HS | apply Hl, H].
Qed.

Lemma Preserves_load P i : Preserves P (load i).
Proof.
  intros a s H. unfold load.
  destruct (nth_error (task_chain_ a) i); simpl; auto.
Qed.

Lemma Preserves_store P i v :
  (forall c a, P a -> P (set_task_chain_ c a)) -> Preserves P (store i v).
Proof.
  intros Hc a s H. unfold store.
  destruct (Nat.ltb i (length (task_chain_ a))); simpl; auto.
Qed.

Lemma Preserves_if {A} P (b : bool) (m1 m2 : M A) :
  Preserves P m1 -> Preserves P m2 -> Preserves P (if b then m1 else m2).
Proof. destruct b; auto. Qed.

(** Programs are taken apart down to the primitives. *)
Ltac preserve :=
  repeat first
    [ progress intros
    | match goal with
      | |- Preserves _ (bind _ _) => apply Preserves_bind
      | |- Preserves _ (if _ then _ else _) => apply Preserves_if
      | |- Preserves _ (ret _) => apply Preserves_ret
      | |- Preserves _ get => apply Preserves_get
      | |- Preserves _ (load _) => apply Preserves_load
      | |- Preserves _ current_state => apply Preserves_load
      | |- Preserves _ fault => apply Preserves_fault
      | |- Preserves _ (call _) => apply Preserves_call; assumption
      | |- Preserves _ (emit _) => apply Preserves_emit; assumption
      | |- Preserves _ (match ?p with (_, _) => _ end) => destruct p
      end ].

(** *** The fuel of the runner

    [run_control_loop] never runs out of fuel before the script is over:
    more fuel than the script is long makes no difference. *)

Lemma Shrinks_ret {A} (x : A) : Shrinks (ret x).
Proof. intros a s y a' s' H. inversion H; subst. apply Nat.le_refl. Qed.

Lemma Shrinks_bind {A B} (m : M A) (k : A -> M B) :
  Shrinks m -> (forall x, Shrinks (k x)) -> Shrinks (bind m k).
Proof.
  intros Hm Hk a s y a' s' H.
  apply bind_Done in H. destruct H as (x & a1 & s1 & H1 & H2).
  apply Hm in H1. apply Hk in H2. lia.
Qed.

Lemma Shrinks_get : Shrinks get.
Proof. intros a s y a' s' H. inversion H; subst. apply Nat.le_refl. Qed.

Lemma Shrinks_modify f : Shrinks (modify f).
Proof. intros a s y a' s' H. inversion H; subst. apply Nat.le_refl. Qed.

Lemma Shrinks_call e : Shrinks (call e).
Proof.
  intros a s y a' s' H. unfold call in H.
  destruct s as [|i rest]; [discriminate|].
  inversion H; subst. simpl. lia.
Qed.

Lemma Shrinks_load i : Shrinks (load i).
Proof.
  intros a s y a' s' H. unfold load in H.
  destruct (nth_error (task_chain_ a) i); [|discriminate].
  inversion H; subst. apply Nat.le_refl.
Qed.

Lemma Shrinks_if {A} (b : bool) (m1 m2 : M A) :
  Shrinks m1 -> Shrinks m2 -> Shrinks (if b then m1 else m2).
Proof. destruct b; auto. Qed.

Ltac shrink :=
  repeat first
    [ progress intros
    | match goal with
      | |- Shrinks (bind _ _) => apply Shrinks_bind
      | |- Shrinks (if _ then _ else _) => apply Shrinks_if
      | |- Shrinks (ret _) => apply Shrinks_ret
      | |- Shrinks get => apply Shrinks_get
      | |- Shrinks (modify _) => apply Shrinks_modify
      | |- Shrinks (call _) => apply Shrinks_call
      | |- Shrinks (load _) => apply Shrinks_load
      | |- Shrinks current_state => apply Shrinks_load
      end ].

Section Fuel.

Context {D : Declarations}.

Lemma wait_for_current_meas_Done a s meas a' s' :
  wait_for_current_meas a s = Done meas a' s' -> S (length s') = length s.
Proof.
  unfold wait_for_current_meas, bind, call.
  destruct s as [|i rest]; [discriminate|].
  destruct (ok i); intros H; inversion H; subst; reflexivity.
Qed.

(** One round of the runner, written out. *)
Lemma run_control_loop_fuel_S {L} fuel (h : L -> M (bool * L)) l a s :
  run_control_loop_fuel (S fuel) h l a s =
  if State_eqb (requested_state_ a) AXIS_STATE_UNDEFINED then
    match wait_for_current_meas a s with
    | Done meas a1 s1 =>
        match current_state a1 s1 with
        | Done cur a2 s2 =>
            if negb meas && negb (State_eqb cur AXIS_STATE_IDLE)
            then Done l a2 s2
            else
              match h l a2 s2 with
              | Done (continue, l') a3 s3 =>
                  if continue then run_control_loop_fuel fuel h l' a3 s3
                  else Done l' a3 s3
              | Starved x => Starved x
              | Fault => Fault
              end
        | Starved x => Starved x
        | Fault => Fault
        end
    | Starved x => Starved x
    | Fault => Fault
    end
  else Done l a s.
Proof.
  cbn [run_control_loop_fuel]. unfold bind, get, ret.
  destruct (State_eqb (requested_state_ a) AXIS_STATE_UNDEFINED); [|reflexivity].
  destruct (wait_for_current_meas a s) as [meas a1 s1| |]; try reflexivity.
  destruct (current_state a1 s1) as [cur a2 s2| |]; try reflexivity.
  destruct (negb meas && negb (State_eqb cur AXIS_STATE_IDLE)); [reflexivity|].
  destruct (h l a2 s2) as [[continue l'] a3 s3| |]; try reflexivity.
  destruct continue; reflexivity.
Qed.

Lemma run_control_loop_fuel_enough {L} (h : L -> M (bool * L)) :
  (forall l, Shrinks (h l)) ->
  forall fuel1 fuel2 l a s,
    (length s < fuel1)%nat -> (length s < fuel2)%nat ->
    run_control_loop_fuel fuel1 h l a s = run_control_loop_fuel fuel2 h l a s.
Proof.
  intros Hh. induction fuel1 as [|fuel1 IH]; intros fuel2 l a s H1 H2; [lia|].
  destruct fuel2 as [|fuel2]; [lia|].
  rewrite !run_control_loop_fuel_S.
  destruct (State_eqb (requested_state_ a) AXIS_STATE_UNDEFINED); [|reflexivity].
  destruct (wait_for_current_meas a s) as [meas a1 s1| |] eqn:Hw; try reflexivity.
  apply wait_for_current_meas_Done in Hw.
  destruct (current_state a1 s1) as [cur a2 s2| |] eqn:Hc; try reflexivity.
  apply Shrinks_load in Hc.
  destruct (negb meas && negb (State_eqb cur AXIS_STATE_IDLE)); [reflexivity|].
  destruct (h l a2 s2) as [[continue l'] a3 s3| |] eqn:Hr; try reflexivity.
  apply Hh in Hr.
  destruct continue; [|reflexivity].
  apply IH; lia.
Qed.

Lemma run_control_loop_fuel_adequate {L} (h : L -> M (bool * L)) :
  (forall l, Shrinks (h l)) ->
  forall fuel l a s,
    (length s < fuel)%nat ->
    run_control_loop_fuel fuel h l a s = run_control_loop h l a s.
Proof.
  intros Hh fuel l a s H. unfold run_control_loop.
  apply run_control_loop_fuel_enough; [exact Hh | exact H | lia].
Qed.

(** This holds for the five handlers of axis.cpp. *)
Lemma Shrinks_handlers :
  (forall x, Shrinks (spin_up_ramp_handler x)) /\
  (forall l, Shrinks (spin_up_accel_handler l)) /\
  (forall u, Shrinks (sensorless_handler u)) /\
  (forall u, Shrinks (closed_loop_handler u)) /\
  (forall u, Shrinks (idle_handler u)).
Proof.
  repeat split; intros;
    unfold spin_up_ramp_handler, spin_up_accel_handler, sensorless_handler,
      closed_loop_handler, idle_handler; shrink.
Qed.

End Fuel.

(** *** Invariants of the axis programs *)
Section Invariants.

Context {D : Declarations}.
Variable P : Axis -> Prop.

Hypothesis P_stable : Stable P.
Hypothesis P_error : forall e a, e <> ERROR_NO_ERROR -> P a -> P (set_error_ e a).

Ltac preserve_error :=
  preserve;
  try (apply Preserves_modify; intros; apply P_error;
       [discriminate | assumption]).

Lemma Preserves_wait_for_current_meas : Preserves P wait_for_current_meas.
Proof. unfold wait_for_current_meas. preserve_error. Qed.

Lemma Preserves_check_PSU_brownout : Preserves P check_PSU_brownout.
Proof. unfold check_PSU_brownout. preserve_error. Qed.

Lemma Preserves_do_checks : Preserves P do_checks.
Proof.
  unfold do_checks. preserve_error. apply Preserves_check_PSU_brownout.
Qed.

Lemma Preserves_run_control_loop_fuel {L} (h : L -> M (bool * L)) :
  (forall l, Preserves P (h l)) ->
  forall fuel l, Preserves P (run_control_loop_fuel fuel h l).
Proof.
  intros Hh. induction fuel as [|fuel IH]; intros l.
  - intros a s H. exact H.
  - simpl. preserve_error; auto using Preserves_wait_for_current_meas.
Qed.

Lemma Preserves_run_control_loop {L} (h : L -> M (bool * L)) l :
  (forall l, Preserves P (h l)) -> Preserves P (run_control_loop h l).
Proof.
  intros Hh a s H. unfold run_control_loop.
  apply Preserves_run_control_loop_fuel; assumption.
Qed.

Lemma Preserves_spin_up_ramp_handler x : Preserves P (spin_up_ramp_handler x).
Proof. unfold spin_up_ramp_handler. preserve_error. Qed.

Lemma Preserves_spin_up_accel_handler l : Preserves P (spin_up_accel_handler l).
Proof. unfold spin_up_accel_handler. preserve_error. Qed.

Lemma Preserves_sensorless_handler u : Preserves P (sensorless_handler u).
Proof. unfold sensorless_handler. preserve_error. Qed.

Lemma Preserves_closed_loop_handler u : Preserves P (closed_loop_handler u).
Proof. unfold closed_loop_handler. preserve_error. Qed.

Lemma Preserves_idle_handler u : Preserves P (idle_handler u).
Proof. unfold idle_handler. preserve_error. Qed.

Lemma Preserves_run_sensorless_spin_up : Preserves P run_sensorless_spin_up.
Proof.
  unfold run_sensorless_spin_up. preserve_error;
    apply Preserves_run_control_loop;
    auto using Preserves_spin_up_ramp_handler, Preserves_spin_up_accel_handler.
Qed.

Lemma Preserves_run_idle_loop : Preserves P run_idle_loop.
Proof.
  unfold run_idle_loop. preserve_error.
  apply Preserves_run_control_loop. apply Preserves_idle_handler.
Qed.

(** Invariants that do not look at the step/direction flag. *)
Hypothesis P_flag : forall b a, P a -> P (set_enable_step_dir_ b a).

Lemma Preserves_set_step_dir_enabled b : Preserves P (set_step_dir_enabled b).
Proof.
  unfold set_step_dir_enabled. preserve_error;
    apply Preserves_modify; auto.
Qed.

Lemma Preserves_run_sensorless_control_loop :
  Preserves P run_sensorless_control_loop.
Proof.
  unfold run_sensorless_control_loop. preserve_error;
    auto using Preserves_set_step_dir_enabled.
  apply Preserves_run_control_loop. apply Preserves_sensorless_handler.
Qed.

Lemma Preserves_run_closed_loop_control_loop :
  Preserves P run_closed_loop_control_loop.
Proof.
  unfold run_closed_loop_control_loop. preserve_error;
    auto using Preserves_set_step_dir_enabled.
  apply Preserves_run_control_loop. apply Preserves_closed_loop_handler.
Qed.

Lemma Preserves_run_state cur : Preserves P (run_state cur).
Proof.
  destruct cur; simpl; preserve_error;
    auto using Preserves_run_idle_loop, Preserves_run_sensorless_spin_up,
      Preserves_run_sensorless_control_loop,
      Preserves_run_closed_loop_control_loop.
Qed.

(** Invariants that look neither at the task chain nor at the request. *)
Hypothesis P_chain : forall c a, P a -> P (set_task_chain_ c a).
Hypothesis P_request : forall r a, P a -> P (set_requested_state_ r a).

Lemma Preserves_push pos v : Preserves P (push pos v).
Proof. unfold push. preserve. apply Preserves_store. exact P_chain. Qed.

Lemma Preserves_load_task_chain : Preserves P load_task_chain.
Proof.
  unfold load_task_chain. preserve.
  - destruct (requested_state_ x); preserve; apply Preserves_push.
  - apply Preserves_push.
  - apply Preserves_modify. auto.
Qed.

Lemma Preserves_validate_state : Preserves P validate_state.
Proof.
  unfold validate_state, current_state. preserve;
    apply Preserves_store; exact P_chain.
Qed.

Lemma Preserves_finish_state status : Preserves P (finish_state status).
Proof.
  unfold finish_state. preserve.
  - apply Preserves_store. exact P_chain.
  - apply Preserves_modify. auto.
Qed.

Lemma Preserves_state_machine_round : Preserves P state_machine_round.
Proof.
  unfold state_machine_round, select_state, current_state. preserve;
    auto using Preserves_load_task_chain, Preserves_validate_state,
      Preserves_run_state, Preserves_finish_state.
Qed.

Lemma Preserves_state_machine_rounds n : Preserves P (state_machine_rounds n).
Proof.
  induction n as [|n IH]; simpl; preserve;
    auto using Preserves_state_machine_round.
Qed.

Lemma Preserves_run_state_machine_loop n : Preserves P (run_state_machine_loop n).
Proof.
  unfold run_state_machine_loop. preserve.
  apply Preserves_state_machine_rounds.
Qed.

End Invariants.

Section TaskChain.

Context {D : Declarations}.

Lemma expansion_length cfg requested : (length (expansion cfg requested) <= 5)%nat.
Proof.
  destruct requested; simpl; try lia.
  destruct (startup_motor_calibration cfg), (startup_encoder_calibration cfg),
    (startup_closed_loop_control cfg), (startup_sensorless_control cfg);
    simpl; lia.
Qed.

Lemma overwrite_length p c :
  (length p <= length c)%nat -> length (overwrite p c) = length c.
Proof.
  intros H. unfold overwrite. rewrite length_app, length_skipn. lia.
Qed.

Ltac run_chain :=
  unfold load_task_chain, push, store, bind, ret, get, modify, overwrite;
  simpl.

(** What loading does when the array is long enough for the request. *)
Lemma load_task_chain_Done a s :
  requested_state_ a <> AXIS_STATE_UNDEFINED ->
  (length (expansion (config_ a) (requested_state_ a)) <= length (task_chain_ a))%nat ->
  load_task_chain a s =
  Done tt
    (set_requested_state_ AXIS_STATE_UNDEFINED
       (set_task_chain_
          (overwrite (expansion (config_ a) (requested_state_ a)) (task_chain_ a)) a))
    s.
Proof.
  destruct a as [cfg err flag req chain mcal ecal mode sp lg]. simpl.
  intros Hreq.
  destruct req; try congruence; run_chain;
    try (destruct (startup_motor_calibration cfg),
           (startup_encoder_calibration cfg),
           (startup_closed_loop_control cfg),
           (startup_sensorless_control cfg); simpl);
    intros Hlen;
    repeat (destruct chain as [|? chain]; simpl in *; try lia; try reflexivity).
Qed.

(** And when it is not: an entry is written behind its end. *)
Lemma load_task_chain_Fault a s :
  (length (task_chain_ a) < length (expansion (config_ a) (requested_state_ a)))%nat ->
  load_task_chain a s = Fault.
Proof.
  destruct a as [cfg err flag req chain mcal ecal mode sp lg]. simpl.
  destruct req; run_chain;
    try (destruct (startup_motor_calibration cfg),
           (startup_encoder_calibration cfg),
           (startup_closed_loop_control cfg),
           (startup_sensorless_control cfg); simpl);
    intros Hlen; try lia;
    repeat (destruct chain as [|? chain]; simpl in *; try lia; try reflexivity).
Qed.

Lemma load_task_chain_idle a s :
  requested_state_ a = AXIS_STATE_UNDEFINED -> load_task_chain a s = Done tt a s.
Proof. intros H. unfold load_task_chain, bind, get. rewrite H. reflexivity. Qed.

End TaskChain.

(** ** The state machine *)
Section StateMachine.

Context {D : Declarations}.

Lemma load_task_chain_inv a s a1 s1 :
  load_task_chain a s = Done tt a1 s1 ->
  s1 = s /\
  (a1 = a /\ requested_state_ a = AXIS_STATE_UNDEFINED \/
   a1 = set_requested_state_ AXIS_STATE_UNDEFINED
          (set_task_chain_
             (overwrite (expansion (config_ a) (requested_state_ a)) (task_chain_ a)) a)).
Proof.
  intros H.
  destruct (State_eqb_spec (requested_state_ a) AXIS_STATE_UNDEFINED) as [Hu|Hu].
  - rewrite load_task_chain_idle in H by assumption.
    injection H as <- <-. auto.
  - destruct (Nat.leb_spec (length (expansion (config_ a) (requested_state_ a)))
                (length (task_chain_ a))) as [Hl|Hl].
    + rewrite load_task_chain_Done in H by assumption.
      injection H as <- <-. auto.
    + rewrite load_task_chain_Fault in H by assumption. discriminate.
Qed.

Lemma load_task_chain_clears a s a1 s1 :
  load_task_chain a s = Done tt a1 s1 ->
  requested_state_ a1 = AXIS_STATE_UNDEFINED /\ log a1 = log a /\
  error_ a1 = error_ a /\ s1 = s.
Proof.
  intros H. apply load_task_chain_inv in H.
  destruct H as [-> [[-> Hu] | ->]]; simpl; auto.
Qed.

(** A head that lies above the encoder calibration in the enumeration is
    replaced when the encoder is not calibrated. *)
Lemma validate_state_encoder a s cur rest :
  task_chain_ a = cur :: rest ->
  encoder_is_calibrated_ a = false ->
  state_value AXIS_STATE_ENCODER_CALIBRATION < state_value cur ->
  validate_state a s =
  Done tt (set_task_chain_ (AXIS_STATE_UNDEFINED :: rest) a) s.
Proof.
  intros Hc He Hlt.
  unfold validate_state, current_state, load, store, bind, get, ret.
  rewrite Hc. simpl.
  destruct ((state_value AXIS_STATE_MOTOR_CALIBRATION <? state_value cur)
            && negb (motor_is_calibrated_ a)); simpl.
  - rewrite Hc. simpl. rewrite He.
    destruct (state_value AXIS_STATE_ENCODER_CALIBRATION
              <? state_value AXIS_STATE_UNDEFINED); simpl; reflexivity.
  - rewrite Hc. simpl. rewrite He.
    apply Z.ltb_lt in Hlt. rewrite Hlt. simpl. rewrite Hc. reflexivity.
Qed.

(** A head that lies above neither calibration state passes. *)
Lemma validate_state_pass a s cur rest :
  task_chain_ a = cur :: rest ->
  state_value cur <= state_value AXIS_STATE_MOTOR_CALIBRATION ->
  state_value cur <= state_value AXIS_STATE_ENCODER_CALIBRATION ->
  validate_state a s = Done tt a s.
Proof.
  intros Hc Hm He.
  unfold validate_state, current_state, load, store, bind, get, ret.
  rewrite Hc. simpl.
  apply Z.ltb_ge in Hm, He. rewrite Hm. simpl. rewrite Hc. simpl.
  rewrite He. reflexivity.
Qed.

(** With idle at the head and no request pending, idle is what the round
    dispatches. *)
Lemma select_state_idle a s rest :
  requested_state_ a = AXIS_STATE_UNDEFINED ->
  task_chain_ a = AXIS_STATE_IDLE :: rest ->
  state_value AXIS_STATE_IDLE <= state_value AXIS_STATE_MOTOR_CALIBRATION ->
  state_value AXIS_STATE_IDLE <= state_value AXIS_STATE_ENCODER_CALIBRATION ->
  select_state a s = Done AXIS_STATE_IDLE a s.
Proof.
  intros Hr Hc Hm He. unfold select_state, bind.
  rewrite load_task_chain_idle by assumption.
  rewrite (validate_state_pass a s AXIS_STATE_IDLE rest) by assumption.
  unfold current_state, load. rewrite Hc. reflexivity.
Qed.

(** Running a state leaves the task chain alone. *)
Lemma run_state_chain cur a s :
  holds (fun a' => task_chain_ a' = task_chain_ a) (run_state cur a s).
Proof.
  apply (Preserves_run_state (fun a' => task_chain_ a' = task_chain_ a)).
  - split.
    + intros e x H. exact H.
    + intros w x H. destruct w; simpl; try exact H.
      unfold step_cb. destruct (enable_step_dir_ x); exact H.
  - intros e x _ H. exact H.
  - intros b x H. exact H.
  - reflexivity.
Qed.

End StateMachine.

(** ** Claims about the task chain *)
Section TaskChainClaims.

Context {D : Declarations}.

Lemma startup_sequence_expansion cfg :
  expansion cfg AXIS_STATE_STARTUP_SEQUENCE =
  startup_sequence_spec cfg ++ [AXIS_STATE_UNDEFINED].
Proof.
  unfold expansion, startup_sequence_spec.
  destruct (startup_motor_calibration cfg), (startup_encoder_calibration cfg),
    (startup_closed_loop_control cfg), (startup_sensorless_control cfg);
    reflexivity.
Qed.


(** C3.  For every configuration, loading a StartupSequence request writes
    at the start of the array, in this order, MotorCalibration if and only
    if [startup_motor_calibration], EncoderCalibration if and only if
    [startup_encoder_calibration], ClosedLoopControl if
    [startup_closed_loop_control] and else SensorlessControl if
    [startup_sensorless_control] (never both), then Idle and the Undefined
    sentinel; the request is cleared. *)
Theorem startup_sequence_chain (a : Axis) (s : list Input) :
  requested_state_ a = AXIS_STATE_STARTUP_SEQUENCE ->
  (length (startup_sequence_spec (config_ a)) < length (task_chain_ a))%nat ->
  load_task_chain a s =
  Done tt
    (set_requested_state_ AXIS_STATE_UNDEFINED
       (set_task_chain_
          (overwrite (startup_sequence_spec (config_ a) ++ [AXIS_STATE_UNDEFINED])
             (task_chain_ a)) a)) s
  /\ startup_sequence_spec (config_ a) =
     (if startup_motor_calibration (config_ a)
      then [AXIS_STATE_MOTOR_CALIBRATION] else [])
     ++ (if startup_encoder_calibration (config_ a)
         then [AXIS_STATE_ENCODER_CALIBRATION] else [])
     ++ (if startup_closed_loop_control (config_ a)
         then [AXIS_STATE_CLOSED_LOOP_CONTROL]
         else if startup_sensorless_control (config_ a)
         then [AXIS_STATE_SENSORLESS_CONTROL] else [])
     ++ [AXIS_STATE_IDLE]
  /\ ~ (In AXIS_STATE_CLOSED_LOOP_CONTROL (startup_sequence_spec (config_ a)) /\
        In AXIS_STATE_SENSORLESS_CONTROL (startup_sequence_spec (config_ a))).
Proof.
  intros Hreq Hlen. split; [|split].
  - rewrite load_task_chain_Done.
    + rewrite Hreq, startup_sequence_expansion. reflexivity.
    + rewrite Hreq. discriminate.
    + rewrite Hreq, startup_sequence_expansion, length_app. simpl. lia.
  - unfold startup_sequence_spec.
    destruct (startup_motor_calibration (config_ a)),
      (startup_encoder_calibration (config_ a)),
      (startup_closed_loop_control (config_ a)),
      (startup_sensorless_control (config_ a)); reflexivity.
  - unfold startup_sequence_spec.
    destruct (startup_motor_calibration (config_ a)),
      (startup_encoder_calibration (config_ a)),
      (startup_closed_loop_control (config_ a)),
      (startup_sensorless_control (config_ a)); simpl;
      intros [H1 H2];
      repeat (destruct H1 as [H1|H1]; try discriminate H1);
      repeat (destruct H2 as [H2|H2]; try discriminate H2); contradiction.
Qed.

End TaskChainClaims.


Lemma startup_sequence_chain_witness :
  load_task_chain
    (fresh_axis example_config 10 AXIS_STATE_STARTUP_SEQUENCE) [] =
  Done tt
    (set_requested_state_ AXIS_STATE_UNDEFINED
       (set_task_chain_
          ([AXIS_STATE_MOTOR_CALIBRATION; AXIS_STATE_ENCODER_CALIBRATION;
            AXIS_STATE_CLOSED_LOOP_CONTROL; AXIS_STATE_IDLE;
            AXIS_STATE_UNDEFINED] ++ repeat AXIS_STATE_UNDEFINED 5)
          (fresh_axis example_config 10 AXIS_STATE_STARTUP_SEQUENCE))) [].
Proof.
  apply (startup_sequence_chain
           (fresh_axis example_config 10 AXIS_STATE_STARTUP_SEQUENCE) []).
  - reflexivity.
  - simpl. lia.
Defined.

(** ** Claims about the state machine *)
Section StateMachineClaims.

Context {D : Declarations}.

(** C4.  When the chain is loaded with ClosedLoopControl at its head while
    the encoder reports not calibrated, the head is replaced with Undefined
    before the dispatch, the dispatch sets the error InvalidState and gives
    failure, no collaborator is called in that round (the log and the
    script are as before: the closed-loop control loop is not entered), and
    the next round dispatches Idle.  The enumerator values are those of
    axis.hpp: ClosedLoopControl lies above EncoderCalibration and Idle
    below both calibration states. *)
Theorem closed_loop_needs_encoder_calibration
    (a a1 : Axis) (s : list Input) (rest : list State_t) :
  load_task_chain a s = Done tt a1 s ->
  task_chain_ a1 = AXIS_STATE_CLOSED_LOOP_CONTROL :: rest ->
  encoder_is_calibrated_ a1 = false ->
  state_value AXIS_STATE_ENCODER_CALIBRATION
    < state_value AXIS_STATE_CLOSED_LOOP_CONTROL ->
  state_value AXIS_STATE_IDLE <= state_value AXIS_STATE_MOTOR_CALIBRATION ->
  state_value AXIS_STATE_IDLE <= state_value AXIS_STATE_ENCODER_CALIBRATION ->
  let a2 := set_task_chain_ (AXIS_STATE_IDLE :: rest)
              (set_error_ ERROR_INVALID_STATE a1) in
  select_state a s =
    Done AXIS_STATE_UNDEFINED (set_task_chain_ (AXIS_STATE_UNDEFINED :: rest) a1) s
  /\ state_machine_round a s = Done (AXIS_STATE_UNDEFINED, false) a2 s
  /\ error_ a2 = ERROR_INVALID_STATE
  /\ log a2 = log a
  /\ forall s', select_state a2 s' = Done AXIS_STATE_IDLE a2 s'.
Proof.
  intros Hload Hc He Hlt Hm Hi a2.
  assert (Hsel : select_state a s =
            Done AXIS_STATE_UNDEFINED
              (set_task_chain_ (AXIS_STATE_UNDEFINED :: rest) a1) s).
  { unfold select_state, bind. rewrite Hload.
    rewrite (validate_state_encoder a1 s _ rest Hc He Hlt). reflexivity. }
  destruct (load_task_chain_clears _ _ _ _ Hload) as (Hreq & Hlog & _ & _).
  repeat split.
  - exact Hsel.
  - unfold state_machine_round, bind. rewrite Hsel. reflexivity.
  - simpl. exact Hlog.
  - intros s'. apply select_state_idle with (rest := rest); auto.
Qed.

(** C1, as amended.  When the state a round dispatched returns failure, the
    head of the task chain is overwritten with Idle and the entries behind
    it stay as they were when the state was dispatched; if no request is
    pending when the next round starts, that round dispatches Idle (Idle
    lies below both calibration states in the enumeration of axis.hpp). *)
Theorem failed_state_falls_back_to_idle
    (a a' : Axis) (s s' : list Input) (cur : State_t) :
  state_machine_round a s = Done (cur, false) a' s' ->
  exists a0 s0 a1,
    select_state a s = Done cur a0 s0 /\
    run_state cur a0 s0 = Done false a1 s' /\
    a' = set_task_chain_ (AXIS_STATE_IDLE :: tl (task_chain_ a0)) a1 /\
    (requested_state_ a' = AXIS_STATE_UNDEFINED ->
     state_value AXIS_STATE_IDLE <= state_value AXIS_STATE_MOTOR_CALIBRATION ->
     state_value AXIS_STATE_IDLE <= state_value AXIS_STATE_ENCODER_CALIBRATION ->
     forall s2, select_state a' s2 = Done AXIS_STATE_IDLE a' s2).
Proof.
  unfold state_machine_round. intros H.
  apply bind_Done in H. destruct H as (cur0 & a0 & s0 & Hsel & H).
  apply bind_Done in H. destruct H as (status & a1 & s1 & Hrun & H).
  apply bind_Done in H. destruct H as ([] & a2 & s2 & Hfin & H).
  injection H as -> -> -> ->.
  pose proof (run_state_chain cur a0 s0) as Hchain.
  rewrite Hrun in Hchain. simpl in Hchain.
  unfold finish_state in Hfin. simpl in Hfin. unfold store in Hfin.
  rewrite Hchain in Hfin.
  destruct (task_chain_ a0) as [|hd rest] eqn:Hc0; simpl in Hfin;
    [discriminate|].
  injection Hfin as <- <-.
  exists a0, s0, a1.
  split; [exact Hsel|]. split; [exact Hrun|].
  split; [rewrite Hc0; reflexivity|].
  intros Hreq Hm He s2.
  apply select_state_idle with (rest := rest); auto.
Qed.

End StateMachineClaims.

Lemma closed_loop_needs_encoder_calibration_witness :
  @select_state spec_declarations closed_loop_request [] =
    Done AXIS_STATE_UNDEFINED
      (set_task_chain_
         ([AXIS_STATE_UNDEFINED; AXIS_STATE_IDLE] ++ repeat AXIS_STATE_UNDEFINED 8)
         closed_loop_loaded) []
  /\ @state_machine_round spec_declarations closed_loop_request [] =
       Done (AXIS_STATE_UNDEFINED, false) closed_loop_refused []
  /\ error_ closed_loop_refused = ERROR_INVALID_STATE
  /\ log closed_loop_refused = log closed_loop_request
  /\ forall s', @select_state spec_declarations closed_loop_refused s'
                = Done AXIS_STATE_IDLE closed_loop_refused s'.
Proof.
  apply (@closed_loop_needs_encoder_calibration spec_declarations
           closed_loop_request closed_loop_loaded []
           (AXIS_STATE_IDLE :: repeat AXIS_STATE_UNDEFINED 8)).
  - reflexivity.
  - reflexivity.
  - reflexivity.
  - simpl. lia.
  - simpl. lia.
  - simpl. lia.
Defined.

(** Two runs of [recalibrating_axis] in which the motor calibration fails.
    After the failing round the entries queued behind the failed state are
    still in the chain.  In the first run a request has arrived meanwhile,
    and the next round dispatches the requested state, not Idle.  In the
    second run Idle ends with a successful arming and the request that
    ended it is withdrawn: the round after dispatches EncoderCalibration,
    which was queued behind the failed state. *)
Lemma failed_state_not_followed_by_idle :
  option_map task_chain_
    (final (@state_machine_rounds spec_declarations 1 recalibrating_axis
              (firstn 1 script_request_during_failure)))
  = Some ([AXIS_STATE_IDLE; AXIS_STATE_ENCODER_CALIBRATION; AXIS_STATE_IDLE]
          ++ repeat AXIS_STATE_UNDEFINED 7)
  /\ outcome (@state_machine_rounds spec_declarations 2 recalibrating_axis
                script_request_during_failure)
     = Some [(AXIS_STATE_MOTOR_CALIBRATION, false);
             (AXIS_STATE_CLOSED_LOOP_CONTROL, false)]
  /\ outcome (@state_machine_rounds spec_declarations 3 recalibrating_axis
                script_request_withdrawn)
     = Some [(AXIS_STATE_MOTOR_CALIBRATION, false);
             (AXIS_STATE_IDLE, true);
             (AXIS_STATE_ENCODER_CALIBRATION, true)].
Proof. repeat split; vm_compute; reflexivity. Qed.

Lemma failed_state_falls_back_to_idle_witness :
  @state_machine_round spec_declarations recalibrating_axis [no]
    = Done (AXIS_STATE_MOTOR_CALIBRATION, false) recalibration_failed []
  /\ exists a0 s0 a1,
       @select_state spec_declarations recalibrating_axis [no]
         = Done AXIS_STATE_MOTOR_CALIBRATION a0 s0 /\
       @run_state spec_declarations AXIS_STATE_MOTOR_CALIBRATION a0 s0
         = Done false a1 [] /\
       recalibration_failed
         = set_task_chain_ (AXIS_STATE_IDLE :: tl (task_chain_ a0)) a1 /\
       (requested_state_ recalibration_failed = AXIS_STATE_UNDEFINED ->
        @state_value spec_declarations AXIS_STATE_IDLE
          <= @state_value spec_declarations AXIS_STATE_MOTOR_CALIBRATION ->
        @state_value spec_declarations AXIS_STATE_IDLE
          <= @state_value spec_declarations AXIS_STATE_ENCODER_CALIBRATION ->
        forall s2, @select_state spec_declarations recalibration_failed s2
                   = Done AXIS_STATE_IDLE recalibration_failed s2).
Proof.
  split.
  - reflexivity.
  - apply (@failed_state_falls_back_to_idle spec_declarations
             recalibrating_axis recalibration_failed [no] []
             AXIS_STATE_MOTOR_CALIBRATION).
    reflexivity.
Defined.

(** ** Claims about the error value and the control loops *)
Section ControlLoopClaims.

Context {D : Declarations}.

Lemma error_set_stable : Stable error_set.
Proof.
  split.
  - intros e a H. exact H.
  - intros w a H. destruct w; simpl; try exact H.
    unfold step_cb. destruct (enable_step_dir_ a); exact H.
Qed.

Lemma error_set_error e a : e <> ERROR_NO_ERROR -> error_set a -> error_set (set_error_ e a).
Proof. intros He _. exact He. Qed.

Lemma error_set_eqb a : error_set a -> Error_eqb (error_ a) ERROR_NO_ERROR = false.
Proof.
  intros H. destruct (Error_eqb_spec (error_ a) ERROR_NO_ERROR); congruence.
Qed.

(** The status a control loop returns is [error_ == ERROR_NO_ERROR]. *)
Lemma reports_failure_status (h : unit -> M (bool * unit)) a s :
  (forall u, Preserves error_set (h u)) -> error_set a ->
  reports_failure
    ((run_control_loop h tt ;;
      set_step_dir_enabled false ;;
      a' <- get ;;
      ret (Error_eqb (error_ a') ERROR_NO_ERROR)) a s).
Proof.
  intros Hh Ha.
  pose proof (Preserves_run_control_loop error_set error_set_stable
                error_set_error h tt Hh a s Ha) as H.
  unfold bind, get, ret.
  destruct (run_control_loop h tt a s) as [x a1 s1|a1|]; simpl in *; auto.
  split; [apply error_set_eqb|]; assumption.
Qed.

Lemma set_step_dir_enabled_Done b a s :
  set_step_dir_enabled b a s =
  Done tt
    (if b then set_enable_step_dir_ true
                (add_log ev_gpio_subscribe (add_log ev_gpio_init_dir a))
     else add_log ev_gpio_unsubscribe (set_enable_step_dir_ false a)) s.
Proof. destruct b; reflexivity. Qed.

(** C5.  Once an error is recorded, it stays recorded through every
    operation of the axis: a write of another context or a step pulse, the
    wait for the current measurement, the checks, enabling or disabling
    step/dir, the idle loop, a round and any number of rounds of the state
    machine; and every run of the sensorless spin-up, of the sensorless
    control loop and of the closed-loop control loop that ends gives
    failure, whatever the collaborators answer. *)
Theorem error_is_never_reset (a : Axis) (s : list Input) :
  error_set a ->
  (forall w, error_set (deliver a w)) /\
  holds error_set (wait_for_current_meas a s) /\
  holds error_set (do_checks a s) /\
  (forall enable, holds error_set (set_step_dir_enabled enable a s)) /\
  holds error_set (run_idle_loop a s) /\
  holds error_set (state_machine_round a s) /\
  (forall n, holds error_set (run_state_machine_loop n a s)) /\
  reports_failure (run_sensorless_spin_up a s) /\
  reports_failure (run_sensorless_control_loop a s) /\
  reports_failure (run_closed_loop_control_loop a s).
Proof.
  intros Ha.
  pose proof error_set_stable as HS.
  pose proof error_set_error as HE.
  assert (HF : forall b x, error_set x -> error_set (set_enable_step_dir_ b x))
    by (intros b x H; exact H).
  assert (HC : forall c x, error_set x -> error_set (set_task_chain_ c x))
    by (intros c x H; exact H).
  assert (HR : forall r x, error_set x -> error_set (set_requested_state_ r x))
    by (intros r x H; exact H).
  repeat split.
  - intros w. destruct HS as [_ Hd]. apply Hd, Ha.
  - apply Preserves_wait_for_current_meas; assumption.
  - apply Preserves_do_checks; assumption.
  - intros enable. apply Preserves_set_step_dir_enabled; assumption.
  - apply Preserves_run_idle_loop; assumption.
  - apply Preserves_state_machine_round; assumption.
  - intros n. apply Preserves_run_state_machine_loop; assumption.
  - unfold run_sensorless_spin_up, bind, get, ret.
    pose proof (Preserves_run_control_loop error_set HS HE
                  spin_up_ramp_handler F32.zero
                  (Preserves_spin_up_ramp_handler error_set HS HE) a s Ha) as H.
    destruct (run_control_loop spin_up_ramp_handler F32.zero a s)
      as [x a1 s1|a1|]; simpl in *; auto.
    rewrite (error_set_eqb a1 H). simpl. auto.
  - unfold run_sensorless_control_loop.
    unfold bind at 1. unfold get at 1. unfold bind at 1.
    rewrite set_step_dir_enabled_Done.
    apply reports_failure_status.
    + intros u. apply Preserves_sensorless_handler; auto.
    + destruct (enable_step_dir (config_ a)); exact Ha.
  - unfold run_closed_loop_control_loop.
    unfold bind at 1. unfold get at 1. unfold bind at 1.
    rewrite set_step_dir_enabled_Done.
    apply reports_failure_status.
    + intros u. apply Preserves_closed_loop_handler; auto.
    + destruct (enable_step_dir (config_ a)); exact Ha.
Qed.

(** C6.  Whenever the handler of the sensorless control loop runs with the
    controller in position control, it sets the error
    PositionControlDuringSensorless and stops the loop at once: no answer
    is taken from the script and nothing is added to the log, so neither
    the estimator, nor the controller, nor the motor (nor the encoder) is
    updated in that iteration.  In a loop round this leaves the log with
    the wait for the current measurement only. *)
Theorem sensorless_rejects_position_control (a : Axis) (s : list Input) :
  control_mode a = CTRL_MODE_POSITION_CONTROL ->
  sensorless_handler tt a s =
    Done (false, tt) (set_error_ ERROR_POS_CTRL_DURING_SENSORLESS a) s
  /\ forall fuel i cur rest,
       requested_state_ a = AXIS_STATE_UNDEFINED ->
       task_chain_ a = cur :: rest ->
       ok i = true -> during i = [] ->
       run_control_loop_fuel (S fuel) sensorless_handler tt a (i :: s) =
       Done tt (set_error_ ERROR_POS_CTRL_DURING_SENSORLESS
                  (add_log ev_wait_current_meas a)) s.
Proof.
  intros Hmode.
  assert (Hh : forall x s', control_mode x = CTRL_MODE_POSITION_CONTROL ->
             sensorless_handler tt x s' =
             Done (false, tt) (set_error_ ERROR_POS_CTRL_DURING_SENSORLESS x) s').
  { intros x s' Hx. unfold sensorless_handler, bind, get. rewrite Hx.
    rewrite Z.leb_refl. reflexivity. }
  split; [apply Hh, Hmode|].
  intros fuel i cur rest Hreq Hc Hok Hd.
  simpl. unfold bind at 1. unfold get at 1. rewrite Hreq. simpl.
  unfold bind at 1. unfold wait_for_current_meas, bind at 1, call.
  rewrite Hok, Hd. simpl.
  unfold bind at 1. unfold current_state, load. simpl. rewrite Hc. simpl.
  unfold bind at 1. rewrite Hh by exact Hmode. reflexivity.
Qed.

Lemma inside_loop_preserved (a : Axis) :
  Stable (inside_loop a) /\
  (forall e x, e <> ERROR_NO_ERROR -> inside_loop a x -> inside_loop a (set_error_ e x)).
Proof.
  split; [split|].
  - intros e x (Hc & Hf & mid & Hl). repeat split; auto.
    exists (mid ++ [e]). simpl. rewrite Hl. rewrite <- !app_assoc. reflexivity.
  - intros w x H. destruct w; simpl; try exact H.
    unfold step_cb. destruct (enable_step_dir_ x); exact H.
  - intros e x _ H. exact H.
Qed.

Lemma bracketed_loop (h : unit -> M (bool * unit)) a s :
  (forall P, Stable P ->
     (forall e x, e <> ERROR_NO_ERROR -> P x -> P (set_error_ e x)) ->
     forall u, Preserves P (h u)) ->
  bracketed a
    ((a0 <- get ;;
      set_step_dir_enabled (enable_step_dir (config_ a0)) ;;
      run_control_loop h tt ;;
      set_step_dir_enabled false ;;
      a' <- get ;;
      ret (Error_eqb (error_ a') ERROR_NO_ERROR)) a s).
Proof.
  intros Hh. destruct (inside_loop_preserved a) as [HS HE].
  unfold bind at 1. unfold get at 1. unfold bind at 1.
  rewrite set_step_dir_enabled_Done.
  set (a1 := if enable_step_dir (config_ a) then _ else _).
  assert (H1 : inside_loop a a1).
  { unfold inside_loop, a1, step_dir_log.
    destruct (enable_step_dir (config_ a)); simpl; repeat split;
      exists []; rewrite <- ?app_assoc; reflexivity. }
  pose proof (Preserves_run_control_loop (inside_loop a) HS HE h tt
                (Hh _ HS HE) a1 s H1) as H.
  unfold bind, get, ret.
  destruct (run_control_loop h tt a1 s) as [x a2 s2|a2|]; simpl in *; auto.
  destruct H as (Hc & Hf & mid & Hl). repeat split.
  exists mid. rewrite Hl. rewrite <- !app_assoc. reflexivity.
Qed.

(** C8, as amended.  Both the sensorless control loop and the closed-loop
    control loop set step/direction input at loop entry to what
    [enable_step_dir] of the configuration says (enabled and subscribed
    only if it is set, disabled and unsubscribed otherwise), keep it so
    while the loop runs, and disable it at loop exit, whether the loop ends
    in success or in failure. *)
Theorem step_dir_follows_config_in_loops (a : Axis) (s : list Input) :
  bracketed a (run_sensorless_control_loop a s) /\
  bracketed a (run_closed_loop_control_loop a s).
Proof.
  split.
  - apply bracketed_loop. intros P HS HE u.
    apply Preserves_sensorless_handler; assumption.
  - apply bracketed_loop. intros P HS HE u.
    apply Preserves_closed_loop_handler; assumption.
Qed.

(** C10.  The answer of a monitoring-only update is discarded.  The
    handler of the sensorless control loop, when the control mode lets it
    reach the encoder update, behaves the same whatever that update
    returns, the handler of the closed-loop control loop the
    same whatever the estimator update returns, and the idle handler the
    same whatever the two updates return: it always asks to continue and
    leaves the error value as it is.  So a failure of such an update sets
    no error and does not stop the loop. *)
Theorem monitoring_results_are_discarded
    (a : Axis) (s : list Input) (i j : Input) (b b' : bool) (o1 o2 o3 : float) :
  let i' := {| ok := b; out1 := o1; out2 := o2; out3 := o3; during := during i |} in
  let j' := {| ok := b'; out1 := o1; out2 := o2; out3 := o3; during := during j |} in
  (control_mode a < CTRL_MODE_POSITION_CONTROL ->
   sensorless_handler tt a (i' :: s) = sensorless_handler tt a (i :: s)) /\
  closed_loop_handler tt a (i' :: s) = closed_loop_handler tt a (i :: s) /\
  idle_handler tt a (i' :: j' :: s) = idle_handler tt a (i :: j :: s) /\
  exists a', idle_handler tt a (i :: j :: s) = Done (true, tt) a' s /\
             error_ a' = error_ a.
Proof.
  intros i' j'. repeat split.
  - intros Hmode. apply Z.leb_gt in Hmode.
    unfold sensorless_handler, bind, get. rewrite Hmode. reflexivity.
  - eexists. split; [reflexivity|]. simpl.
    assert (Hst : Stable (fun x => error_ x = error_ a)).
    { split.
      - intros e x H. exact H.
      - intros w x H. destruct w; simpl; try exact H.
        unfold step_cb. destruct (enable_step_dir_ x); exact H. }
    apply (deliver_all_stable _ _ _ Hst).
    apply (deliver_all_stable _ _ _ Hst). reflexivity.
Qed.

End ControlLoopClaims.

Lemma error_is_never_reset_witness :
  error_set failed_before
  /\ reports_failure
       (run_closed_loop_control_loop failed_before script_good_round_then_request)
  /\ outcome
       (run_closed_loop_control_loop failed_before script_good_round_then_request)
     = Some false.
Proof.
  split; [discriminate|]. split.
  - apply (@error_is_never_reset spec_declarations failed_before
             script_good_round_then_request).
    discriminate.
  - reflexivity.
Defined.

Lemma sensorless_rejects_position_control_witness :
  control_mode position_controlled = @CTRL_MODE_POSITION_CONTROL spec_declarations
  /\ @sensorless_handler spec_declarations tt position_controlled [yes] =
       Done (false, tt)
         (set_error_ ERROR_POS_CTRL_DURING_SENSORLESS position_controlled) [yes].
Proof.
  split; [reflexivity|].
  apply (@sensorless_rejects_position_control spec_declarations
           position_controlled [yes]).
  reflexivity.
Defined.

(** With [enable_step_dir] off in the configuration, step/dir input is not
    enabled in the closed-loop control loop nor in the sensorless one:
    after the first wait the flag is off, the step GPIO is never subscribed
    to, and the pulse that arrived during the loop has not moved the
    setpoint. *)
Lemma step_dir_not_enabled_in_loop :
  option_map enable_step_dir_
    (final (run_closed_loop_control_loop without_step_dir
              (firstn 1 script_pulse_then_failure))) = Some false
  /\ option_map log
       (final (run_closed_loop_control_loop without_step_dir
                 script_pulse_then_failure))
     = Some [ev_gpio_unsubscribe; ev_wait_current_meas;
             ev_sensorless_update false; ev_encoder_update true;
             ev_gpio_unsubscribe]
  /\ option_map pos_setpoint_
       (final (run_closed_loop_control_loop without_step_dir
                 script_pulse_then_failure))
     = Some (pos_setpoint_ without_step_dir)
  /\ option_map enable_step_dir_
       (final (@run_sensorless_control_loop spec_declarations without_step_dir
                 (firstn 1 script_pulse_then_failure))) = Some false.
Proof. repeat split. Qed.

Lemma monitoring_results_are_discarded_witness :
  control_mode (closed_loop_axis example_config)
    < @CTRL_MODE_POSITION_CONTROL spec_declarations
  /\ @sensorless_handler spec_declarations tt (closed_loop_axis example_config)
       (no :: [yes; yes; yes])
     = @sensorless_handler spec_declarations tt (closed_loop_axis example_config)
         (yes :: [yes; yes; yes]).
Proof.
  split; [reflexivity|].
  apply (@monitoring_results_are_discarded spec_declarations
           (closed_loop_axis example_config) [yes; yes; yes] yes yes
           false false F32.zero F32.zero F32.zero).
  reflexivity.
Defined.

(** ** Single-precision sums and products of small integers *)

Section Rounding.

Variables prec emax : Z.

Lemma iter_pos_nat {A} (f : A -> A) p : forall x,
  iter_pos f p x = Nat.iter (Pos.to_nat p) f x.
Proof.
  induction p as [p IH|p IH|]; intros x; cbn [iter_pos].
  - rewrite !IH. rewrite Pos2Nat.inj_xI.
    rewrite <- Nat.iter_add, <- Nat.iter_succ_r. f_equal. lia.
  - rewrite !IH. rewrite Pos2Nat.inj_xO. rewrite <- Nat.iter_add.
    f_equal. lia.
  - reflexivity.
Qed.

Lemma iter_pos_succ {A} (f : A -> A) p x :
  iter_pos f (Pos.succ p) x = iter_pos f p (f x).
Proof.
  rewrite !iter_pos_nat, Pos2Nat.inj_succ. apply Nat.iter_succ_r.
Qed.

(** Rounding does not see whether a factor two is in the significand or
    in the exponent. *)
Lemma binary_round_double s m e :
  binary_round prec emax s (m~0) (e - 1) = binary_round prec emax s m e.
Proof.
  unfold binary_round.
  change (digits2_pos m~0) with (Pos.succ (digits2_pos m)).
  rewrite Pos2Z.inj_succ.
  replace (Z.succ (Z.pos (digits2_pos m)) + (e - 1))
    with (Z.pos (digits2_pos m) + e) by lia.
  set (t := fexp prec emax (Z.pos (digits2_pos m) + e)).
  unfold shl_align.
  destruct (t - e) as [|d|d] eqn:Hd.
  - replace (t - (e - 1)) with 1 by lia.
    unfold binary_round_aux, shr_fexp. simpl Zdigits2.
    rewrite Pos2Z.inj_succ.
    replace (Z.succ (Z.pos (digits2_pos m)) + (e - 1))
      with (Z.pos (digits2_pos m) + e) by lia.
    fold t. replace (t - (e - 1)) with 1 by lia. rewrite Hd.
    simpl. replace (e - 1 + 1) with e by lia. reflexivity.
  - replace (t - (e - 1)) with (Z.pos (Pos.succ d)) by lia.
    unfold binary_round_aux, shr_fexp. simpl Zdigits2.
    rewrite Pos2Z.inj_succ.
    replace (Z.succ (Z.pos (digits2_pos m)) + (e - 1))
      with (Z.pos (digits2_pos m) + e) by lia.
    fold t. replace (t - (e - 1)) with (Z.pos (Pos.succ d)) by lia. rewrite Hd.
    unfold shr. rewrite iter_pos_succ. simpl shr_record_of_loc. simpl shr_1.
    replace (e - 1 + Z.pos (Pos.succ d)) with (e + Z.pos d) by lia. reflexivity.
  - destruct (t - (e - 1)) as [|d'|d'] eqn:Hd'; try lia.
    + assert (d = 1%positive) by lia. subst d. simpl.
      replace t with (e - 1) by lia. reflexivity.
    + assert (d = Pos.succ d') by lia. subst d.
      rewrite Pos.iter_succ_r. reflexivity.
Qed.

Lemma binary_round_shift s m e k :
  binary_round prec emax s (Pos.iter xO m k) (e - Z.pos k)
  = binary_round prec emax s m e.
Proof.
  revert e. induction k as [|k IH] using Pos.peano_ind; intros e.
  - apply binary_round_double.
  - rewrite Pos.iter_succ, Pos2Z.inj_succ.
    replace (e - Z.succ (Z.pos k)) with (e - Z.pos k - 1) by lia.
    rewrite binary_round_double. apply IH.
Qed.

Lemma iter_xO_pow m k : Z.pos (Pos.iter xO m k) = Z.pos m * 2 ^ Z.pos k.
Proof.
  induction k as [|k IH] using Pos.peano_ind.
  - simpl. lia.
  - rewrite Pos.iter_succ, Pos2Z.inj_xO, IH, Pos2Z.inj_succ, Z.pow_succ_r by lia.
    lia.
Qed.

Lemma binary_normalize_shift z e k szero :
  0 <= k ->
  binary_normalize prec emax (z * 2 ^ k) (e - k) szero
  = binary_normalize prec emax z e szero.
Proof.
  intros Hk. destruct k as [|k|k]; try lia.
  - rewrite Z.mul_1_r, Z.sub_0_r. reflexivity.
  - destruct z as [|m|m].
    + reflexivity.
    + rewrite <- iter_xO_pow. simpl. apply binary_round_shift.
    + replace (Z.neg m * 2 ^ Z.pos k) with (Z.neg (Pos.iter xO m k))
        by (rewrite <- Pos2Z.opp_pos, iter_xO_pow; lia).
      simpl. apply binary_round_shift.
Qed.

Lemma shl_align_value mx ex ez :
  ez <= ex ->
  Z.pos (fst (shl_align mx ex ez)) = Z.pos mx * 2 ^ (ex - ez).
Proof.
  intros H. unfold shl_align.
  destruct (ez - ex) as [|d|d] eqn:Hd; try lia; simpl.
  - replace (ex - ez) with 0 by lia. rewrite Z.pow_0_r. lia.
  - rewrite iter_xO_pow. replace (ex - ez) with (Z.pos d) by lia. reflexivity.
Qed.

End Rounding.

Lemma digits2_pos_bounds p :
  2 ^ (Z.pos (digits2_pos p) - 1) <= Z.pos p < 2 ^ Z.pos (digits2_pos p).
Proof.
  induction p as [p IH|p IH|]; cbn [digits2_pos].
  - rewrite Pos2Z.inj_succ, (Pos2Z.inj_xI p).
    replace (Z.succ (Z.pos (digits2_pos p)) - 1)
      with (Z.succ (Z.pos (digits2_pos p) - 1)) by lia.
    rewrite !Z.pow_succ_r by lia. lia.
  - rewrite Pos2Z.inj_succ, (Pos2Z.inj_xO p).
    replace (Z.succ (Z.pos (digits2_pos p)) - 1)
      with (Z.succ (Z.pos (digits2_pos p) - 1)) by lia.
    rewrite !Z.pow_succ_r by lia. lia.
  - simpl. lia.
Qed.

Lemma digits2_pos_iter_xO m k :
  Z.pos (digits2_pos (Pos.iter xO m k)) = Z.pos (digits2_pos m) + Z.pos k.
Proof.
  induction k as [|k IH] using Pos.peano_ind.
  - simpl. lia.
  - rewrite Pos.iter_succ. cbn [digits2_pos]. rewrite Pos2Z.inj_succ, IH. lia.
Qed.

(** A significand of 24 bits is not rounded. *)
Lemma binary_round_aux_canonical s m e :
  Z.pos (digits2_pos m) = 24 -> -149 <= e <= 104 ->
  binary_round_aux 24 128 s (Z.pos m) e loc_Exact = S754_finite s m e.
Proof.
  intros Hd He.
  assert (Hz : fexp 24 128 (Z.pos (digits2_pos m) + e) - e = 0)
    by (unfold fexp, emin; lia).
  unfold binary_round_aux, shr_fexp, Zdigits2. rewrite Hz.
  unfold shr at 1.
  cbn [shr_record_of_loc shr_m shr_r shr_s loc_of_shr_record round_nearest_even].
  rewrite Hz. unfold shr. cbn [shr_record_of_loc shr_m].
  destruct (Z.leb_spec e (128 - 24)); [reflexivity | lia].
Qed.

Lemma small_digits p :
  Z.pos p < 2 ^ 24 -> Z.pos (digits2_pos p) <= 24.
Proof.
  intros Hp. pose proof (digits2_pos_bounds p) as [Hlo _].
  destruct (Z.le_gt_cases (Z.pos (digits2_pos p)) 24) as [H|H]; [exact H|].
  exfalso.
  assert (2 ^ 24 <= 2 ^ (Z.pos (digits2_pos p) - 1))
    by (apply Z.pow_le_mono_r; lia).
  lia.
Qed.

Lemma small_mantissa_digits p :
  Z.pos p < 2 ^ 24 -> Z.pos (digits2_pos (F32.small_mantissa p)) = 24.
Proof.
  intros Hp. pose proof (small_digits p Hp) as Hd.
  unfold F32.small_mantissa, F32.small_exponent, shl_align.
  destruct (Z.pos (digits2_pos p) - 24 - 0) as [|d|d] eqn:Hdd; try lia;
    cbn [fst]; rewrite ?digits2_pos_iter_xO; lia.
Qed.

Lemma small_mantissa_value p :
  Z.pos p < 2 ^ 24 ->
  Z.pos (F32.small_mantissa p) = Z.pos p * 2 ^ (- F32.small_exponent p).
Proof.
  intros Hp. pose proof (small_digits p Hp) as Hd.
  unfold F32.small_mantissa. rewrite shl_align_value.
  - rewrite Z.sub_0_l. reflexivity.
  - unfold F32.small_exponent. lia.
Qed.

(** The float of a positive integer below 2^24. *)
Lemma binary_round_small s p :
  Z.pos p < 2 ^ 24 ->
  binary_round 24 128 s p 0
  = S754_finite s (F32.small_mantissa p) (F32.small_exponent p).
Proof.
  intros Hp. pose proof (small_digits p Hp) as Hd.
  pose proof (small_mantissa_digits p Hp) as Hm.
  unfold binary_round.
  assert (Hf : fexp 24 128 (Z.pos (digits2_pos p) + 0) = F32.small_exponent p)
    by (unfold fexp, emin, F32.small_exponent; lia).
  rewrite Hf. fold (F32.small_mantissa p).
  assert (He : snd (shl_align p 0 (F32.small_exponent p)) = F32.small_exponent p).
  { unfold shl_align, F32.small_exponent.
    destruct (Z.pos (digits2_pos p) - 24 - 0) as [|d|d] eqn:Hdd; try lia;
      cbn [snd]; lia. }
  destruct (shl_align p 0 (F32.small_exponent p)) as [mz ez] eqn:Hsh.
  unfold F32.small_mantissa in *. rewrite Hsh in *. cbn [fst snd] in *. subst ez.
  apply binary_round_aux_canonical; [exact Hm|].
  unfold F32.small_exponent. lia.
Qed.

Lemma of_Z_small n :
  Z.abs n < 2 ^ 24 -> n <> 0 ->
  F32.of_Z n = S754_finite (n <? 0) (F32.small_mantissa (Z.to_pos (Z.abs n)))
                 (F32.small_exponent (Z.to_pos (Z.abs n))).
Proof.
  intros Hn Hz. destruct n as [|p|p]; [congruence| |];
    apply binary_round_small; exact Hn.
Qed.

(** Below 2^24 the float of an integer holds that integer. *)
Lemma of_Z_holds_integer n : Z.abs n < 2 ^ 24 -> F32.holds_integer (F32.of_Z n) n.
Proof.
  intros Hn. destruct (Z.eq_dec n 0) as [->|Hz].
  - unfold F32.holds_integer. simpl. lia.
  - rewrite of_Z_small by assumption.
    unfold F32.holds_integer, F32.exact.
    assert (Hp : Z.pos (Z.to_pos (Z.abs n)) < 2 ^ 24) by lia.
    pose proof (small_digits _ Hp) as Hd.
    split; [unfold F32.small_exponent; lia|].
    rewrite (small_mantissa_value _ Hp).
    destruct n as [|p|p]; [congruence| |].
    + reflexivity.
    + change (Z.neg p <? 0) with true. cbn [cond_Zopp].
      symmetry. apply (Z.mul_opp_l (Z.pos p)).
Qed.

(** The single-precision sum of two integers below 2^24 is the float of
    their sum. *)
Lemma add_of_Z n c :
  Z.abs n < 2 ^ 24 -> Z.abs c < 2 ^ 24 ->
  F32.add (F32.of_Z n) (F32.of_Z c) = F32.of_Z (n + c).
Proof.
  intros Hn Hc.
  destruct (Z.eq_dec n 0) as [->|Hn0]; destruct (Z.eq_dec c 0) as [->|Hc0].
  - reflexivity.
  - rewrite Z.add_0_l. rewrite (of_Z_small c) by assumption. reflexivity.
  - rewrite Z.add_0_r. rewrite (of_Z_small n) by assumption. reflexivity.
  - pose proof (of_Z_holds_integer n Hn) as Hvn.
    pose proof (of_Z_holds_integer c Hc) as Hvc.
    rewrite (of_Z_small n), (of_Z_small c) in * by assumption.
    unfold F32.holds_integer, F32.exact in Hvn, Hvc.
    destruct Hvn as [Hen Hvn]. destruct Hvc as [Hec Hvc].
    set (sn := n <? 0) in *. set (sc := c <? 0) in *.
    set (mn := F32.small_mantissa (Z.to_pos (Z.abs n))) in *.
    set (en := F32.small_exponent (Z.to_pos (Z.abs n))) in *.
    set (mc := F32.small_mantissa (Z.to_pos (Z.abs c))) in *.
    set (ec := F32.small_exponent (Z.to_pos (Z.abs c))) in *.
    unfold F32.add, SFadd.
    set (ez := Z.min en ec).
    assert (Hsum :
      cond_Zopp sn (Z.pos (fst (shl_align mn en ez)))
      + cond_Zopp sc (Z.pos (fst (shl_align mc ec ez)))
      = (n + c) * 2 ^ (- ez)).
    { rewrite !shl_align_value by (unfold ez; lia).
      assert (Hs : forall (s : bool) u v, cond_Zopp s (u * v) = cond_Zopp s u * v)
        by (intros [] u v; simpl; lia).
      rewrite !Hs, Hvn, Hvc.
      rewrite <- !Z.mul_assoc, <- !Z.pow_add_r by (unfold ez; lia).
      replace (- en + (en - ez)) with (- ez) by lia.
      replace (- ec + (ec - ez)) with (- ez) by lia. lia. }
    rewrite Hsum. unfold F32.of_Z.
    rewrite <- (binary_normalize_shift F32.prec F32.emax (n + c) 0 (- ez) false)
      by (unfold ez; lia).
    f_equal. lia.
Qed.

(** The float of a positive integer below 2^24 scaled by a power of two,
    within the normal range. *)
Lemma binary_round_small_at s p e0 :
  Z.pos p < 2 ^ 24 ->
  -149 <= F32.small_exponent p + e0 <= 104 ->
  binary_round 24 128 s p e0
  = S754_finite s (F32.small_mantissa p) (F32.small_exponent p + e0).
Proof.
  intros Hp He0. pose proof (small_digits p Hp) as Hd.
  pose proof (small_mantissa_digits p Hp) as Hm.
  unfold binary_round.
  assert (Hf : fexp 24 128 (Z.pos (digits2_pos p) + e0) = F32.small_exponent p + e0)
    by (unfold fexp, emin, F32.small_exponent in *; lia).
  rewrite Hf.
  assert (Hsh : shl_align p e0 (F32.small_exponent p + e0)
                = (F32.small_mantissa p, F32.small_exponent p + e0)).
  { unfold F32.small_mantissa, shl_align.
    replace (F32.small_exponent p + e0 - e0) with (F32.small_exponent p) by lia.
    replace (F32.small_exponent p - 0) with (F32.small_exponent p) by lia.
    unfold F32.small_exponent in *.
    destruct (Z.pos (digits2_pos p) - 24) as [|d|d] eqn:Hdd; try lia;
      cbn [fst]; f_equal; lia. }
  rewrite Hsh.
  apply binary_round_aux_canonical; assumption.
Qed.

Lemma ticks_small j :
  0 < j < 2 ^ 24 ->
  ticks j = S754_finite false (F32.small_mantissa (Z.to_pos j))
              (F32.small_exponent (Z.to_pos j) - 26).
Proof.
  intros Hj. destruct j as [|p|p]; try lia.
  unfold ticks, binary_normalize. change (Z.to_pos (Z.pos p)) with p.
  pose proof (small_digits p (proj2 Hj)) as Hd.
  apply (binary_round_small_at false p (-26)).
  - exact (proj2 Hj).
  - unfold F32.small_exponent. lia.
Qed.

(** Below 2^24 steps, one more step of 2^-26 is added exactly. *)
Lemma ticks_add j :
  0 <= j < 2 ^ 24 -> F32.add (ticks j) (ticks 1) = ticks (j + 1).
Proof.
  intros Hj. destruct (Z.eq_dec j 0) as [->|Hj0]; [reflexivity|].
  assert (Hp : Z.pos (Z.to_pos j) < 2 ^ 24) by lia.
  pose proof (small_digits _ Hp) as Hd.
  pose proof (small_mantissa_value _ Hp) as Hv.
  rewrite (ticks_small j) by lia.
  change (ticks 1) with (S754_finite false 8388608 (-49)).
  set (m := F32.small_mantissa (Z.to_pos j)) in *.
  assert (He : F32.small_exponent (Z.to_pos j) <= 0)
    by (unfold F32.small_exponent; lia).
  set (e := F32.small_exponent (Z.to_pos j)) in *.
  unfold F32.add, SFadd.
  set (ez := Z.min (e - 26) (-49)).
  assert (Hsum :
    cond_Zopp false (Z.pos (fst (shl_align m (e - 26) ez)))
    + cond_Zopp false (Z.pos (fst (shl_align 8388608 (-49) ez)))
    = (j + 1) * 2 ^ (- 26 - ez)).
  { rewrite !shl_align_value by (unfold ez; lia).
    cbn [cond_Zopp]. rewrite Hv, Z2Pos.id by lia.
    rewrite <- Z.mul_assoc, <- Z.pow_add_r by (unfold ez; lia).
    replace (- e + (e - 26 - ez)) with (- 26 - ez) by lia.
    change 8388608 with (2 ^ 23).
    rewrite <- Z.pow_add_r by (unfold ez; lia).
    replace (23 + (-49 - ez)) with (- 26 - ez) by lia. lia. }
  rewrite Hsum. unfold ticks.
  rewrite <- (binary_normalize_shift F32.prec F32.emax (j + 1) (-26) (- 26 - ez) false)
    by (unfold ez; lia).
  f_equal. lia.
Qed.

(** Up to 2^24 steps of 2^-26 stay below one. *)
Lemma ticks_lt_one j : 0 <= j <= 2 ^ 24 -> F32.ltb (ticks j) F32.one = true.
Proof.
  intros Hj.
  destruct (Z.eq_dec j 0) as [->|Hj0]; [reflexivity|].
  destruct (Z.eq_dec j (2 ^ 24)) as [->|Hj1]; [reflexivity|].
  rewrite (ticks_small j) by lia.
  assert (Hp : Z.pos (Z.to_pos j) < 2 ^ 24) by lia.
  pose proof (small_digits _ Hp) as Hd.
  change F32.one with (S754_finite false 8388608 (-23)).
  unfold F32.ltb, SFltb, SFcompare.
  assert (Hlt : F32.small_exponent (Z.to_pos j) - 26 < -23)
    by (unfold F32.small_exponent; lia).
  apply Z.compare_lt_iff in Hlt. rewrite Hlt. reflexivity.
Qed.

(** A significand shifted left by 23 bits is shifted back exactly. *)
Lemma shr_exact k : forall m,
  Nat.iter k shr_1
    {| shr_m := Z.pos (Nat.iter k xO m); shr_r := false; shr_s := false |} =
  {| shr_m := Z.pos m; shr_r := false; shr_s := false |}.
Proof.
  induction k as [|k IH]; intros m.
  - reflexivity.
  - rewrite Nat.iter_succ_r. cbn [Nat.iter].
    change (shr_1 {| shr_m := Z.pos (Nat.iter k xO m)~0;
                     shr_r := false; shr_s := false |})
      with {| shr_m := Z.pos (Nat.iter k xO m); shr_r := false; shr_s := false |}.
    apply IH.
Qed.

Lemma binary_round_aux_scaled s m e :
  Z.pos (digits2_pos m) = 24 -> -149 <= e <= 104 ->
  binary_round_aux 24 128 s (Z.pos (8388608 * m)) (-23 + e) loc_Exact
  = S754_finite s m e.
Proof.
  intros Hd He.
  change (8388608 * m)%positive with (Pos.iter xO m 23).
  assert (Hz : fexp 24 128 (Z.pos (digits2_pos (Pos.iter xO m 23)) + (-23 + e))
               - (-23 + e) = 23).
  { rewrite digits2_pos_iter_xO. unfold fexp, emin. lia. }
  unfold binary_round_aux, shr_fexp, Zdigits2. rewrite Hz.
  unfold shr at 1. rewrite iter_pos_nat.
  cbn [shr_record_of_loc].
  change (Pos.iter xO m 23) with (Nat.iter 23 xO m).
  change (Pos.to_nat 23) with 23%nat.
  rewrite shr_exact.
  cbn [shr_m shr_r shr_s loc_of_shr_record round_nearest_even].
  replace (-23 + e + 23) with e by lia.
  assert (Hz' : fexp 24 128 (Z.pos (digits2_pos m) + e) - e = 0)
    by (unfold fexp, emin; lia).
  rewrite Hz'. unfold shr. cbn [shr_record_of_loc shr_m].
  destruct (Z.leb_spec e (128 - 24)); [reflexivity | lia].
Qed.

(** The products [1.0f * c] and [-1.0f * c] for a nonzero integer [c]
    below 2^24. *)
Lemma mul_one_of_Z c :
  Z.abs c < 2 ^ 24 -> c <> 0 ->
  F32.mul F32.one (F32.of_Z c) = F32.of_Z c /\
  F32.mul F32.minus_one (F32.of_Z c) = F32.of_Z (- c).
Proof.
  intros Hc Hc0.
  assert (Hp : Z.pos (Z.to_pos (Z.abs c)) < 2 ^ 24) by lia.
  pose proof (small_mantissa_digits _ Hp) as Hd.
  pose proof (small_digits _ Hp) as Hdp.
  rewrite (of_Z_small c), (of_Z_small (- c)) by lia.
  rewrite Z.abs_opp.
  set (m := F32.small_mantissa _) in *.
  assert (He : -149 <= F32.small_exponent (Z.to_pos (Z.abs c)) <= 104)
    by (unfold F32.small_exponent; lia).
  set (e := F32.small_exponent _) in *.
  split.
  - change (F32.mul F32.one (S754_finite (c <? 0) m e))
      with (binary_round_aux 24 128 (c <? 0) (Z.pos (8388608 * m)) (-23 + e)
              loc_Exact).
    apply binary_round_aux_scaled; assumption.
  - change (F32.mul F32.minus_one (S754_finite (c <? 0) m e))
      with (binary_round_aux 24 128 (negb (c <? 0)) (Z.pos (8388608 * m))
              (-23 + e) loc_Exact).
    rewrite binary_round_aux_scaled by assumption.
    f_equal. destruct c; try congruence; reflexivity.
Qed.

(** ** Single-precision sums and quotients of non-negative floats *)

(** The exponent of the last digit, for single precision. *)
Lemma fexp32 e : fexp 24 128 e = Z.max (e - 24) (-149).
Proof. reflexivity. Qed.

Lemma shr_1_half m r s :
  0 <= m -> shr_m (shr_1 {| shr_m := m; shr_r := r; shr_s := s |}) = m / 2.
Proof.
  intros Hm. destruct m as [|p|p]; [reflexivity| |lia].
  destruct p as [p|p|]; cbn [shr_1 shr_m].
  - rewrite (Pos2Z.inj_xI p). apply Z.div_unique with (r := 1); lia.
  - rewrite (Pos2Z.inj_xO p). apply Z.div_unique with (r := 0); lia.
  - reflexivity.
Qed.

(** Shifting right divides the significand. *)
Lemma shr_iter n : forall rec,
  0 <= shr_m rec ->
  shr_m (Nat.iter n shr_1 rec) = shr_m rec / 2 ^ Z.of_nat n.
Proof.
  induction n as [|n IH]; intros rec Hm.
  - simpl. rewrite Z.div_1_r. reflexivity.
  - rewrite Nat.iter_succ_r. destruct rec as [m r s]. cbn [shr_m] in *.
    rewrite IH; rewrite shr_1_half by assumption.
    + rewrite Z.div_div by lia. rewrite Nat2Z.inj_succ, Z.pow_succ_r by lia.
      reflexivity.
    + apply Z.div_pos; lia.
Qed.

Lemma shr_iter_pos p rec :
  0 <= shr_m rec ->
  shr_m (iter_pos shr_1 p rec) = shr_m rec / 2 ^ Z.pos p.
Proof.
  intros H. rewrite iter_pos_nat, shr_iter by assumption.
  rewrite positive_nat_Z. reflexivity.
Qed.

Lemma shr_m_of_loc m l : shr_m (shr_record_of_loc m l) = m.
Proof. destruct l as [|[]]; reflexivity. Qed.

Lemma round_nearest_even_bounds m l :
  m <= round_nearest_even m l <= m + 1.
Proof.
  destruct l as [|[]]; simpl; try lia.
  destruct (Z.even m); lia.
Qed.

(** Rounding a significand that is not too short, in closed form. *)
Lemma binary_round_aux_rounded s M e l0 :
  e <= fexp 24 128 (Z.pos (digits2_pos M) + e) ->
  exists l, binary_round_aux 24 128 s (Z.pos M) e l0 = F32.rounded s M e l.
Proof.
  intros He. unfold binary_round_aux, F32.rounded, shr_fexp.
  cbn [Zdigits2].
  set (t := fexp 24 128 (Z.pos (digits2_pos M) + e)) in *.
  assert (H1 : exists l,
            shr (shr_record_of_loc (Z.pos M) l0) e (t - e)
            = (shr_record_of_loc (Z.pos M / 2 ^ (t - e)) l, t)).
  { unfold shr. destruct (t - e) as [|p|p] eqn:Hp; try lia.
    - exists l0. rewrite Z.pow_0_r, Z.div_1_r. f_equal. lia.
    - exists (loc_of_shr_record (iter_pos shr_1 p (shr_record_of_loc (Z.pos M) l0))).
      f_equal; [|lia].
      pose proof (shr_iter_pos p (shr_record_of_loc (Z.pos M) l0)) as Hm.
      rewrite shr_m_of_loc in Hm. specialize (Hm ltac:(lia)).
      destruct (iter_pos shr_1 p (shr_record_of_loc (Z.pos M) l0)) as [m r s0].
      cbn [shr_m] in Hm. subst m. destruct r, s0; reflexivity. }
  destruct H1 as [l H1]. exists l. rewrite H1.
  assert (Hl : loc_of_shr_record (shr_record_of_loc (Z.pos M / 2 ^ (t - e)) l) = l)
    by (destruct l as [|[]]; reflexivity).
  rewrite shr_m_of_loc, Hl.
  set (m_r := round_nearest_even (Z.pos M / 2 ^ (t - e)) l).
  assert (Hmr : 0 <= m_r).
  { pose proof (round_nearest_even_bounds (Z.pos M / 2 ^ (t - e)) l).
    assert (0 <= Z.pos M / 2 ^ (t - e)) by (apply Z.div_pos; lia). unfold m_r. lia. }
  unfold shr.
  destruct (fexp 24 128 (Zdigits2 m_r + t) - t) as [|p|p] eqn:Hp.
  - cbn [shr_record_of_loc shr_m]. change (0 <? 0) with false. cbn iota.
    change (128 - 24) with 104. reflexivity.
  - rewrite shr_iter_pos by (cbn [shr_record_of_loc shr_m]; exact Hmr).
    cbn [shr_record_of_loc shr_m]. change (0 <? Z.pos p) with true. cbn iota.
    change (128 - 24) with 104. reflexivity.
  - cbn [shr_record_of_loc shr_m]. change (0 <? Z.neg p) with false. cbn iota.
    change (128 - 24) with 104. reflexivity.
Qed.

(** The number of binary digits. *)
Lemma Zdigits2_bounds a :
  0 < a -> 2 ^ (Zdigits2 a - 1) <= a < 2 ^ Zdigits2 a.
Proof.
  intros Ha. destruct a as [|p|p]; try lia. apply digits2_pos_bounds.
Qed.

Lemma Zdigits2_pos a : 0 < a -> 0 < Zdigits2 a.
Proof. intros Ha. destruct a as [|p|p]; try lia. simpl. lia. Qed.

Lemma Zdigits2_unique a k :
  0 < a -> 2 ^ (k - 1) <= a < 2 ^ k -> Zdigits2 a = k.
Proof.
  intros Ha [Hlo Hhi].
  pose proof (Zdigits2_bounds a Ha) as [Hlo' Hhi'].
  pose proof (Zdigits2_pos a Ha) as Hd.
  assert (Hk : 0 < k).
  { destruct (Z.lt_ge_cases 0 k) as [H|H]; [exact H|].
    exfalso. destruct (Z.eq_dec k 0) as [->|Hk0].
    - simpl in Hhi. lia.
    - rewrite Z.pow_neg_r in Hhi by lia. lia. }
  assert (k - 1 < Zdigits2 a).
  { apply (Z.pow_lt_mono_r_iff 2); lia. }
  assert (Zdigits2 a - 1 < k).
  { apply (Z.pow_lt_mono_r_iff 2); lia. }
  lia.
Qed.

Lemma Zdigits2_mono a b : 0 < a -> a <= b -> Zdigits2 a <= Zdigits2 b.
Proof.
  intros Ha Hab.
  pose proof (Zdigits2_bounds a Ha) as [Hlo _].
  pose proof (Zdigits2_bounds b ltac:(lia)) as [_ Hhi].
  pose proof (Zdigits2_pos b ltac:(lia)).
  assert (Zdigits2 a - 1 < Zdigits2 b).
  { apply (Z.pow_lt_mono_r_iff 2); lia. }
  lia.
Qed.

Lemma Zdigits2_mul_pow a n :
  0 < a -> 0 <= n -> Zdigits2 (a * 2 ^ n) = Zdigits2 a + n.
Proof.
  intros Ha Hn.
  pose proof (Zdigits2_bounds a Ha) as [Hlo Hhi].
  pose proof (Zdigits2_pos a Ha) as Hd.
  assert (Hp : 0 < 2 ^ n) by (apply Z.pow_pos_nonneg; lia).
  apply Zdigits2_unique; [nia|].
  replace (Zdigits2 a + n - 1) with (Zdigits2 a - 1 + n) by lia.
  rewrite !Z.pow_add_r by lia. split; nia.
Qed.

Lemma Zdigits2_div_pow a n :
  0 < a -> 0 <= n < Zdigits2 a -> Zdigits2 (a / 2 ^ n) = Zdigits2 a - n.
Proof.
  intros Ha Hn.
  pose proof (Zdigits2_bounds a Ha) as [Hlo Hhi].
  assert (Hp : 0 < 2 ^ n) by (apply Z.pow_pos_nonneg; lia).
  assert (H1 : 2 ^ (Zdigits2 a - 1) = 2 ^ (Zdigits2 a - n - 1) * 2 ^ n).
  { rewrite <- Z.pow_add_r by lia. f_equal. lia. }
  assert (H2 : 2 ^ Zdigits2 a = 2 ^ (Zdigits2 a - n) * 2 ^ n).
  { rewrite <- Z.pow_add_r by lia. f_equal. lia. }
  assert (Hq : 2 ^ (Zdigits2 a - n - 1) <= a / 2 ^ n).
  { apply Z.div_le_lower_bound; lia. }
  assert (Hq' : a / 2 ^ n < 2 ^ (Zdigits2 a - n)).
  { apply Z.div_lt_upper_bound; lia. }
  assert (0 < 2 ^ (Zdigits2 a - n - 1)) by (apply Z.pow_pos_nonneg; lia).
  apply Zdigits2_unique; [lia|]. split; [exact Hq | exact Hq'].
Qed.

(** Facts shared by the lemmas on the rounded value below. *)
Lemma rounded_parts (M : positive) (e : Z) (l : location) :
  let t := fexp 24 128 (Z.pos (digits2_pos M) + e) in
  let m_r := round_nearest_even (Z.pos M / 2 ^ (t - e)) l in
  let sh2 := fexp 24 128 (Zdigits2 m_r + t) - t in
  e <= t ->
  0 <= Z.pos M / 2 ^ (t - e) <= m_r /\
  (-149 < t -> Zdigits2 (Z.pos M / 2 ^ (t - e)) = 24) /\
  (0 < m_r -> 0 < sh2 -> sh2 = Zdigits2 m_r - 24 /\ 0 < m_r / 2 ^ sh2 /\
                         Zdigits2 (m_r / 2 ^ sh2) = 24).
Proof.
  intros t m_r sh2 He.
  assert (Ht : -149 <= t) by (unfold t; rewrite fexp32; lia).
  assert (Hmt : 0 <= Z.pos M / 2 ^ (t - e)) by (apply Z.div_pos; lia).
  pose proof (round_nearest_even_bounds (Z.pos M / 2 ^ (t - e)) l) as Hr.
  fold m_r in Hr.
  split; [lia|]. split.
  - intros Hn.
    assert (Hte : t - e = Zdigits2 (Z.pos M) - 24)
      by (unfold t in *; rewrite fexp32 in *; simpl Zdigits2; lia).
    rewrite Hte. rewrite Zdigits2_div_pow; [lia|lia|].
    pose proof (Zdigits2_pos (Z.pos M) ltac:(lia)). lia.
  - intros Hpos Hsh.
    assert (Hs : sh2 = Zdigits2 m_r - 24)
      by (unfold sh2 in *; rewrite fexp32 in *; lia).
    split; [exact Hs|].
    pose proof (Zdigits2_bounds m_r Hpos) as [Hlo _].
    assert (Hd : Zdigits2 (m_r / 2 ^ sh2) = 24).
    { rewrite Zdigits2_div_pow; lia. }
    split; [|exact Hd].
    destruct (m_r / 2 ^ sh2) as [|q|q] eqn:Hq; simpl in Hd; try lia.
    assert (0 <= m_r / 2 ^ sh2) by (apply Z.div_pos; [lia|apply Z.pow_pos_nonneg; lia]).
    lia.
Qed.

(** A finite rounded value is in canonical form. *)
Lemma rounded_canonical s M e l m e2 :
  e <= fexp 24 128 (Z.pos (digits2_pos M) + e) ->
  F32.rounded s M e l = S754_finite s m e2 -> F32.canonical m e2.
Proof.
  intros He. unfold F32.rounded.
  pose proof (rounded_parts M e l He) as (Hmt & Hnorm & Hsh).
  set (t := fexp 24 128 (Z.pos (digits2_pos M) + e)) in *.
  set (m_r := round_nearest_even (Z.pos M / 2 ^ (t - e)) l) in *.
  set (sh2 := fexp 24 128 (Zdigits2 m_r + t) - t) in *.
  assert (Ht : -149 <= t) by (unfold t; rewrite fexp32; lia).
  destruct (Z.ltb_spec 0 sh2) as [Hpos|Hneg].
  - destruct (m_r / 2 ^ sh2) as [|q|q] eqn:Hq; try discriminate.
    destruct (t + sh2 <=? 104); try discriminate.
    intros H. injection H as <- <-.
    assert (Hmr : 0 < m_r).
    { destruct (Z.lt_ge_cases 0 m_r) as [H|H]; [exact H|].
      exfalso. assert (m_r = 0) by lia.
      rewrite H0 in Hq. rewrite Z.div_0_l in Hq; [discriminate|].
      assert (0 < 2 ^ sh2) by (apply Z.pow_pos_nonneg; lia). lia. }
    destruct (Hsh Hmr Hpos) as (Hs & _ & Hd).
    simpl in Hd. unfold F32.canonical. rewrite Hd, fexp32.
    unfold sh2 in Hs |- *. rewrite fexp32 in *. lia.
  - destruct m_r as [|q|q] eqn:Hq; try discriminate.
    destruct (t <=? 104); try discriminate.
    intros H. injection H as <- <-.
    unfold F32.canonical. change (Z.pos (digits2_pos q)) with (Zdigits2 (Z.pos q)).
    unfold sh2 in Hneg. rewrite fexp32 in *.
    destruct (Z.eq_dec t (-149)) as [Heq|Hne]; [lia|].
    assert (Hd := Hnorm ltac:(lia)).
    assert (Zdigits2 (Z.pos M / 2 ^ (t - e)) <= Zdigits2 (Z.pos q)).
    { apply Zdigits2_mono; [|lia].
      destruct (Z.pos M / 2 ^ (t - e)) as [|u|u]; simpl in Hd; lia. }
    lia.
Qed.

(** Rounding does not go below a canonical float that the exact value
    is not below. *)
Lemma rounded_lower_bound M e l mx ex :
  e <= fexp 24 128 (Z.pos (digits2_pos M) + e) ->
  F32.canonical mx ex -> e <= ex ->
  Z.pos mx * 2 ^ (ex - e) <= Z.pos M ->
  SFleb (S754_finite false mx ex) (F32.rounded false M e l) = true.
Proof.
  intros He Hcan Hex Hle. unfold F32.rounded.
  pose proof (rounded_parts M e l He) as (Hmt & Hnorm & Hsh).
  set (t := fexp 24 128 (Z.pos (digits2_pos M) + e)) in *.
  set (m_r := round_nearest_even (Z.pos M / 2 ^ (t - e)) l) in *.
  set (sh2 := fexp 24 128 (Zdigits2 m_r + t) - t) in *.
  assert (Ht : -149 <= t) by (unfold t; rewrite fexp32; lia).
  (* the exponent of the result is at least that of x *)
  assert (Htx : ex <= t).
  { assert (Hdx : Zdigits2 (Z.pos mx * 2 ^ (ex - e)) = Zdigits2 (Z.pos mx) + (ex - e))
      by (apply Zdigits2_mul_pow; lia).
    assert (Hdm : Zdigits2 (Z.pos mx * 2 ^ (ex - e)) <= Zdigits2 (Z.pos M)).
    { apply Zdigits2_mono; [|exact Hle].
      assert (0 < 2 ^ (ex - e)) by (apply Z.pow_pos_nonneg; lia). nia. }
    unfold F32.canonical in Hcan. unfold t. rewrite fexp32 in *.
    simpl Zdigits2 in *. lia. }
  (* the truncated significand is at least that of x when the exponents agree *)
  assert (Hmx : t = ex -> Z.pos mx <= Z.pos M / 2 ^ (t - e)).
  { intros ->. apply Z.div_le_lower_bound; [apply Z.pow_pos_nonneg; lia|lia]. }
  assert (Hxe : -149 <= ex)
    by (unfold F32.canonical in Hcan; rewrite fexp32 in Hcan; lia).
  assert (Hmr : 0 < m_r).
  { destruct (Z.eq_dec t ex) as [Heq|Hne]; [specialize (Hmx Heq); lia|].
    assert (Hd := Hnorm ltac:(lia)).
    destruct (Z.pos M / 2 ^ (t - e)) as [|u|u]; simpl in Hd; lia. }
  destruct (Z.ltb_spec 0 sh2) as [Hpos|Hneg].
  - destruct (Hsh Hmr Hpos) as (_ & Hq & _).
    destruct (m_r / 2 ^ sh2) as [|q|q]; try lia.
    destruct (t + sh2 <=? 104); [|reflexivity].
    unfold SFleb, SFcompare.
    assert (Hc : (ex ?= t + sh2) = Lt) by (apply Z.compare_lt_iff; lia).
    rewrite Hc. reflexivity.
  - destruct m_r as [|q|q] eqn:Hq; try lia.
    destruct (t <=? 104); [|reflexivity].
    unfold SFleb, SFcompare.
    destruct (Z.compare_spec ex t) as [Heq|Hlt|Hgt]; try reflexivity; try lia.
    specialize (Hmx (eq_sym Heq)).
    assert (Hle' : (mx <= q)%positive) by lia.
    apply Pos.compare_le_iff in Hle'. rewrite Pos.compare_cont_spec.
    simpl. destruct (mx ?= q)%positive; try reflexivity. contradiction.
Qed.

Lemma shl_align_exponent mx ex ez :
  ez <= ex -> snd (shl_align mx ex ez) = ez.
Proof.
  intros H. unfold shl_align.
  destruct (ez - ex) as [|d|d] eqn:Hd; try lia; simpl; lia.
Qed.

Lemma shl_align_keeps mx ex ez :
  ex <= ez -> shl_align mx ex ez = (mx, ex).
Proof.
  intros H. unfold shl_align.
  destruct (ez - ex) as [|d|d] eqn:Hd; try lia; reflexivity.
Qed.

Lemma binary_round_rounded s M0 e0 :
  exists M e l,
    binary_round 24 128 s M0 e0 = F32.rounded s M e l
    /\ e <= fexp 24 128 (Z.pos (digits2_pos M) + e)
    /\ e <= e0 /\ Z.pos M = Z.pos M0 * 2 ^ (e0 - e).
Proof.
  unfold binary_round.
  set (f := fexp 24 128 (Z.pos (digits2_pos M0) + e0)).
  destruct (Z.le_gt_cases e0 f) as [Hle|Hgt].
  - rewrite shl_align_keeps by exact Hle.
    destruct (binary_round_aux_rounded s M0 e0 loc_Exact Hle) as [l Hl].
    exists M0, e0, l. split; [exact Hl|]. split; [exact Hle|]. split; [lia|].
    rewrite Z.sub_diag, Z.pow_0_r. lia.
  - pose proof (shl_align_value M0 e0 f ltac:(lia)) as Hv.
    pose proof (shl_align_exponent M0 e0 f ltac:(lia)) as He.
    destruct (shl_align M0 e0 f) as [M e]. cbn [fst snd] in Hv, He. subst e.
    assert (Hd : Z.pos (digits2_pos M) = Z.pos (digits2_pos M0) + (e0 - f)).
    { change (Zdigits2 (Z.pos M) = Zdigits2 (Z.pos M0) + (e0 - f)).
      rewrite Hv. apply Zdigits2_mul_pow; lia. }
    assert (Hf : f <= fexp 24 128 (Z.pos (digits2_pos M) + f)).
    { rewrite Hd. replace (Z.pos (digits2_pos M0) + (e0 - f) + f)
        with (Z.pos (digits2_pos M0) + e0) by lia. fold f. lia. }
    destruct (binary_round_aux_rounded s M f loc_Exact Hf) as [l Hl].
    exists M, f, l. split; [exact Hl|]. split; [exact Hf|]. split; [lia|exact Hv].
Qed.

Lemma rounded_shape s M e l :
  F32.rounded s M e l = S754_zero s \/ F32.rounded s M e l = S754_infinity s \/
  F32.rounded s M e l = S754_nan \/
  exists m e2, F32.rounded s M e l = S754_finite s m e2.
Proof.
  unfold F32.rounded.
  set (m2 := if 0 <? _ then _ else _). set (e2 := if 0 <? _ then _ else _).
  destruct m2 as [|q|q]; [left; reflexivity| |right; right; left; reflexivity].
  destruct (e2 <=? 104); [|right; left; reflexivity].
  right; right; right. exists q, e2. reflexivity.
Qed.

Lemma SFleb_refl_finite m e :
  SFleb (S754_finite false m e) (S754_finite false m e) = true.
Proof.
  unfold SFleb, SFcompare. rewrite Z.compare_refl, Pos.compare_cont_refl.
  reflexivity.
Qed.

Lemma canonical_of_valid s m e :
  valid_binary 24 128 (S754_finite s m e) = true -> F32.canonical m e.
Proof.
  unfold valid_binary, bounded, canonical_mantissa, F32.canonical.
  intros H. apply andb_prop in H. destruct H as [H _].
  apply Z.eqb_eq in H. exact H.
Qed.

(** Adding a non-negative float to a non-negative float gives a float that
    is not less. *)
Lemma add_nonneg x d :
  F32.nonneg x -> valid_binary 24 128 d = true ->
  SFleb (S754_zero false) d = true ->
  F32.nonneg (SFadd 24 128 x d) /\ SFleb x (SFadd 24 128 x d) = true.
Proof.
  intros Hx Hv Hd.
  destruct d as [sd|sd| |sd md ed]; try discriminate.
  - (* the increment is a zero *)
    destruct x as [sx|sx| |sx mx ex]; cbn in Hx; try contradiction.
    + subst sx. destruct sd; cbn; auto.
    + subst sx. cbn. auto.
    + destruct Hx as [-> Hx]. cbn [SFadd]. split; [cbn; auto|].
      apply SFleb_refl_finite.
  - (* the increment is infinite *)
    destruct sd; try discriminate.
    destruct x as [sx|sx| |sx mx ex]; cbn in Hx; try contradiction.
    + subst sx. cbn. auto.
    + subst sx. cbn. auto.
    + destruct Hx as [-> Hx]. cbn. auto.
  - (* the increment is finite *)
    destruct sd; try discriminate.
    apply canonical_of_valid in Hv.
    destruct x as [sx|sx| |sx mx ex]; cbn in Hx; try contradiction.
    + subst sx. cbn. auto.
    + subst sx. cbn. auto.
    + destruct Hx as [-> Hx].
      unfold SFadd. set (ez := Z.min ex ed).
      pose proof (shl_align_value mx ex ez ltac:(unfold ez; lia)) as H1.
      pose proof (shl_align_value md ed ez ltac:(unfold ez; lia)) as H2.
      cbn [cond_Zopp].
      set (m1 := fst (shl_align mx ex ez)) in *.
      set (m2 := fst (shl_align md ed ez)) in *.
      change (Z.pos m1 + Z.pos m2) with (Z.pos (m1 + m2)).
      cbn [binary_normalize].
      destruct (binary_round_rounded false (m1 + m2) ez)
        as (M & e & l & -> & He & Hez & HM).
      assert (Hlow : Z.pos mx * 2 ^ (ex - e) <= Z.pos M).
      { rewrite HM, Pos2Z.inj_add, H1.
        replace (ex - e) with ((ex - ez) + (ez - e)) by lia.
        rewrite Z.pow_add_r by (unfold ez in *; lia).
        assert (0 < 2 ^ (ez - e)) by (apply Z.pow_pos_nonneg; lia).
        nia. }
      pose proof (rounded_lower_bound M e l mx ex He Hx
                    ltac:(unfold ez in *; lia) Hlow) as Hle.
      split; [|exact Hle].
      destruct (rounded_shape false M e l) as [H|[H|[H|(m & e2 & H)]]];
        rewrite H in *; cbn; auto; try discriminate.
      split; [reflexivity|].
      apply (rounded_canonical false M e l m e2 He H).
Qed.

Lemma rounded_finite s M e l s' m e2 :
  F32.rounded s M e l = S754_finite s' m e2 -> s' = s /\ e2 <= 104.
Proof.
  unfold F32.rounded.
  set (m2 := if 0 <? _ then _ else _). set (e2' := if 0 <? _ then _ else _).
  destruct m2 as [|q|q]; try discriminate.
  destruct (Z.leb_spec e2' 104) as [Hle|Hgt]; try discriminate.
  intros Heq. injection Heq as <- <- <-. auto.
Qed.

Lemma rounded_sign s M e l :
  e <= fexp 24 128 (Z.pos (digits2_pos M) + e) ->
  match F32.rounded s M e l with
  | S754_zero s' | S754_infinity s' | S754_finite s' _ _ => s' = s
  | S754_nan => False
  end.
Proof.
  intros He. pose proof (rounded_parts M e l He) as (Hmt & _ & _).
  unfold F32.rounded.
  set (t := fexp 24 128 (Z.pos (digits2_pos M) + e)) in *.
  set (m_r := round_nearest_even (Z.pos M / 2 ^ (t - e)) l) in *.
  set (sh2 := fexp 24 128 (Zdigits2 m_r + t) - t) in *.
  assert (H2 : 0 <= (if 0 <? sh2 then m_r / 2 ^ sh2 else m_r)).
  { destruct (Z.ltb_spec 0 sh2); [|lia].
    apply Z.div_pos; [lia|apply Z.pow_pos_nonneg; lia]. }
  destruct (if 0 <? sh2 then m_r / 2 ^ sh2 else m_r) as [|q|q]; try lia.
  - reflexivity.
  - destruct (_ <=? 104); reflexivity.
Qed.

Lemma rounded_valid s M e l :
  e <= fexp 24 128 (Z.pos (digits2_pos M) + e) ->
  valid_binary 24 128 (F32.rounded s M e l) = true /\
  (s = false -> SFleb (S754_zero false) (F32.rounded s M e l) = true).
Proof.
  intros He. pose proof (rounded_sign s M e l He) as Hs.
  destruct (F32.rounded s M e l) as [s'|s'| |s' m e2] eqn:H; try contradiction;
    subst s'.
  - split; [reflexivity|]. intros ->. reflexivity.
  - split; [reflexivity|]. intros ->. reflexivity.
  - split; [|intros ->; reflexivity].
    pose proof (rounded_canonical s M e l m e2 He H) as Hc.
    apply rounded_finite in H. destruct H as [_ H].
    unfold valid_binary, bounded, canonical_mantissa.
    apply andb_true_intro. split.
    + apply Z.eqb_eq. exact Hc.
    + apply Z.leb_le. lia.
Qed.

Lemma shr_zero_sticky n : forall rec,
  shr_m rec = 0 ->
  shr_m (Nat.iter (S n) shr_1 rec) = 0 /\ shr_r (Nat.iter (S n) shr_1 rec) = false.
Proof.
  induction n as [|n IH]; intros [m r s] Hm; cbn [shr_m] in Hm; subst m.
  - split; reflexivity.
  - destruct (IH {| shr_m := 0; shr_r := r; shr_s := s |} eq_refl) as [H1 H2].
    change (Nat.iter (S (S n)) shr_1 {| shr_m := 0; shr_r := r; shr_s := s |})
      with (shr_1 (Nat.iter (S n) shr_1 {| shr_m := 0; shr_r := r; shr_s := s |})).
    destruct (Nat.iter (S n) shr_1 {| shr_m := 0; shr_r := r; shr_s := s |})
      as [m' r' s'].
    cbn [shr_m shr_r] in H1, H2. subst. split; reflexivity.
Qed.

(** A quotient that is zero at the smallest exponent rounds to zero or to
    the smallest positive float. *)
Lemma binary_round_aux_zero s e l :
  e <= -149 ->
  binary_round_aux 24 128 s 0 e l = S754_zero s \/
  binary_round_aux 24 128 s 0 e l = S754_finite s 1 (-149).
Proof.
  intros He. destruct (Z.eq_dec e (-149)) as [->|Hne].
  - destruct l as [|[]]; vm_compute; auto.
  - left. unfold binary_round_aux, shr_fexp. cbn [Zdigits2].
    rewrite fexp32.
    destruct (Z.max (0 + e - 24) (-149) - e) as [|p|p] eqn:Hp; try lia.
    unfold shr at 1. rewrite iter_pos_nat.
    destruct (Pos2Nat.is_succ p) as [n Hn]. rewrite Hn.
    destruct (shr_zero_sticky n (shr_record_of_loc 0 l) (shr_m_of_loc 0 l))
      as [H1 H2].
    destruct (Nat.iter (S n) shr_1 (shr_record_of_loc 0 l)) as [m' r' s'].
    cbn [shr_m shr_r] in H1, H2. subst m' r'.
    replace (e + Z.pos p) with (-149) by lia.
    destruct s'; reflexivity.
Qed.

Lemma binary_round_aux_valid s q e l :
  0 <= q -> e <= fexp 24 128 (Zdigits2 q + e) ->
  valid_binary 24 128 (binary_round_aux 24 128 s q e l) = true /\
  (s = false -> SFleb (S754_zero false) (binary_round_aux 24 128 s q e l) = true).
Proof.
  intros Hq He. destruct q as [|M|M]; try lia.
  - assert (He' : e <= -149) by (rewrite fexp32 in He; cbn [Zdigits2] in He; lia).
    destruct (binary_round_aux_zero s e l He') as [-> | ->].
    + split; [reflexivity|]. intros ->. reflexivity.
    + split; [reflexivity|]. intros ->. reflexivity.
  - cbn [Zdigits2] in He.
    destruct (binary_round_aux_rounded s M e l He) as [l' ->].
    apply rounded_valid. exact He.
Qed.

Lemma canonical_digits m e : F32.canonical m e -> Z.pos (digits2_pos m) <= 24 /\ -149 <= e.
Proof. unfold F32.canonical. rewrite fexp32. lia. Qed.

(** The quotient of two canonical significands is not too short. *)
Lemma div_core_valid mx ex my ey :
  F32.canonical mx ex -> F32.canonical my ey ->
  let '(q, e', _) := SFdiv_core_binary 24 128 (Z.pos mx) ex (Z.pos my) ey in
  0 <= q /\ e' <= fexp 24 128 (Zdigits2 q + e').
Proof.
  intros Hx Hy.
  apply canonical_digits in Hx. apply canonical_digits in Hy.
  unfold SFdiv_core_binary. cbn [Zdigits2].
  set (d1 := Z.pos (digits2_pos mx)) in *.
  set (d2 := Z.pos (digits2_pos my)) in *.
  set (e' := Z.min (fexp 24 128 (d1 + ex - (d2 + ey))) (ex - ey)).
  set (s := ex - ey - e').
  assert (Hs : 0 <= s) by (unfold s, e'; lia).
  set (m' := match s with Z.pos _ => Z.shiftl (Z.pos mx) s | 0 => Z.pos mx
             | Z.neg _ => 0 end).
  assert (Hm' : m' = Z.pos mx * 2 ^ s).
  { unfold m'. clearbody s. destruct s as [|p|p]; try lia.
    apply Z.shiftl_mul_pow2. lia. }
  destruct (Z.div_eucl m' (Z.pos my)) as [q r] eqn:Hdiv.
  assert (Hq : q = m' / Z.pos my) by (unfold Z.div; rewrite Hdiv; reflexivity).
  assert (Hp2 : 0 < 2 ^ s) by (apply Z.pow_pos_nonneg; lia).
  assert (Hq0 : 0 <= q) by (rewrite Hq; apply Z.div_pos; nia).
  split; [exact Hq0|].
  rewrite fexp32.
  destruct (Z.le_gt_cases e' (-149)) as [Hlo|Hhi]; [lia|].
  (* the quotient has at least 24 digits *)
  assert (He' : e' <= d1 + ex - (d2 + ey) - 24)
    by (unfold e' in *; rewrite fexp32 in *; lia).
  assert (Hs' : 24 - d1 + d2 <= s) by (unfold s; lia).
  pose proof (digits2_pos_bounds mx) as [Hx1 _]. fold d1 in Hx1.
  pose proof (digits2_pos_bounds my) as [_ Hy2]. fold d2 in Hy2.
  assert (Hbig : 2 ^ 23 * Z.pos my <= m').
  { rewrite Hm'.
    assert (H1 : 2 ^ (23 + d2) <= 2 ^ (d1 - 1 + s))
      by (apply Z.pow_le_mono_r; lia).
    rewrite !Z.pow_add_r in H1 by lia.
    assert (0 < 2 ^ 23) by lia.
    assert (0 < 2 ^ (d1 - 1)) by (apply Z.pow_pos_nonneg; lia).
    nia. }
  assert (Hq23 : 2 ^ 23 <= q).
  { rewrite Hq. apply Z.div_le_lower_bound; lia. }
  assert (Hd : 24 <= Zdigits2 q).
  { change 24 with (Zdigits2 (2 ^ 23)). apply Zdigits2_mono; lia. }
  lia.
Qed.

(** The single-precision quotient of two positive floats is a valid float
    that is not negative. *)
Lemma div_positive p t :
  F32.is_positive p = true -> F32.is_positive t = true ->
  valid_binary 24 128 (SFdiv 24 128 p t) = true /\
  SFleb (S754_zero false) (SFdiv 24 128 p t) = true.
Proof.
  intros Hp Ht.
  destruct p as [| | |[] mx ex]; try discriminate.
  destruct t as [| | |[] my ey]; try discriminate.
  cbn [F32.is_positive] in Hp, Ht.
  assert (Hx : F32.canonical mx ex)
    by (apply (canonical_of_valid false); exact Hp).
  assert (Hy : F32.canonical my ey)
    by (apply (canonical_of_valid false); exact Ht).
  pose proof (div_core_valid mx ex my ey Hx Hy) as H.
  unfold SFdiv.
  destruct (SFdiv_core_binary 24 128 (Z.pos mx) ex (Z.pos my) ey) as [[q e'] l].
  destruct H as [Hq He]. cbn [xorb].
  destruct (binary_round_aux_valid false q e' l Hq He) as [H1 H2].
  split; [exact H1|apply H2; reflexivity].
Qed.

(** ** Claims about the spin-up ramp and the step/direction input *)
Section RampClaims.

Context {D : Declarations}.

Lemma ramp_from_shift cfg x k :
  ramp_from cfg (F32.add x (ramp_increment cfg)) k = ramp_from cfg x (S k).
Proof.
  induction k as [|k IH]; simpl.
  - reflexivity.
  - rewrite IH. reflexivity.
Qed.

(** One round of the runner with the ramp handler, on answers of success. *)
Lemma ramp_round fuel x a i1 i2 s c cs :
  requested_state_ a = AXIS_STATE_UNDEFINED ->
  task_chain_ a = c :: cs ->
  quiet i1 -> quiet i2 ->
  run_control_loop_fuel (S fuel) spin_up_ramp_handler x a (i1 :: i2 :: s) =
  if F32.ltb (F32.add x (ramp_increment (config_ a))) F32.one
  then run_control_loop_fuel fuel spin_up_ramp_handler
         (F32.add x (ramp_increment (config_ a)))
         (add_logs (ramp_log (config_ a) x 1) a) s
  else Done (F32.add x (ramp_increment (config_ a)))
         (add_logs (ramp_log (config_ a) x 1) a) s.
Proof.
  intros Hreq Hc [Hok1 Hd1] [Hok2 Hd2].
  simpl. unfold bind at 1. unfold get at 1. rewrite Hreq. simpl.
  unfold bind at 1. unfold wait_for_current_meas, bind at 1, call.
  rewrite Hok1, Hd1. simpl.
  unfold bind at 1. unfold current_state, load. simpl. rewrite Hc. simpl.
  unfold bind at 1. unfold spin_up_ramp_handler, bind at 1, get at 1.
  unfold bind at 1, call. rewrite Hok2, Hd2. simpl.
  unfold ramp_increment.
  destruct (F32.ltb _ F32.one); reflexivity.
Qed.

Lemma add_logs_keeps es a :
  requested_state_ (add_logs es a) = requested_state_ a /\
  task_chain_ (add_logs es a) = task_chain_ a /\
  config_ (add_logs es a) = config_ a.
Proof.
  revert a. induction es as [|e es IH]; intros a; simpl; auto.
  destruct (IH (add_log e a)) as (H1 & H2 & H3). auto.
Qed.

Lemma ramp_log_snoc cfg n : forall x a,
  add_logs (ramp_log cfg (ramp_from cfg x n) 1) (add_logs (ramp_log cfg x n) a) =
  add_logs (ramp_log cfg x (S n)) a.
Proof.
  induction n as [|n IH]; intros x a.
  - reflexivity.
  - rewrite <- ramp_from_shift.
    change (add_logs (ramp_log cfg x (S n)) a)
      with (add_logs (ramp_log cfg (F32.add x (ramp_increment cfg)) n)
              (add_logs (ramp_log cfg x 1) a)).
    rewrite IH. reflexivity.
Qed.

(** [n] rounds during which [x] stays below one. *)
Lemma ramp_rounds n : forall fuel x a script tail c cs,
  requested_state_ a = AXIS_STATE_UNDEFINED ->
  task_chain_ a = c :: cs ->
  Forall quiet script ->
  length script = (2 * n)%nat ->
  (forall k, (0 < k <= n)%nat ->
     F32.ltb (ramp_from (config_ a) x k) F32.one = true) ->
  run_control_loop_fuel (n + fuel) spin_up_ramp_handler x a (script ++ tail) =
  run_control_loop_fuel fuel spin_up_ramp_handler
    (ramp_from (config_ a) x n) (add_logs (ramp_log (config_ a) x n) a) tail.
Proof.
  induction n as [|n IH]; intros fuel x a script tail c cs Hreq Hc Hq Hlen Hlt.
  - destruct script; [reflexivity | discriminate].
  - destruct script as [|i1 [|i2 script]]; try (simpl in Hlen; lia).
    inversion Hq as [|? ? Hq1 Hq']; subst.
    inversion Hq' as [|? ? Hq2 Hq'']; subst.
    change (S n + fuel)%nat with (S (n + fuel)).
    change ((i1 :: i2 :: script) ++ tail) with (i1 :: i2 :: (script ++ tail)).
    rewrite (ramp_round _ _ _ _ _ _ c cs Hreq Hc Hq1 Hq2).
    assert (H1 : F32.ltb (F32.add x (ramp_increment (config_ a))) F32.one = true)
      by (apply (Hlt 1%nat); lia).
    rewrite H1.
    destruct (add_logs_keeps (ramp_log (config_ a) x 1) a) as (K1 & K2 & K3).
    rewrite (IH fuel _ _ script tail c cs).
    + rewrite K3, ramp_from_shift. reflexivity.
    + rewrite K1. exact Hreq.
    + rewrite K2. exact Hc.
    + exact Hq''.
    + simpl in Hlen. lia.
    + intros k Hk. rewrite K3, ramp_from_shift. apply Hlt. lia.
Qed.

(** After [n] rounds during which [x] stays below one, and with no
    further answer, the ramp is waiting for the next measurement. *)
Lemma ramp_waits n a script c cs :
  requested_state_ a = AXIS_STATE_UNDEFINED ->
  task_chain_ a = c :: cs ->
  Forall quiet script ->
  length script = (2 * n)%nat ->
  (forall k, (0 < k <= n)%nat ->
     F32.ltb (ramp_x (config_ a) k) F32.one = true) ->
  run_control_loop spin_up_ramp_handler F32.zero a script =
  Starved (add_log ev_wait_current_meas
             (add_logs (ramp_log (config_ a) F32.zero n) a)).
Proof.
  intros Hreq Hc Hq Hlen Hlt.
  destruct (add_logs_keeps (ramp_log (config_ a) F32.zero n) a) as (K1 & K2 & K3).
  unfold run_control_loop. rewrite Hlen.
  replace (S (2 * n)) with (n + S n)%nat by lia.
  rewrite <- (app_nil_r script) at 1.
  rewrite (ramp_rounds n (S n) F32.zero a script [] c cs) by assumption.
  simpl. unfold bind at 1. unfold get at 1. rewrite K1, Hreq. reflexivity.
Qed.

(** With a positive measurement period and a positive ramp-up time, [x] is
    never negative and never decreases. *)
Lemma ramp_nondecreasing cfg :
  F32.is_positive current_meas_period = true ->
  F32.is_positive (ramp_up_time cfg) = true ->
  forall k, F32.nonneg (ramp_x cfg k) /\
            F32.leb (ramp_x cfg k) (ramp_x cfg (S k)) = true.
Proof.
  intros Hp Ht.
  destruct (div_positive _ _ Hp Ht) as [Hv Hd].
  induction k as [|k [IH _]].
  - split; [reflexivity|].
    apply (add_nonneg F32.zero _ eq_refl Hv Hd).
  - destruct (add_nonneg _ _ IH Hv Hd) as [Hn _].
    split; [exact Hn|].
    apply (add_nonneg _ _ Hn Hv Hd).
Qed.

(** C7, as amended.  In the open-loop ramp of the spin-up, [x] starts at 0
    and each iteration replaces it by the single-precision sum of [x] and
    the single-precision quotient of the measurement period by
    [ramp_up_time]; when both of these are positive finite floats, [x]
    never decreases.  That the ramp ends is not promised, within no number
    of iterations: provided that no request is pending (the task chain
    array not being empty), that every current measurement arrives in
    time, that every motor update succeeds and that no other context
    writes to the axis during these calls, the ramp is still running,
    waiting for the next measurement, after every number [n] of iterations
    up to which the updated [x] stayed below 1, and it ends in iteration
    [n + 1], with two calls logged per iteration, when that is the first
    iteration whose updated [x] is not below 1.
    When rounding keeps [x] below 1 for ever, there is no such iteration
    and under these conditions the ramp is still running after every
    number of iterations. *)
Theorem ramp_ends_when_x_reaches_one
    (a : Axis) (n : nat) (script rest : list Input) (i1 i2 : Input)
    (c : State_t) (cs : list State_t) :
  requested_state_ a = AXIS_STATE_UNDEFINED ->
  task_chain_ a = c :: cs ->
  Forall quiet script -> length script = (2 * n)%nat ->
  quiet i1 -> quiet i2 ->
  (forall k, (0 < k <= n)%nat -> F32.ltb (ramp_x (config_ a) k) F32.one = true) ->
  ramp_x (config_ a) 0 = F32.zero
  /\ (forall k, ramp_x (config_ a) (S k) =
                F32.add (ramp_x (config_ a) k)
                  (F32.div current_meas_period (ramp_up_time (config_ a))))
  /\ (F32.is_positive current_meas_period = true ->
      F32.is_positive (ramp_up_time (config_ a)) = true ->
      forall k, F32.leb (ramp_x (config_ a) k) (ramp_x (config_ a) (S k)) = true)
  /\ run_control_loop spin_up_ramp_handler F32.zero a script =
     Starved (add_log ev_wait_current_meas
                (add_logs (ramp_log (config_ a) F32.zero n) a))
  /\ (F32.ltb (ramp_x (config_ a) (S n)) F32.one = false ->
      run_control_loop spin_up_ramp_handler F32.zero a
        (script ++ i1 :: i2 :: rest) =
      Done (ramp_x (config_ a) (S n))
        (add_logs (ramp_log (config_ a) F32.zero (S n)) a) rest).
Proof.
  intros Hreq Hc Hq Hlen Hq1 Hq2 Hlt.
  destruct (add_logs_keeps (ramp_log (config_ a) F32.zero n) a) as (K1 & K2 & K3).
  split; [reflexivity|]. split; [reflexivity|]. split; [|split].
  - intros Hp Ht k. apply (ramp_nondecreasing (config_ a) Hp Ht k).
  - unfold run_control_loop. rewrite Hlen.
    replace (S (2 * n)) with (n + S n)%nat by lia.
    rewrite <- (app_nil_r script) at 1.
    rewrite (ramp_rounds n (S n) F32.zero a script [] c cs) by assumption.
    simpl. unfold bind at 1. unfold get at 1. rewrite K1, Hreq. reflexivity.
  - intros Hend. unfold run_control_loop.
    rewrite length_app, Hlen. simpl length.
    replace (S (2 * n + S (S (length rest))))
      with (n + S (S (S (n + length rest))))%nat by lia.
    rewrite (ramp_rounds n _ F32.zero a script (i1 :: i2 :: rest) c cs)
      by assumption.
    rewrite (ramp_round _ _ _ _ _ _ c cs) by (rewrite ?K1, ?K2; assumption).
    rewrite K3. fold (ramp_x (config_ a) n).
    change (F32.add (ramp_x (config_ a) n) (ramp_increment (config_ a)))
      with (ramp_x (config_ a) (S n)).
    rewrite Hend. f_equal. unfold ramp_x. apply ramp_log_snoc.
Qed.

End RampClaims.

(** With a ramp-up time of 0.0015f and a measurement period of 0.000125f
    the quotient of the two is 12 in exact arithmetic, but after twelve
    iterations in which every motor update succeeds [x] is still below 1
    and the ramp is still running; it ends in the thirteenth. *)
Lemma ramp_takes_thirteen_iterations :
  F32.ceil_div short_ramp_time period_8kHz = Some 12
  /\ F32.ltb (@ramp_x spec_declarations (config_ short_ramp_axis) 12) F32.one = true
  /\ (exists x,
        run_control_loop (@spin_up_ramp_handler spec_declarations) F32.zero
          short_ramp_axis (repeat yes 24) = Starved x)
  /\ outcome
       (run_control_loop (@spin_up_ramp_handler spec_declarations) F32.zero
          short_ramp_axis (repeat yes 26))
     = Some (@ramp_x spec_declarations (config_ short_ramp_axis) 13).
Proof.
  split; [vm_compute; reflexivity|].
  split; [vm_compute; reflexivity|].
  split; [eexists; vm_compute; reflexivity|].
  vm_compute; reflexivity.
Qed.

(** The ramp of [long_ramp_axis] advances by 2^-26 per iteration, exactly,
    until [x] is 0.25f after 2^24 iterations; from there on the sum is
    rounded back to 0.25f. *)
Lemma long_ramp_x k :
  @ramp_x spec_declarations (config_ long_ramp_axis) k
  = ticks (Z.min (Z.of_nat k) 16777216).
Proof.
  assert (Hinc : @ramp_increment spec_declarations (config_ long_ramp_axis) = ticks 1)
    by (vm_compute; reflexivity).
  induction k as [|k IH].
  - reflexivity.
  - change (@ramp_x spec_declarations (config_ long_ramp_axis) (S k))
      with (F32.add (@ramp_x spec_declarations (config_ long_ramp_axis) k)
              (@ramp_increment spec_declarations (config_ long_ramp_axis))).
    rewrite IH, Hinc.
    destruct (Z.lt_ge_cases (Z.of_nat k) 16777216) as [Hk|Hk].
    + rewrite !Z.min_l by lia. rewrite ticks_add by lia. f_equal. lia.
    + rewrite !Z.min_r by lia. vm_compute. reflexivity.
Qed.

Lemma long_ramp_below_one k :
  F32.ltb (@ramp_x spec_declarations (config_ long_ramp_axis) k) F32.one = true.
Proof. rewrite long_ramp_x. apply ticks_lt_one. lia. Qed.

Lemma quiet_repeat_yes n : Forall quiet (repeat yes n).
Proof. induction n; simpl; constructor; [split; reflexivity | assumption]. Qed.

(** With a measurement period of 0.000125f and a ramp-up time of 2^26
    periods, both positive and finite, the quotient of the two is 2^26 in
    exact arithmetic, but the ramp never ends: [x] advances by 2^-26 per
    iteration up to 0.25f and stays there, because 0.25f + 2^-26 rounds to
    0.25f.  After 2^26 iterations, and after any other number of
    iterations in which every measurement arrives and every motor update
    succeeds, [x] is below 1 and the ramp is waiting for the next
    measurement. *)
Lemma ramp_stalls_at_a_quarter :
  F32.is_positive period_8kHz = true
  /\ F32.is_positive long_ramp_time = true
  /\ F32.ceil_div long_ramp_time period_8kHz = Some 67108864
  /\ F32.add a_quarter
       (@ramp_increment spec_declarations (config_ long_ramp_axis)) = a_quarter
  /\ (forall k, (Z.to_nat 16777216 <= k)%nat ->
        @ramp_x spec_declarations (config_ long_ramp_axis) k = a_quarter)
  /\ F32.ltb (@ramp_x spec_declarations (config_ long_ramp_axis)
                (Z.to_nat 67108864)) F32.one = true
  /\ (exists x,
        run_control_loop (@spin_up_ramp_handler spec_declarations) F32.zero
          long_ramp_axis (repeat yes (2 * Z.to_nat 67108864)) = Starved x)
  /\ (forall n, exists x,
        run_control_loop (@spin_up_ramp_handler spec_declarations) F32.zero
          long_ramp_axis (repeat yes (2 * n)) = Starved x).
Proof.
  assert (Hrun : forall n, exists x,
    run_control_loop (@spin_up_ramp_handler spec_declarations) F32.zero
      long_ramp_axis (repeat yes (2 * n)) = Starved x).
  { intros n. eexists.
    apply (ramp_waits n long_ramp_axis (repeat yes (2 * n))
             AXIS_STATE_SENSORLESS_CONTROL
             (AXIS_STATE_IDLE :: repeat AXIS_STATE_UNDEFINED 8)).
    - reflexivity.
    - reflexivity.
    - apply quiet_repeat_yes.
    - apply repeat_length.
    - intros k _. apply long_ramp_below_one. }
  split; [vm_compute; reflexivity|].
  split; [vm_compute; reflexivity|].
  split; [vm_compute; reflexivity|].
  split; [vm_compute; reflexivity|].
  split.
  { intros k Hk. rewrite long_ramp_x. rewrite Z.min_r by lia.
    vm_compute. reflexivity. }
  split; [apply long_ramp_below_one|].
  split; [apply Hrun | exact Hrun].
Qed.

Lemma ramp_ends_when_x_reaches_one_witness :
  Forall quiet (repeat yes 24)
  /\ (forall k, (0 < k <= 12)%nat ->
        F32.ltb (@ramp_x spec_declarations (config_ short_ramp_axis) k) F32.one = true)
  /\ F32.ltb (@ramp_x spec_declarations (config_ short_ramp_axis) 13) F32.one = false
  /\ F32.is_positive period_8kHz = true
  /\ F32.is_positive short_ramp_time = true
  /\ (forall k,
        F32.leb (@ramp_x spec_declarations (config_ short_ramp_axis) k)
          (@ramp_x spec_declarations (config_ short_ramp_axis) (S k)) = true)
  /\ run_control_loop (@spin_up_ramp_handler spec_declarations) F32.zero
       short_ramp_axis (repeat yes 24 ++ [yes; yes]) =
     Done (@ramp_x spec_declarations (config_ short_ramp_axis) 13)
       (add_logs (@ramp_log spec_declarations (config_ short_ramp_axis) F32.zero 13)
          short_ramp_axis) [].
Proof.
  assert (Hq : Forall quiet (repeat yes 24)) by (repeat constructor).
  assert (Hlt : forall k, (0 < k <= 12)%nat ->
            F32.ltb (@ramp_x spec_declarations (config_ short_ramp_axis) k) F32.one = true).
  { intros k Hk.
    do 13 (destruct k as [|k]; [try lia; try (vm_compute; reflexivity)|]). lia. }
  assert (Hend : F32.ltb (@ramp_x spec_declarations (config_ short_ramp_axis) 13)
                   F32.one = false) by (vm_compute; reflexivity).
  assert (Hp : F32.is_positive period_8kHz = true) by (vm_compute; reflexivity).
  assert (Ht : F32.is_positive short_ramp_time = true) by (vm_compute; reflexivity).
  destruct (@ramp_ends_when_x_reaches_one spec_declarations short_ramp_axis 12
              (repeat yes 24) [] yes yes
              AXIS_STATE_SENSORLESS_CONTROL
              (AXIS_STATE_IDLE :: repeat AXIS_STATE_UNDEFINED 8)
              eq_refl eq_refl Hq eq_refl (conj eq_refl eq_refl)
              (conj eq_refl eq_refl) Hlt)
    as (_ & _ & Hmono & _ & Hdone).
  split; [exact Hq|]. split; [exact Hlt|]. split; [exact Hend|].
  split; [exact Hp|]. split; [exact Ht|].
  split; [exact (Hmono Hp Ht)|exact (Hdone Hend)].
Defined.

(** ** The step/direction callback *)

Lemma step_cb_disabled (a : Axis) (dir_pin : bool) :
  enable_step_dir_ a = false -> step_cb dir_pin a = a.
Proof. intros H. unfold step_cb. rewrite H. reflexivity. Qed.

(** One pulse on an integer setpoint with an integer [counts_per_step]. *)
Lemma step_cb_integer (a : Axis) (n c : Z) (dir_pin : bool) :
  enable_step_dir_ a = true ->
  counts_per_step (config_ a) = F32.of_Z c ->
  c <> 0 -> Z.abs c < 2 ^ 24 ->
  pos_setpoint_ a = F32.of_Z n -> Z.abs n < 2 ^ 24 ->
  step_cb dir_pin a =
  set_pos_setpoint_ (F32.of_Z (if dir_pin then n + c else n - c)) a.
Proof.
  intros Hen Hcps Hc0 Hc Hpos Hn.
  destruct (mul_one_of_Z c Hc Hc0) as [Hup Hdown].
  unfold step_cb. rewrite Hen, Hcps, Hpos. destruct dir_pin.
  - rewrite Hup, add_of_Z by assumption. reflexivity.
  - rewrite Hdown, add_of_Z by (assumption || lia). reflexivity.
Qed.

Lemma step_pulses_integer (m : nat) : forall (a : Axis) (n c : Z),
  enable_step_dir_ a = true ->
  counts_per_step (config_ a) = F32.of_Z c ->
  c <> 0 -> Z.abs c < 2 ^ 24 ->
  pos_setpoint_ a = F32.of_Z n ->
  (forall k, 0 <= k < Z.of_nat m -> Z.abs (n + k * c) < 2 ^ 24) ->
  pos_setpoint_ (step_pulses m true a) = F32.of_Z (n + Z.of_nat m * c).
Proof.
  induction m as [|m IH]; intros a n c Hen Hcps Hc0 Hc Hpos Hin.
  - change (step_pulses 0 true a) with a. rewrite Hpos. f_equal. lia.
  - change (step_pulses (S m) true a) with (step_pulses m true (step_cb true a)).
    rewrite (step_cb_integer a n c true Hen Hcps Hc0 Hc Hpos).
    + rewrite (IH _ (n + c) c); try assumption.
      * f_equal. lia.
      * reflexivity.
      * intros k Hk. replace (n + c + k * c) with (n + (k + 1) * c) by lia.
        apply Hin. lia.
    + replace n with (n + 0 * c) by lia. apply Hin. lia.
Qed.

(** C9, as amended.  While step/dir input is enabled, each rising edge on
    the step input replaces the position setpoint by the single-precision
    sum of the setpoint and [dir * counts_per_step], where [dir] is 1.0
    when the direction input reads high and -1.0 when it reads low, and
    changes nothing else.  For an integer [counts_per_step] [c] and an
    integer setpoint [n], both below 2^24 in magnitude, the new setpoint is
    the float of [n + c], respectively of [n - c], and below 2^24 the float
    of an integer holds that integer exactly.  In particular, with
    [counts_per_step = 2], ten edges with direction positive and no other
    writer take an integer setpoint [n] with -2^24 < n < 2^24 - 20 to
    exactly [n + 20]. *)
Theorem step_cb_adds_counts_per_step (a : Axis) :
  enable_step_dir_ a = true ->
  step_cb true a =
    set_pos_setpoint_
      (F32.add (pos_setpoint_ a) (F32.mul F32.one (counts_per_step (config_ a)))) a
  /\ step_cb false a =
    set_pos_setpoint_
      (F32.add (pos_setpoint_ a)
         (F32.mul F32.minus_one (counts_per_step (config_ a)))) a
  /\ (forall n c,
        counts_per_step (config_ a) = F32.of_Z c ->
        c <> 0 -> Z.abs c < 2 ^ 24 ->
        pos_setpoint_ a = F32.of_Z n -> Z.abs n < 2 ^ 24 ->
        pos_setpoint_ (step_cb true a) = F32.of_Z (n + c) /\
        pos_setpoint_ (step_cb false a) = F32.of_Z (n - c))
  /\ (forall z, Z.abs z < 2 ^ 24 -> F32.holds_integer (F32.of_Z z) z)
  /\ (forall n,
        counts_per_step (config_ a) = F32.of_Z 2 ->
        pos_setpoint_ a = F32.of_Z n ->
        - 2 ^ 24 < n -> n + 20 < 2 ^ 24 ->
        pos_setpoint_ (step_pulses 10 true a) = F32.of_Z (n + 20)).
Proof.
  intros Hen. split; [|split; [|split; [|split]]].
  - unfold step_cb. rewrite Hen. reflexivity.
  - unfold step_cb. rewrite Hen. reflexivity.
  - intros n c Hcps Hc0 Hc Hpos Hn.
    rewrite !(step_cb_integer a n c) by assumption. split; reflexivity.
  - exact of_Z_holds_integer.
  - intros n Hcps Hpos Hlo Hhi.
    apply (step_pulses_integer 10 a n 2); try assumption; try lia.
Qed.

(** At a setpoint of 2^25 counts the single-precision sum with 2 rounds
    back to 2^25: with [counts_per_step = 2] neither one rising edge nor
    ten of them move the setpoint, though 2^25 + 20 is a float. *)
Lemma step_pulses_lost_at_large_setpoint :
  enable_step_dir_ (stepping_axis (F32.of_Z 33554432)) = true
  /\ counts_per_step (config_ (stepping_axis (F32.of_Z 33554432))) = F32.of_Z 2
  /\ pos_setpoint_ (step_cb true (stepping_axis (F32.of_Z 33554432)))
     = F32.of_Z 33554432
  /\ pos_setpoint_ (step_pulses 10 true (stepping_axis (F32.of_Z 33554432)))
     = F32.of_Z 33554432
  /\ F32.of_Z 33554432 <> F32.of_Z (33554432 + 20)
  /\ F32.exact (F32.of_Z (33554432 + 20)) = Some (8388613, 2).
Proof.
  repeat split; try (vm_compute; reflexivity).
  vm_compute. discriminate.
Qed.

Lemma step_cb_adds_counts_per_step_witness :
  enable_step_dir_ (stepping_axis (F32.of_Z 1000)) = true
  /\ pos_setpoint_ (step_cb true (stepping_axis (F32.of_Z 1000))) = F32.of_Z 1002
  /\ pos_setpoint_ (step_cb false (stepping_axis (F32.of_Z 1000))) = F32.of_Z 998
  /\ pos_setpoint_ (step_pulses 10 true (stepping_axis (F32.of_Z 1000)))
     = F32.of_Z 1020
  /\ F32.holds_integer (F32.of_Z 1020) 1020.
Proof.
  pose proof (step_cb_adds_counts_per_step (stepping_axis (F32.of_Z 1000))
                eq_refl) as (_ & _ & Hone & Hint & Hten).
  split; [reflexivity|].
  destruct (Hone 1000 2) as [Hup Hdown];
    try reflexivity; try discriminate.
  split; [exact Hup|]. split; [exact Hdown|]. split.
  - apply (Hten 1000); reflexivity.
  - apply Hint. reflexivity.
Defined.

(** ** The scenarios of section 8 of the spec on the model *)

(** A full calibration sequence whose calibrations succeed is dispatched
    as MotorCalibration, EncoderCalibration, Idle, and no error is set. *)
Example scenario_full_calibration :
  outcome (@run_state_machine_loop spec_declarations 3
             (fresh_axis example_config 10 AXIS_STATE_FULL_CALIBRATION_SEQUENCE)
             script_full_calibration)
  = Some [(AXIS_STATE_MOTOR_CALIBRATION, true);
          (AXIS_STATE_ENCODER_CALIBRATION, true);
          (AXIS_STATE_IDLE, true)]
  /\ option_map error_
       (final (@run_state_machine_loop spec_declarations 3
                 (fresh_axis example_config 10 AXIS_STATE_FULL_CALIBRATION_SEQUENCE)
                 script_full_calibration))
     = Some ERROR_NO_ERROR.
Proof. split; reflexivity. Qed.

(** Closed loop control whose first encoder update fails stops after one
    iteration with the error EncoderFailed, and Idle is at the head of the
    chain afterwards. *)
Example scenario_encoder_fails :
  option_map (fun a => (error_ a, hd_error (task_chain_ a), log a))
    (final (@state_machine_round spec_declarations
              (set_requested_state_ AXIS_STATE_CLOSED_LOOP_CONTROL
                 (closed_loop_axis example_config))
              script_encoder_fails))
  = Some (ERROR_ENCODER_FAILED, Some AXIS_STATE_IDLE,
          [ev_gpio_init_dir; ev_gpio_subscribe; ev_wait_current_meas;
           ev_sensorless_update false; ev_encoder_update true;
           ev_gpio_unsubscribe]).
Proof. reflexivity. Qed.

(** ** The phase wrap of the concrete declarations *)

(** [pi_below] is the last float below pi: twice its value lies below two
    pi, and twice the value of the next float lies above. *)
Lemma pi_below_is_below_pi :
  2 * 13176794 * 2 ^ 170 < two_pi_192 < 2 * 13176795 * 2 ^ 170.
Proof. split; reflexivity. Qed.

(** Every phase, also an infinite one and one that is not a number, is
    wrapped into the floats from [- pi_below] to [pi_below], which lie
    inside (-pi, pi]. *)
Lemma spec_wrap_pm_pi_range x :
  F32.leb (SFopp pi_below) (spec_wrap_pm_pi x) = true
  /\ F32.leb (spec_wrap_pm_pi x) pi_below = true.
Proof.
  unfold spec_wrap_pm_pi.
  destruct x as [s|s| |s m e]; try (split; reflexivity).
  set (w := binary_normalize _ _ _ _ _). clearbody w.
  unfold clamp_pm_pi.
  destruct (F32.leb w pi_below) eqn:Hhi;
    [destruct (F32.leb (SFopp pi_below) w) eqn:Hlo|];
    split; try assumption; reflexivity.
Qed.

(** Phases inside the range are kept; 7 is wrapped to the float of
    7 - 2 pi, 0.716814697f; the float next above pi is wrapped to
    [- pi_below], and its opposite to [pi_below]. *)
Lemma spec_wrap_pm_pi_examples :
  spec_wrap_pm_pi (F32.of_Z 1) = F32.of_Z 1
  /\ spec_wrap_pm_pi (F32.of_Z (-3)) = F32.of_Z (-3)
  /\ spec_wrap_pm_pi pi_below = pi_below
  /\ spec_wrap_pm_pi (SFopp pi_below) = SFopp pi_below
  /\ spec_wrap_pm_pi (F32.of_Z 7) = S754_finite false 12026155 (-24)
  /\ spec_wrap_pm_pi (S754_finite false 13176795 (-22)) = SFopp pi_below
  /\ spec_wrap_pm_pi (S754_finite true 13176795 (-22)) = pi_below.
Proof. vm_compute. repeat split. Qed.

(** * Further properties of axis.cpp *)

(** ** The checks of the axis *)

Lemma config_stable (cfg : AxisConfig_t) : Stable (fun x => config_ x = cfg).
Proof.
  split.
  - intros e x H. exact H.
  - intros w x H. destruct w; simpl; try exact H.
    unfold step_cb. destruct (enable_step_dir_ x); exact H.
Qed.

Lemma error_stable (e : Error_t) : Stable (fun x => error_ x = e).
Proof.
  split.
  - intros ev x H. exact H.
  - intros w x H. destruct w; simpl; try exact H.
    unfold step_cb. destruct (enable_step_dir_ x); exact H.
Qed.

(** X1.  [Axis::do_checks] asks the motor first and reads the bus voltage
    only when the motor is fine: a failure of the motor is recorded as
    MotorFailed and the voltage is not read; with the motor fine, the
    checks pass when the voltage is at least the trip level, and record no
    error then, and they fail with DcBusUnderVoltage otherwise. A voltage
    or a level that is not a number never passes. *)
Theorem do_checks_outcome (a : Axis) (motor vbus : Input) (s : list Input) :
  let a1 := deliver_all (during motor) (add_log ev_motor_do_checks a) in
  let a2 := deliver_all (during vbus) (add_log ev_read_vbus_voltage a1) in
  let level := dc_bus_brownout_trip_level (config_ a) in
  (ok motor = false ->
   do_checks a (motor :: vbus :: s) =
   Done false (set_error_ ERROR_MOTOR_FAILED a1) (vbus :: s))
  /\ (ok motor = true -> F32.leb level (out1 vbus) = true ->
      do_checks a (motor :: vbus :: s) = Done true a2 s /\ error_ a2 = error_ a)
  /\ (ok motor = true -> F32.leb level (out1 vbus) = false ->
      do_checks a (motor :: vbus :: s) =
      Done false (set_error_ ERROR_DC_BUS_UNDER_VOLTAGE a2) s)
  /\ F32.leb level S754_nan = false
  /\ F32.leb S754_nan (out1 vbus) = false.
Proof.
  intros a1 a2 level.
  assert (Hcfg : config_ a2 = config_ a).
  { unfold a2, a1.
    apply (deliver_all_stable _ _ _ (config_stable (config_ a))).
    apply (deliver_all_stable _ _ _ (config_stable (config_ a))).
    reflexivity. }
  assert (Herr : error_ a2 = error_ a).
  { unfold a2, a1.
    apply (deliver_all_stable _ _ _ (error_stable (error_ a))).
    apply (deliver_all_stable _ _ _ (error_stable (error_ a))).
    reflexivity. }
  split; [|split; [|split; [|split]]].
  - intros Hm. unfold do_checks, bind, call. rewrite Hm. reflexivity.
  - intros Hm Hv. split; [|exact Herr].
    unfold do_checks, check_PSU_brownout, bind, call, get, ret. rewrite Hm.
    cbn [negb]. fold a1. fold a2. rewrite Hcfg. fold level. rewrite Hv.
    reflexivity.
  - intros Hm Hv.
    unfold do_checks, check_PSU_brownout, bind, call, get, ret. rewrite Hm.
    cbn [negb]. fold a1. fold a2. rewrite Hcfg. fold level. rewrite Hv.
    reflexivity.
  - destruct level as [| | |[]]; reflexivity.
  - reflexivity.
Qed.

Lemma do_checks_outcome_witness :
  do_checks (closed_loop_axis example_config) [no; reading (F32.of_Z 12)] =
    Done false
      (set_error_ ERROR_MOTOR_FAILED
         (add_log ev_motor_do_checks (closed_loop_axis example_config)))
      [reading (F32.of_Z 12)]
  /\ outcome (do_checks (closed_loop_axis example_config)
                [yes; reading (F32.of_Z 12)]) = Some true
  /\ do_checks (closed_loop_axis example_config) [yes; reading (F32.of_Z 7)] =
     Done false
       (set_error_ ERROR_DC_BUS_UNDER_VOLTAGE
          (add_log ev_read_vbus_voltage
             (add_log ev_motor_do_checks (closed_loop_axis example_config))))
       [].
Proof.
  split; [|split].
  - apply (do_checks_outcome (closed_loop_axis example_config) no
             (reading (F32.of_Z 12)) []).
    reflexivity.
  - destruct (do_checks_outcome (closed_loop_axis example_config) yes
                (reading (F32.of_Z 12)) []) as (_ & H & _).
    destruct (H eq_refl eq_refl) as [-> _]. reflexivity.
  - destruct (do_checks_outcome (closed_loop_axis example_config) yes
                (reading (F32.of_Z 7)) []) as (_ & _ & H & _).
    apply H; reflexivity.
Defined.

(** ** Step pulses *)

Lemma pulses_disabled (dirs : list bool) : forall a,
  enable_step_dir_ a = false -> deliver_all (map step_irq dirs) a = a.
Proof.
  induction dirs as [|d dirs IH]; intros a H.
  - reflexivity.
  - change (deliver_all (map step_irq (d :: dirs)) a)
      with (deliver_all (map step_irq dirs) (step_cb d a)).
    rewrite step_cb_disabled by exact H. apply IH, H.
Qed.

(** X2.  After [set_step_dir_enabled (false)] the pulses on the step input
    change nothing of the axis, however many arrive and whatever the
    direction input reads. *)
Theorem step_pulses_ignored_when_disabled
    (a : Axis) (s : list Input) (dirs : list bool) :
  exists a',
    set_step_dir_enabled false a s = Done tt a' s /\
    enable_step_dir_ a' = false /\
    log a' = log a ++ [ev_gpio_unsubscribe] /\
    deliver_all (map step_irq dirs) a' = a'.
Proof.
  eexists. split; [reflexivity|]. split; [reflexivity|].
  split; [reflexivity|]. apply pulses_disabled. reflexivity.
Qed.

(** X3.  A pulse with the direction input high followed by one with the
    direction input low, or the other way round, leaves the axis as it
    was, for an integer setpoint and an integer [counts_per_step] when the
    setpoints passed through stay below 2^24 in magnitude. *)
Theorem step_up_and_down_restores_setpoint (a : Axis) (n c : Z) :
  enable_step_dir_ a = true ->
  counts_per_step (config_ a) = F32.of_Z c ->
  c <> 0 -> Z.abs c < 2 ^ 24 ->
  pos_setpoint_ a = F32.of_Z n ->
  Z.abs n < 2 ^ 24 -> Z.abs (n + c) < 2 ^ 24 -> Z.abs (n - c) < 2 ^ 24 ->
  step_cb false (step_cb true a) = a /\ step_cb true (step_cb false a) = a.
Proof.
  intros Hen Hcps Hc0 Hc Hpos Hn Hup Hdown.
  rewrite (step_cb_integer a n c true Hen Hcps Hc0 Hc Hpos Hn).
  rewrite (step_cb_integer a n c false Hen Hcps Hc0 Hc Hpos Hn).
  rewrite (step_cb_integer _ (n + c) c false) by assumption || reflexivity.
  rewrite (step_cb_integer _ (n - c) c true) by assumption || reflexivity.
  replace (n + c - c) with n by lia. replace (n - c + c) with n by lia.
  destruct a; simpl in *. subst. split; reflexivity.
Qed.

Lemma step_up_and_down_restores_setpoint_witness :
  step_cb false (step_cb true (stepping_axis (F32.of_Z 1000)))
  = stepping_axis (F32.of_Z 1000)
  /\ step_cb true (step_cb false (stepping_axis (F32.of_Z 1000)))
     = stepping_axis (F32.of_Z 1000).
Proof.
  apply (step_up_and_down_restores_setpoint (stepping_axis (F32.of_Z 1000)) 1000 2);
    try reflexivity.
  discriminate.
Defined.

(** ** Loading and advancing the task chain *)
Section TaskChainFacts.

Context {D : Declarations}.

(** X4.  A FullCalibrationSequence request writes MotorCalibration,
    EncoderCalibration, Idle and the sentinel; every request other than
    the two sequences writes itself, Idle and the sentinel (a request of
    Idle gives Idle twice). The entries behind stay, the request is
    cleared. *)
Theorem single_request_chain (a : Axis) (s : list Input) :
  (requested_state_ a = AXIS_STATE_FULL_CALIBRATION_SEQUENCE ->
   (4 <= length (task_chain_ a))%nat ->
   load_task_chain a s =
   Done tt
     (set_requested_state_ AXIS_STATE_UNDEFINED
        (set_task_chain_
           ([AXIS_STATE_MOTOR_CALIBRATION; AXIS_STATE_ENCODER_CALIBRATION;
             AXIS_STATE_IDLE; AXIS_STATE_UNDEFINED]
            ++ skipn 4 (task_chain_ a)) a)) s)
  /\ (requested_state_ a <> AXIS_STATE_UNDEFINED ->
      requested_state_ a <> AXIS_STATE_STARTUP_SEQUENCE ->
      requested_state_ a <> AXIS_STATE_FULL_CALIBRATION_SEQUENCE ->
      (3 <= length (task_chain_ a))%nat ->
      load_task_chain a s =
      Done tt
        (set_requested_state_ AXIS_STATE_UNDEFINED
           (set_task_chain_
              ([requested_state_ a; AXIS_STATE_IDLE; AXIS_STATE_UNDEFINED]
               ++ skipn 3 (task_chain_ a)) a)) s).
Proof.
  split.
  - intros Hreq Hlen. rewrite load_task_chain_Done; rewrite Hreq.
    + reflexivity.
    + discriminate.
    + exact Hlen.
  - intros Hu Hs Hf Hlen. rewrite load_task_chain_Done.
    + destruct (requested_state_ a); try contradiction; reflexivity.
    + exact Hu.
    + destruct (requested_state_ a); try contradiction; exact Hlen.
Qed.

(** X5.  Loading the task chain a second time changes nothing: the first
    load has cleared the request. *)
Theorem load_task_chain_idempotent (a : Axis) (s : list Input) :
  (load_task_chain ;; load_task_chain) a s = load_task_chain a s.
Proof.
  unfold bind.
  destruct (load_task_chain a s) as [[] a1 s1| |] eqn:H; try reflexivity.
  apply load_task_chain_clears in H. destruct H as (Hreq & _).
  apply load_task_chain_idle. exact Hreq.
Qed.

Lemma shift_chain_length c : length (shift_chain c) = length c.
Proof.
  destruct c as [|x c']; [reflexivity|]. simpl.
  rewrite length_app. simpl. lia.
Qed.

Lemma shift_chain_nth c i :
  (S i < length c)%nat -> nth_error (shift_chain c) i = nth_error c (S i).
Proof.
  destruct c as [|x c']; simpl; intros H; [lia|].
  apply nth_error_app1. lia.
Qed.

Lemma last_cons (c : list State_t) : forall x d, last (x :: c) d = last c x.
Proof.
  induction c as [|y c IH]; intros x d; [reflexivity|].
  change (last (x :: y :: c) d) with (last (y :: c) d).
  rewrite (IH y d), (IH y x). reflexivity.
Qed.

Lemma shift_chain_last c d : last (shift_chain c) d = last c d.
Proof.
  destruct c as [|x c']; [reflexivity|].
  cbn [shift_chain]. rewrite last_last. symmetry. apply last_cons.
Qed.

(** X6.  When the state a round dispatched returns success, the task chain
    advances by one entry: every entry takes the value of the one behind
    it, the array keeps its length and its last entry stays. *)
Theorem successful_state_advances_chain
    (a a' : Axis) (s s' : list Input) (cur : State_t) :
  state_machine_round a s = Done (cur, true) a' s' ->
  exists a0 s0 a1,
    select_state a s = Done cur a0 s0 /\
    run_state cur a0 s0 = Done true a1 s' /\
    a' = set_task_chain_ (shift_chain (task_chain_ a0)) a1 /\
    length (task_chain_ a') = length (task_chain_ a0) /\
    (forall i, (S i < length (task_chain_ a0))%nat ->
       nth_error (task_chain_ a') i = nth_error (task_chain_ a0) (S i)) /\
    (forall d, last (task_chain_ a') d = last (task_chain_ a0) d).
Proof.
  unfold state_machine_round. intros H.
  apply bind_Done in H. destruct H as (cur0 & a0 & s0 & Hsel & H).
  apply bind_Done in H. destruct H as (status & a1 & s1 & Hrun & H).
  apply bind_Done in H. destruct H as ([] & a2 & s2 & Hfin & H).
  injection H as -> -> -> ->.
  pose proof (run_state_chain cur a0 s0) as Hchain.
  rewrite Hrun in Hchain. simpl in Hchain.
  unfold finish_state in Hfin. simpl in Hfin. unfold modify in Hfin.
  injection Hfin as <- <-. rewrite Hchain.
  exists a0, s0, a1.
  split; [exact Hsel|]. split; [exact Hrun|]. split; [reflexivity|].
  simpl. split; [apply shift_chain_length|].
  split; [intros i Hi; apply shift_chain_nth, Hi|].
  intros d. apply shift_chain_last.
Qed.

Lemma validate_state_motor a s cur rest :
  task_chain_ a = cur :: rest ->
  motor_is_calibrated_ a = false ->
  state_value AXIS_STATE_MOTOR_CALIBRATION < state_value cur ->
  validate_state a s =
  Done tt (set_task_chain_ (AXIS_STATE_UNDEFINED :: rest) a) s.
Proof.
  intros Hc Hm Hlt.
  unfold validate_state, current_state, load, store, bind, get, ret.
  rewrite Hc. simpl. rewrite Hm.
  apply Z.ltb_lt in Hlt. rewrite Hlt. simpl. rewrite Hc. simpl.
  destruct ((state_value AXIS_STATE_ENCODER_CALIBRATION
             <? state_value AXIS_STATE_UNDEFINED)
            && negb (encoder_is_calibrated_ a)); reflexivity.
Qed.

(** X7.  While the motor reports not calibrated, a head that lies above
    MotorCalibration in the enumeration of axis.hpp is replaced with
    Undefined before the dispatch, whatever the encoder reports: the round
    sets the error InvalidState, gives failure and calls no collaborator.
    MotorCalibration itself is dispatched as it is when it does not lie
    above EncoderCalibration. *)
Theorem state_needs_motor_calibration
    (a a1 : Axis) (s : list Input) (cur : State_t) (rest : list State_t) :
  load_task_chain a s = Done tt a1 s ->
  task_chain_ a1 = cur :: rest ->
  motor_is_calibrated_ a1 = false ->
  (state_value AXIS_STATE_MOTOR_CALIBRATION < state_value cur ->
   let a2 := set_task_chain_ (AXIS_STATE_IDLE :: rest)
               (set_error_ ERROR_INVALID_STATE a1) in
   select_state a s =
     Done AXIS_STATE_UNDEFINED
       (set_task_chain_ (AXIS_STATE_UNDEFINED :: rest) a1) s
   /\ state_machine_round a s = Done (AXIS_STATE_UNDEFINED, false) a2 s
   /\ log a2 = log a)
  /\ (cur = AXIS_STATE_MOTOR_CALIBRATION ->
      state_value AXIS_STATE_MOTOR_CALIBRATION
        <= state_value AXIS_STATE_ENCODER_CALIBRATION ->
      select_state a s = Done AXIS_STATE_MOTOR_CALIBRATION a1 s).
Proof.
  intros Hload Hc Hm. split.
  - intros Hlt a2.
    assert (Hsel : select_state a s =
              Done AXIS_STATE_UNDEFINED
                (set_task_chain_ (AXIS_STATE_UNDEFINED :: rest) a1) s).
    { unfold select_state, bind. rewrite Hload.
      rewrite (validate_state_motor a1 s cur rest Hc Hm Hlt). reflexivity. }
    destruct (load_task_chain_clears _ _ _ _ Hload) as (_ & Hlog & _ & _).
    split; [exact Hsel|]. split.
    + unfold state_machine_round, bind. rewrite Hsel. reflexivity.
    + simpl. exact Hlog.
  - intros -> Hle. unfold select_state, bind. rewrite Hload.
    rewrite (validate_state_pass a1 s AXIS_STATE_MOTOR_CALIBRATION rest Hc)
      by lia.
    unfold current_state, load. rewrite Hc. reflexivity.
Qed.

End TaskChainFacts.

Lemma single_request_chain_witness :
  load_task_chain (fresh_axis example_config 10 AXIS_STATE_IDLE) [] =
  Done tt
    (set_requested_state_ AXIS_STATE_UNDEFINED
       (set_task_chain_
          ([AXIS_STATE_IDLE; AXIS_STATE_IDLE]
           ++ repeat AXIS_STATE_UNDEFINED 8)
          (fresh_axis example_config 10 AXIS_STATE_IDLE))) [].
Proof.
  apply (single_request_chain (fresh_axis example_config 10 AXIS_STATE_IDLE) []);
    try discriminate.
  simpl. lia.
Defined.

Lemma successful_state_advances_chain_witness :
  exists a',
    @state_machine_round spec_declarations recalibrating_axis [yes] =
      Done (AXIS_STATE_MOTOR_CALIBRATION, true) a' []
    /\ task_chain_ a' =
       [AXIS_STATE_ENCODER_CALIBRATION; AXIS_STATE_IDLE]
       ++ repeat AXIS_STATE_UNDEFINED 8.
Proof.
  eexists. split; [reflexivity|].
  destruct (@successful_state_advances_chain spec_declarations
              recalibrating_axis _ [yes] [] AXIS_STATE_MOTOR_CALIBRATION eq_refl)
    as (a0 & s0 & a1 & Hsel & _ & Heq & _).
  injection Hsel as <- <-. reflexivity.
Defined.

Lemma state_needs_motor_calibration_witness :
  @state_machine_round spec_declarations encoder_calibration_request [] =
  Done (AXIS_STATE_UNDEFINED, false)
    (set_task_chain_ (AXIS_STATE_IDLE :: AXIS_STATE_IDLE
                      :: repeat AXIS_STATE_UNDEFINED 8)
       (set_error_ ERROR_INVALID_STATE
          (set_requested_state_ AXIS_STATE_UNDEFINED
             (set_task_chain_
                (AXIS_STATE_ENCODER_CALIBRATION :: AXIS_STATE_IDLE
                 :: repeat AXIS_STATE_UNDEFINED 8)
                encoder_calibration_request)))) [].
Proof.
  destruct (@state_needs_motor_calibration spec_declarations
              encoder_calibration_request _ [] AXIS_STATE_ENCODER_CALIBRATION
              (AXIS_STATE_IDLE :: repeat AXIS_STATE_UNDEFINED 8)
              eq_refl eq_refl eq_refl) as [H _].
  apply H. reflexivity.
Defined.

(** ** Invariants of the programs on scripts of a given kind *)

Lemma Keeps_ret {A} Q F P (x : A) : Keeps Q F P (ret x).
Proof. intros a s HQ HP. simpl. auto. Qed.

Lemma Keeps_get Q F P : Keeps Q F P get.
Proof. intros a s HQ HP. simpl. auto. Qed.

Lemma Keeps_bind {A B} Q F P (m : M A) (k : A -> M B) :
  Keeps Q F P m -> (forall x, Keeps Q F P (k x)) -> Keeps Q F P (bind m k).
Proof.
  intros Hm Hk a s HQ HP. specialize (Hm a s HQ HP). unfold bind.
  destruct (m a s) as [x a1 s1| |]; auto.
  destruct Hm as [HP1 HQ1]. apply Hk; assumption.
Qed.

Lemma Keeps_if {A} Q F P (b : bool) (m1 m2 : M A) :
  Keeps Q F P m1 -> Keeps Q F P m2 -> Keeps Q F P (if b then m1 else m2).
Proof. destruct b; auto. Qed.

Lemma Keeps_modify Q F (P : Axis -> Prop) f :
  (forall a, P a -> P (f a)) -> Keeps Q F P (modify f).
Proof. intros Hf a s HQ HP. simpl. auto. Qed.

Ltac keeps :=
  repeat first
    [ progress intros
    | match goal with
      | |- Keeps _ _ _ (bind _ _) => apply Keeps_bind
      | |- Keeps _ _ _ (if _ then _ else _) => apply Keeps_if
      | |- Keeps _ _ _ (ret _) => apply Keeps_ret
      | |- Keeps _ _ _ get => apply Keeps_get
      | |- Keeps _ _ _ (match ?p with (_, _) => _ end) => destruct p
      end ].

Section KeepsPrograms.

Context {D : Declarations}.
Variable Q : Input -> Prop.
Variable F : Prop.
Variable P : Axis -> Prop.

Hypothesis P_log : forall e a, P a -> P (add_log e a).
Hypothesis P_deliver : forall i a, Q i -> P a -> P (deliver_all (during i) a).
Hypothesis P_error : forall e a, e <> ERROR_NO_ERROR -> P a -> P (set_error_ e a).
Hypothesis P_head : forall a, P a -> F \/ task_chain_ a <> [].

Lemma Keeps_emit e : Keeps Q F P (emit e).
Proof. apply Keeps_modify. auto. Qed.

Lemma Keeps_call e : Keeps Q F P (call e).
Proof.
  intros a s HQ HP. unfold call. destruct s as [|i rest].
  - apply P_log, HP.
  - inversion HQ; subst. split; [|assumption].
    apply P_deliver; [assumption|]. apply P_log, HP.
Qed.

Lemma Keeps_current_state : Keeps Q F P current_state.
Proof.
  intros a s HQ HP. unfold current_state, load.
  destruct (task_chain_ a) as [|c cs] eqn:Hc; simpl; auto.
  destruct (P_head a HP) as [H|H]; [exact H|congruence].
Qed.

Ltac keeps_error :=
  keeps;
  auto using Keeps_emit, Keeps_call, Keeps_current_state;
  try (apply Keeps_modify; intros; apply P_error;
       [discriminate | assumption]).

Lemma Keeps_wait_for_current_meas : Keeps Q F P wait_for_current_meas.
Proof. unfold wait_for_current_meas. keeps_error. Qed.

Lemma Keeps_do_checks : Keeps Q F P do_checks.
Proof. unfold do_checks, check_PSU_brownout. keeps_error. Qed.

Lemma Keeps_run_control_loop {L} (h : L -> M (bool * L)) l :
  (forall l, Keeps Q F P (h l)) -> Keeps Q F P (run_control_loop h l).
Proof.
  intros Hh.
  assert (H : forall fuel l, Keeps Q F P (run_control_loop_fuel fuel h l)).
  { induction fuel as [|fuel IH]; intros l0.
    - intros a s HQ HP. exact HP.
    - simpl. keeps_error; auto using Keeps_wait_for_current_meas. }
  intros a s HQ HP. unfold run_control_loop. apply H; assumption.
Qed.

Lemma Keeps_handlers :
  (forall x, Keeps Q F P (spin_up_ramp_handler x)) /\
  (forall l, Keeps Q F P (spin_up_accel_handler l)) /\
  (forall u, Keeps Q F P (sensorless_handler u)) /\
  (forall u, Keeps Q F P (closed_loop_handler u)) /\
  (forall u, Keeps Q F P (idle_handler u)).
Proof.
  repeat split; intros;
    unfold spin_up_ramp_handler, spin_up_accel_handler, sensorless_handler,
      closed_loop_handler, idle_handler; keeps_error.
Qed.

Lemma Keeps_run_sensorless_spin_up : Keeps Q F P run_sensorless_spin_up.
Proof.
  destruct Keeps_handlers as (H1 & H2 & _).
  unfold run_sensorless_spin_up. keeps_error;
    apply Keeps_run_control_loop; assumption.
Qed.

Lemma Keeps_idle_handler u : Keeps Q F P (idle_handler u).
Proof. unfold idle_handler. keeps_error. Qed.

Lemma Keeps_run_idle_loop : Keeps Q F P run_idle_loop.
Proof.
  unfold run_idle_loop. keeps_error.
  apply Keeps_run_control_loop. apply Keeps_idle_handler.
Qed.

(** The states that are no control loop. *)
Lemma Keeps_run_state_outside cur :
  cur <> AXIS_STATE_SENSORLESS_CONTROL ->
  cur <> AXIS_STATE_CLOSED_LOOP_CONTROL ->
  Keeps Q F P (run_state cur).
Proof.
  intros Hs Hc. destruct cur; try contradiction; simpl; keeps_error;
    apply Keeps_run_idle_loop.
Qed.

(** Invariants that hold of the step/direction flag the control loops
    set. *)
Hypothesis P_flag : forall b a,
  b = false \/ b = enable_step_dir (config_ a) ->
  P a -> P (set_enable_step_dir_ b a).

Lemma Keeps_control_loop (h : unit -> M (bool * unit)) :
  (forall u, Keeps Q F P (h u)) ->
  Keeps Q F P
    (a <- get ;;
     set_step_dir_enabled (enable_step_dir (config_ a)) ;;
     run_control_loop h tt ;;
     set_step_dir_enabled false ;;
     a <- get ;;
     ret (Error_eqb (error_ a) ERROR_NO_ERROR)).
Proof.
  intros Hh a s HQ HP.
  unfold bind at 1. unfold get at 1. unfold bind at 1.
  rewrite set_step_dir_enabled_Done.
  set (a1 := if enable_step_dir (config_ a) then _ else _).
  assert (H1 : P a1).
  { unfold a1. destruct (enable_step_dir (config_ a)) eqn:He.
    - apply P_flag; [right; simpl; congruence|]. auto.
    - apply P_log, P_flag; auto. }
  assert (Hrest : Keeps Q F P
            (run_control_loop h tt ;;
             set_step_dir_enabled false ;;
             a <- get ;;
             ret (Error_eqb (error_ a) ERROR_NO_ERROR))).
  { keeps.
    - apply Keeps_run_control_loop, Hh.
    - unfold set_step_dir_enabled. keeps; [|apply Keeps_emit].
      apply Keeps_modify. intros y Hy. apply P_flag; auto. }
  apply Hrest; assumption.
Qed.

Lemma Keeps_run_state cur : Keeps Q F P (run_state cur).
Proof.
  destruct Keeps_handlers as (_ & _ & Hs & Hc & _).
  destruct cur; try (apply Keeps_run_state_outside; discriminate).
  - simpl. keeps.
    + apply Keeps_run_sensorless_spin_up.
    + apply (Keeps_control_loop sensorless_handler Hs).
  - apply (Keeps_control_loop closed_loop_handler Hc).
Qed.

(** Invariants that hold of the task chain as the state machine writes
    it. *)
Hypothesis P_request : forall r a, P a -> P (set_requested_state_ r a).
Hypothesis P_store : forall v a,
  P a -> P (set_task_chain_ (update_nth 0 v (task_chain_ a)) a).
Hypothesis P_shift : forall a,
  P a -> P (set_task_chain_ (shift_chain (task_chain_ a)) a).
Hypothesis P_loaded : forall a,
  P a ->
  (F \/ (length (expansion (config_ a) (requested_state_ a))
          <= length (task_chain_ a))%nat) /\
  P (set_task_chain_
       (overwrite (expansion (config_ a) (requested_state_ a)) (task_chain_ a))
       a).

Lemma Keeps_store_head v : Keeps Q F P (store 0 v).
Proof.
  intros a s HQ HP. unfold store.
  destruct (task_chain_ a) as [|c cs] eqn:Hc.
  - simpl. destruct (P_head a HP) as [H|H]; [exact H|congruence].
  - simpl. split; [|exact HQ].
    pose proof (P_store v a HP) as H. rewrite Hc in H. exact H.
Qed.

Lemma Keeps_load_task_chain : Keeps Q F P load_task_chain.
Proof.
  intros a s HQ HP.
  destruct (State_eqb_spec (requested_state_ a) AXIS_STATE_UNDEFINED) as [Hu|Hu].
  - rewrite load_task_chain_idle by exact Hu. auto.
  - destruct (P_loaded a HP) as [Hlen Hnew].
    destruct (Nat.leb_spec (length (expansion (config_ a) (requested_state_ a)))
                (length (task_chain_ a))) as [Hl|Hl].
    + rewrite load_task_chain_Done by assumption.
      split; [|exact HQ]. apply P_request, Hnew.
    + rewrite load_task_chain_Fault by exact Hl.
      destruct Hlen as [H|H]; [exact H|lia].
Qed.

Lemma Keeps_state_machine_round : Keeps Q F P state_machine_round.
Proof.
  unfold state_machine_round, select_state, validate_state, finish_state.
  keeps;
    auto using Keeps_load_task_chain, Keeps_current_state, Keeps_store_head,
      Keeps_run_state.
  apply Keeps_modify. exact P_shift.
Qed.

Lemma Keeps_run_state_machine_loop n : Keeps Q F P (run_state_machine_loop n).
Proof.
  unfold run_state_machine_loop. keeps; [apply Keeps_call|].
  induction n as [|n IH]; simpl; keeps;
    auto using Keeps_state_machine_round.
Qed.

End KeepsPrograms.

Lemma Keeps_holds {A} Q F P (m : M A) a s :
  Keeps Q F P m -> Forall Q s -> P a -> holds P (m a s).
Proof.
  intros H HQ HP. specialize (H a s HQ HP).
  destruct (m a s) as [x a1 s1| |]; simpl; auto. destruct H. assumption.
Qed.

(** ** The task chain stays inside its array *)

Lemma chain_stable (c : list State_t) : Stable (fun x => task_chain_ x = c).
Proof.
  split.
  - intros e x H. exact H.
  - intros w x H. destruct w; simpl; try exact H.
    unfold step_cb. destruct (enable_step_dir_ x); exact H.
Qed.

Lemma last_app_nonnil (p q : list State_t) d :
  q <> [] -> last (p ++ q) d = last q d.
Proof.
  intros Hq. induction p as [|x p IH]; [reflexivity|].
  simpl. destruct (p ++ q) as [|y r] eqn:Hpq; [|exact IH].
  apply app_eq_nil in Hpq. destruct Hpq. contradiction.
Qed.

Lemma last_skipn (k : nat) : forall (c : list State_t) d,
  skipn k c <> [] -> last (skipn k c) d = last c d.
Proof.
  induction k as [|k IH]; intros c d H; [reflexivity|].
  destruct c as [|x c']; [reflexivity|].
  simpl in H |- *. rewrite (IH c' d H).
  destruct c' as [|y c'']; [|reflexivity].
  destruct k; contradiction.
Qed.

Lemma expansion_last cfg requested d :
  expansion cfg requested <> [] ->
  last (expansion cfg requested) d = AXIS_STATE_UNDEFINED.
Proof.
  destruct requested; simpl; try reflexivity; try congruence.
  destruct (startup_motor_calibration cfg), (startup_encoder_calibration cfg),
    (startup_closed_loop_control cfg), (startup_sensorless_control cfg);
    reflexivity.
Qed.

Lemma overwrite_last cfg requested c d :
  last c d = AXIS_STATE_UNDEFINED ->
  last (overwrite (expansion cfg requested) c) d = AXIS_STATE_UNDEFINED.
Proof.
  intros Hc. unfold overwrite.
  destruct (skipn (length (expansion cfg requested)) c) as [|y r] eqn:Hs.
  - rewrite app_nil_r.
    destruct (expansion cfg requested) as [|x p] eqn:He.
    + simpl in Hs. subst c. exact Hc.
    + rewrite <- He. apply expansion_last. rewrite He. discriminate.
  - rewrite last_app_nonnil by discriminate.
    rewrite <- Hs. rewrite last_skipn by (rewrite Hs; discriminate).
    exact Hc.
Qed.

Lemma update_head_last (c : list State_t) v d :
  (2 <= length c)%nat -> last (update_nth 0 v c) d = last c d.
Proof.
  destruct c as [|x [|y c']]; simpl; try lia. reflexivity.
Qed.

Lemma update_head_length (c : list State_t) v :
  length (update_nth 0 v c) = length c.
Proof. destruct c; reflexivity. Qed.

Section ChainKept.

Context {D : Declarations}.
Variable n : nat.
Variable sentinel : bool.
Hypothesis capacity : (5 <= n)%nat.

Lemma chain_kept_chain c a :
  task_chain_ a = c -> forall x, task_chain_ x = c ->
  chain_kept n sentinel a -> chain_kept n sentinel x.
Proof. intros Ha x Hx H. unfold chain_kept in *. rewrite Hx, <- Ha. exact H. Qed.

Lemma Keeps_chain_kept k :
  Keeps (fun _ => True) False (chain_kept n sentinel) (run_state_machine_loop k).
Proof.
  apply Keeps_run_state_machine_loop.
  - intros e a H. exact H.
  - intros i a _ H.
    apply (chain_kept_chain (task_chain_ a) a eq_refl); [|exact H].
    apply (deliver_all_stable _ _ _ (chain_stable (task_chain_ a))).
    reflexivity.
  - intros e a _ H. exact H.
  - intros a [Hl _]. right. intros Hc. rewrite Hc in Hl. simpl in Hl. lia.
  - intros b a _ H. exact H.
  - intros r a H. exact H.
  - intros v a [Hl Hs]. split; cbn [task_chain_ set_task_chain_].
    + rewrite update_head_length. exact Hl.
    + intros Hb. rewrite update_head_last by lia. apply Hs, Hb.
  - intros a [Hl Hs]. split; cbn [task_chain_ set_task_chain_].
    + rewrite shift_chain_length. exact Hl.
    + intros Hb. rewrite shift_chain_last. apply Hs, Hb.
  - intros a [Hl Hs].
    pose proof (expansion_length (config_ a) (requested_state_ a)) as He.
    split; [right; lia|]. split; cbn [task_chain_ set_task_chain_].
    + rewrite overwrite_length by lia. exact Hl.
    + intros Hb. apply overwrite_last. apply Hs, Hb.
Qed.

End ChainKept.

(** X8.  With a task chain of at least five entries the state machine
    makes no access outside the chain, for any number of rounds and
    whatever the collaborators answer and other contexts write, and the
    chain keeps its length. *)
Theorem state_machine_stays_in_chain
    {D : Declarations} (a : Axis) (k : nat) (s : list Input) :
  (5 <= length (task_chain_ a))%nat ->
  run_state_machine_loop k a s <> Fault /\
  holds (fun x => length (task_chain_ x) = length (task_chain_ a))
    (run_state_machine_loop k a s).
Proof.
  intros Hcap.
  pose proof (Keeps_chain_kept (length (task_chain_ a)) false Hcap k a s) as H.
  assert (HQ : Forall (fun _ : Input => True) s)
    by (apply Forall_forall; intros; exact I).
  assert (HP : chain_kept (length (task_chain_ a)) false a)
    by (split; [reflexivity|discriminate]).
  specialize (H HQ HP).
  destruct (run_state_machine_loop k a s) as [x a1 s1|a1|]; simpl.
  - split; [discriminate|]. destruct H as [[Hl _] _]. exact Hl.
  - split; [discriminate|]. destruct H as [Hl _]. exact Hl.
  - contradiction.
Qed.

(** X9.  With a task chain of at least five entries whose last entry is
    Undefined, the last entry stays Undefined through any number of
    rounds: the chain always ends with the sentinel. *)
Theorem task_chain_keeps_sentinel
    {D : Declarations} (a : Axis) (k : nat) (s : list Input) :
  (5 <= length (task_chain_ a))%nat ->
  last (task_chain_ a) AXIS_STATE_IDLE = AXIS_STATE_UNDEFINED ->
  holds (fun x => last (task_chain_ x) AXIS_STATE_IDLE = AXIS_STATE_UNDEFINED)
    (run_state_machine_loop k a s).
Proof.
  intros Hcap Hlast.
  pose proof (Keeps_chain_kept (length (task_chain_ a)) true Hcap k a s) as H.
  assert (HQ : Forall (fun _ : Input => True) s)
    by (apply Forall_forall; intros; exact I).
  assert (HP : chain_kept (length (task_chain_ a)) true a)
    by (split; [reflexivity|intros _; exact Hlast]).
  specialize (H HQ HP).
  destruct (run_state_machine_loop k a s) as [x a1 s1|a1|]; simpl; auto.
  - destruct H as [[_ Hs] _]. apply Hs. reflexivity.
  - destruct H as [_ Hs]. apply Hs. reflexivity.
Qed.

Lemma state_machine_stays_in_chain_witness :
  @run_state_machine_loop spec_declarations 3
    (fresh_axis example_config 5 AXIS_STATE_STARTUP_SEQUENCE)
    script_full_calibration <> Fault.
Proof.
  apply (@state_machine_stays_in_chain spec_declarations
           (fresh_axis example_config 5 AXIS_STATE_STARTUP_SEQUENCE) 3
           script_full_calibration).
  simpl. lia.
Defined.

Lemma task_chain_keeps_sentinel_witness :
  holds (fun x => last (task_chain_ x) AXIS_STATE_IDLE = AXIS_STATE_UNDEFINED)
    (@run_state_machine_loop spec_declarations 3
       (fresh_axis example_config 5 AXIS_STATE_STARTUP_SEQUENCE)
       script_full_calibration).
Proof.
  apply (@task_chain_keeps_sentinel spec_declarations
           (fresh_axis example_config 5 AXIS_STATE_STARTUP_SEQUENCE) 3
           script_full_calibration).
  - simpl. lia.
  - reflexivity.
Defined.

(** ** The position setpoint outside the control loops *)

Lemma setpoint_rests_deliver p i a :
  no_setpoint_write i -> setpoint_rests p a ->
  setpoint_rests p (deliver_all (during i) a).
Proof.
  unfold no_setpoint_write, deliver_all. intros Hi. revert a.
  induction Hi as [|w ws Hw _ IH]; intros a H; [exact H|].
  simpl. apply IH. destruct H as [Hf Hp].
  destruct w; simpl; try contradiction; try (split; assumption).
  rewrite step_cb_disabled by exact Hf. split; assumption.
Qed.

Section SetpointRests.

Context {D : Declarations}.
Variable p : float.

Let Q := no_setpoint_write.
Let P := setpoint_rests p.

Lemma setpoint_rests_log e a : P a -> P (add_log e a).
Proof. intros H. exact H. Qed.

Lemma setpoint_rests_error e a : e <> ERROR_NO_ERROR -> P a -> P (set_error_ e a).
Proof. intros _ H. exact H. Qed.

Lemma setpoint_rests_head a : P a -> True \/ task_chain_ a <> [].
Proof. intros _. left. exact I. Qed.

Lemma Keeps_setpoint_rests :
  Keeps Q True P run_idle_loop /\
  Keeps Q True P run_sensorless_spin_up /\
  Keeps Q True P do_checks /\
  (forall cur,
     cur <> AXIS_STATE_SENSORLESS_CONTROL ->
     cur <> AXIS_STATE_CLOSED_LOOP_CONTROL ->
     Keeps Q True P (run_state cur)).
Proof.
  pose proof setpoint_rests_log as H1.
  pose proof (setpoint_rests_deliver p) as H2.
  pose proof setpoint_rests_error as H3.
  pose proof setpoint_rests_head as H4.
  split; [|split; [|split]].
  - apply Keeps_run_idle_loop; assumption.
  - apply Keeps_run_sensorless_spin_up; assumption.
  - apply Keeps_do_checks; assumption.
  - intros cur Hs Hc. apply Keeps_run_state_outside; assumption.
Qed.

Lemma Keeps_setpoint_rests_rounds k :
  Keeps Q True (fun x => P x /\ enable_step_dir (config_ x) = false)
    (run_state_machine_loop k).
Proof.
  apply Keeps_run_state_machine_loop.
  - intros e a H. exact H.
  - intros i a Hi [H Hc]. split.
    + apply setpoint_rests_deliver; assumption.
    + rewrite <- Hc. f_equal.
      apply (deliver_all_stable _ _ _ (config_stable (config_ a))).
      reflexivity.
  - intros e a _ H. exact H.
  - intros a _. left. exact I.
  - intros b a Hb [[Hf Hp] Hc]. simpl in *.
    assert (b = false) by (destruct Hb; congruence). subst b.
    repeat split; assumption.
  - intros r a H. exact H.
  - intros v a H. exact H.
  - intros a H. exact H.
  - intros a H. split; [left; exact I|exact H].
Qed.

End SetpointRests.

(** X10.  While step/dir input is disabled, pulses on the step input do
    not move the position setpoint: through the idle loop, the sensorless
    spin-up, the checks and every state that is no control loop it stays
    what it was, whatever arrives on the step input; and when the
    configuration does not enable step/dir, it stays so through any number
    of rounds of the state machine. *)
Theorem setpoint_rests_outside_control_loops
    {D : Declarations} (a : Axis) (s : list Input) :
  Forall no_setpoint_write s ->
  enable_step_dir_ a = false ->
  holds (setpoint_rests (pos_setpoint_ a)) (run_idle_loop a s) /\
  holds (setpoint_rests (pos_setpoint_ a)) (run_sensorless_spin_up a s) /\
  holds (setpoint_rests (pos_setpoint_ a)) (do_checks a s) /\
  (forall cur,
     cur <> AXIS_STATE_SENSORLESS_CONTROL ->
     cur <> AXIS_STATE_CLOSED_LOOP_CONTROL ->
     holds (setpoint_rests (pos_setpoint_ a)) (run_state cur a s)) /\
  (enable_step_dir (config_ a) = false ->
   forall k,
     holds (setpoint_rests (pos_setpoint_ a)) (run_state_machine_loop k a s)).
Proof.
  intros HQ Hf.
  assert (HP : setpoint_rests (pos_setpoint_ a) a) by (split; [exact Hf|reflexivity]).
  destruct (Keeps_setpoint_rests (pos_setpoint_ a)) as (H1 & H2 & H3 & H4).
  split; [|split; [|split; [|split]]].
  - apply (Keeps_holds _ _ _ _ a s H1 HQ HP).
  - apply (Keeps_holds _ _ _ _ a s H2 HQ HP).
  - apply (Keeps_holds _ _ _ _ a s H3 HQ HP).
  - intros cur Hs Hc. apply (Keeps_holds _ _ _ _ a s (H4 cur Hs Hc) HQ HP).
  - intros Hcfg k.
    pose proof (Keeps_holds _ _ _ _ a s
                  (Keeps_setpoint_rests_rounds (pos_setpoint_ a) k) HQ
                  (conj HP Hcfg)) as H.
    destruct (run_state_machine_loop k a s) as [x a1 s1|a1|]; simpl in *;
      try exact I; apply H.
Qed.

Lemma setpoint_rests_outside_control_loops_witness :
  holds (setpoint_rests (F32.of_Z 1000))
    (@run_state spec_declarations AXIS_STATE_IDLE idle_axis
       script_pulses_while_idle)
  /\ option_map pos_setpoint_
       (final (@run_state spec_declarations AXIS_STATE_IDLE idle_axis
                 script_pulses_while_idle))
     = Some (F32.of_Z 1000).
Proof.
  split; [|reflexivity].
  assert (HQ : Forall no_setpoint_write script_pulses_while_idle).
  { repeat constructor. }
  destruct (@setpoint_rests_outside_control_loops spec_declarations idle_axis
              script_pulses_while_idle HQ eq_refl) as (_ & _ & _ & H & _).
  apply H; discriminate.
Defined.

(** ** Entering and leaving the loops *)
Section LoopFacts.

Context {D : Declarations}.

Lemma chain_error (c : list State_t) e x :
  e <> ERROR_NO_ERROR -> task_chain_ x = c -> task_chain_ (set_error_ e x) = c.
Proof. intros _ H. exact H. Qed.

Lemma idle_handler_Done a s c l a3 s3 :
  idle_handler tt a s = Done (c, l) a3 s3 ->
  c = true /\ task_chain_ a3 = task_chain_ a.
Proof.
  intros H.
  pose proof (Preserves_idle_handler (fun x => task_chain_ x = task_chain_ a)
                (chain_stable (task_chain_ a)) tt a s eq_refl)
    as Hc.
  rewrite H in Hc. simpl in Hc. split; [|exact Hc].
  unfold idle_handler, bind, call, ret in H.
  destruct s as [|i1 [|i2 s']]; try discriminate.
  injection H as <- _ _ _. reflexivity.
Qed.

Lemma current_state_head a s c rest :
  task_chain_ a = c :: rest -> current_state a s = Done c a s.
Proof. intros H. unfold current_state, load. rewrite H. reflexivity. Qed.

Lemma idle_handler_quiet a e1 e2 s :
  during e1 = [] -> during e2 = [] ->
  idle_handler tt a (e1 :: e2 :: s) =
  Done (true, tt)
    (add_log (ev_encoder_update false) (add_log (ev_sensorless_update false) a)) s.
Proof.
  intros H1 H2. unfold idle_handler, bind, call, ret. rewrite H1, H2.
  reflexivity.
Qed.

Lemma idle_loop_fuel fuel : forall a s l a1 s1 rest,
  task_chain_ a = AXIS_STATE_IDLE :: rest ->
  run_control_loop_fuel fuel idle_handler tt a s = Done l a1 s1 ->
  requested_state_ a1 <> AXIS_STATE_UNDEFINED.
Proof.
  induction fuel as [|fuel IH]; intros a s l a1 s1 rest Hc H; [discriminate|].
  rewrite run_control_loop_fuel_S in H.
  destruct (State_eqb_spec (requested_state_ a) AXIS_STATE_UNDEFINED) as [Hu|Hu].
  - pose proof (Preserves_wait_for_current_meas
                  (fun x => task_chain_ x = task_chain_ a)
                  (chain_stable (task_chain_ a)) (chain_error (task_chain_ a)) a s eq_refl)
      as Hw.
    destruct (wait_for_current_meas a s) as [meas a2 s2| |]; try discriminate.
    simpl in Hw. unfold current_state, load in H. rewrite Hw, Hc in H.
    simpl in H. rewrite andb_false_r in H.
    destruct (idle_handler tt a2 s2) as [[c l'] a3 s3| |] eqn:Hh;
      try discriminate.
    apply idle_handler_Done in Hh. destruct Hh as [-> Hc3].
    apply (IH a3 s3 l a1 s1 rest); [congruence|].
    destruct l'. exact H.
  - injection H as _ <- _. exact Hu.
Qed.

(** X12.  With Idle at the head of the chain, the idle loop ends only when
    a state is requested: a missed current measurement and failing updates
    do not end it. The status of the Idle state is then what the arming
    that follows answers; what the idle loop returned is not used. *)
Theorem idle_is_left_on_request_only
    (a a1 : Axis) (s s1 : list Input) (status : bool) (rest : list State_t) :
  task_chain_ a = AXIS_STATE_IDLE :: rest ->
  run_idle_loop a s = Done status a1 s1 ->
  requested_state_ a1 <> AXIS_STATE_UNDEFINED
  /\ status = Error_eqb (error_ a1) ERROR_NO_ERROR
  /\ forall arm s2,
       s1 = arm :: s2 ->
       run_state AXIS_STATE_IDLE a s =
       Done (ok arm) (deliver_all (during arm) (add_log ev_motor_arm a1)) s2.
Proof.
  intros Hc H. pose proof H as H0.
  unfold run_idle_loop in H.
  apply bind_Done in H. destruct H as ([] & a2 & s2 & Hloop & H).
  unfold bind, get, ret in H. injection H as <- <- <-.
  split; [|split].
  - apply (idle_loop_fuel _ _ _ _ _ _ rest Hc Hloop).
  - reflexivity.
  - intros arm s3 ->. simpl. unfold bind at 1. rewrite H0.
    reflexivity.
Qed.

(** X13.  A missed current measurement is recorded as
    CurrentMeasurementTimeout. Outside Idle it ends the loop before the
    handler runs: the sensorless spin-up and the two control loops give
    failure and update nothing. In Idle the loop goes on with the handler. *)
Theorem missed_measurement_outcome
    (a : Axis) (i : Input) (s : list Input) (cur : State_t) (rest : list State_t) :
  requested_state_ a = AXIS_STATE_UNDEFINED ->
  task_chain_ a = cur :: rest ->
  ok i = false -> during i = [] ->
  let missed x := set_error_ ERROR_CURRENT_MEASUREMENT_TIMEOUT
                    (add_log ev_wait_current_meas x) in
  let a' := add_logs (step_dir_log (enable_step_dir (config_ a))
                      ++ [ev_wait_current_meas; ev_gpio_unsubscribe])
              (set_enable_step_dir_ false
                 (set_error_ ERROR_CURRENT_MEASUREMENT_TIMEOUT a)) in
  (cur <> AXIS_STATE_IDLE ->
   run_sensorless_spin_up a (i :: s) = Done false (missed a) s
   /\ run_sensorless_control_loop a (i :: s) = Done false a' s
   /\ run_closed_loop_control_loop a (i :: s) = Done false a' s)
  /\ (cur = AXIS_STATE_IDLE ->
      forall e1 e2,
        during e1 = [] -> during e2 = [] ->
        run_idle_loop a (i :: e1 :: e2 :: s) =
        run_idle_loop
          (add_log (ev_encoder_update false)
             (add_log (ev_sensorless_update false) (missed a))) s).
Proof.
  intros Hreq Hc Hok Hd missed a'.
  assert (Hround : forall {L} (h : L -> M (bool * L)) l x fuel,
            requested_state_ x = AXIS_STATE_UNDEFINED ->
            task_chain_ x = cur :: rest ->
            cur <> AXIS_STATE_IDLE ->
            run_control_loop_fuel (S fuel) h l x (i :: s) = Done l (missed x) s).
  { intros L h l x fuel Hx Hcx Hcur. rewrite run_control_loop_fuel_S.
    rewrite Hx. cbn [State_eqb].
    unfold wait_for_current_meas, bind, call. rewrite Hok, Hd. simpl.
    unfold current_state, load. simpl. rewrite Hcx. simpl.
    destruct (State_eqb_spec cur AXIS_STATE_IDLE); [contradiction|reflexivity]. }
  split.
  - intros Hcur. split; [|split].
    + unfold run_sensorless_spin_up, bind, run_control_loop.
      rewrite Hround by assumption. reflexivity.
    + unfold run_sensorless_control_loop, bind at 1. unfold get at 1.
      unfold bind at 1. rewrite set_step_dir_enabled_Done.
      unfold bind at 1. unfold run_control_loop.
      rewrite Hround by (destruct (enable_step_dir (config_ a)); assumption).
      unfold a'. destruct (enable_step_dir (config_ a)); reflexivity.
    + unfold run_closed_loop_control_loop, bind at 1. unfold get at 1.
      unfold bind at 1. rewrite set_step_dir_enabled_Done.
      unfold bind at 1. unfold run_control_loop.
      rewrite Hround by (destruct (enable_step_dir (config_ a)); assumption).
      unfold a'. destruct (enable_step_dir (config_ a)); reflexivity.
  - intros -> e1 e2 H1 H2.
    destruct Shrinks_handlers as (_ & _ & _ & _ & Hidle).
    assert (Hloop :
      run_control_loop idle_handler tt a (i :: e1 :: e2 :: s) =
      run_control_loop idle_handler tt
        (add_log (ev_encoder_update false)
           (add_log (ev_sensorless_update false) (missed a))) s).
    { unfold run_control_loop at 1. rewrite run_control_loop_fuel_S.
      rewrite Hreq. cbn [State_eqb].
      replace (wait_for_current_meas a (i :: e1 :: e2 :: s))
        with (Done false (missed a) (e1 :: e2 :: s))
        by (unfold wait_for_current_meas, bind, call; rewrite Hok, Hd;
            reflexivity).
      rewrite (current_state_head (missed a) _ AXIS_STATE_IDLE rest Hc).
      cbn [negb andb State_eqb].
      rewrite (idle_handler_quiet _ e1 e2 s H1 H2).
      apply run_control_loop_fuel_adequate; [exact Hidle|simpl; lia]. }
    unfold run_idle_loop, bind. rewrite Hloop. reflexivity.
Qed.

End LoopFacts.

Lemma idle_is_left_on_request_only_witness :
  exists a1,
    run_idle_loop idle_axis script_missed_measurement =
      Done false a1 [yes]
    /\ requested_state_ a1 = AXIS_STATE_CLOSED_LOOP_CONTROL
    /\ error_ a1 = ERROR_CURRENT_MEASUREMENT_TIMEOUT
    /\ outcome (@run_state spec_declarations AXIS_STATE_IDLE idle_axis
                  script_missed_measurement) = Some true.
Proof.
  eexists. split; [reflexivity|]. split; [reflexivity|]. split; [reflexivity|].
  destruct (@idle_is_left_on_request_only spec_declarations idle_axis _
              script_missed_measurement [yes] false
              (repeat AXIS_STATE_UNDEFINED 9) eq_refl eq_refl)
    as (_ & _ & H).
  rewrite (H yes [] eq_refl). reflexivity.
Defined.

Lemma missed_measurement_outcome_witness :
  run_closed_loop_control_loop (closed_loop_axis example_config) [no; yes] =
  Done false
    (add_logs [ev_gpio_init_dir; ev_gpio_subscribe; ev_wait_current_meas;
               ev_gpio_unsubscribe]
       (set_error_ ERROR_CURRENT_MEASUREMENT_TIMEOUT
          (closed_loop_axis example_config))) [yes].
Proof.
  destruct (@missed_measurement_outcome spec_declarations
              (closed_loop_axis example_config) no [yes]
              AXIS_STATE_CLOSED_LOOP_CONTROL
              (AXIS_STATE_IDLE :: repeat AXIS_STATE_UNDEFINED 8)
              eq_refl eq_refl eq_refl eq_refl) as [H _].
  destruct (H ltac:(discriminate)) as (_ & _ & Hc). exact Hc.
Defined.

(** ** The sensorless spin-up *)
Section SpinUp.

Context {D : Declarations}.

Lemma add_logs_error es a : error_ (add_logs es a) = error_ a.
Proof.
  revert a. induction es as [|e es IH]; intros a; [reflexivity|].
  simpl. rewrite IH. reflexivity.
Qed.

Lemma add_logs_app es1 es2 a :
  add_logs (es1 ++ es2) a = add_logs es2 (add_logs es1 a).
Proof. unfold add_logs. apply fold_left_app. Qed.

Lemma wait_quiet a i s :
  quiet i -> wait_for_current_meas a (i :: s) =
             Done true (add_log ev_wait_current_meas a) s.
Proof.
  intros [Hok Hd]. unfold wait_for_current_meas, bind, call.
  rewrite Hok, Hd. reflexivity.
Qed.

(** One round of the runner in which the measurement comes in time. *)
Lemma loop_round {L} (h : L -> M (bool * L)) fuel l a i s c cs :
  requested_state_ a = AXIS_STATE_UNDEFINED ->
  task_chain_ a = c :: cs ->
  quiet i ->
  run_control_loop_fuel (S fuel) h l a (i :: s) =
  match h l (add_log ev_wait_current_meas a) s with
  | Done (continue, l') a3 s3 =>
      if continue then run_control_loop_fuel fuel h l' a3 s3
      else Done l' a3 s3
  | Starved x => Starved x
  | Fault => Fault
  end.
Proof.
  intros Hreq Hc Hq. rewrite run_control_loop_fuel_S, Hreq. cbn [State_eqb].
  rewrite (wait_quiet a i s Hq).
  rewrite (current_state_head (add_log ev_wait_current_meas a) s c cs Hc).
  reflexivity.
Qed.

Lemma ramp_handler_answer x a i s :
  during i = [] ->
  spin_up_ramp_handler x a (i :: s) =
  let x' := F32.add x (ramp_increment (config_ a)) in
  let a' := add_log
              (ev_motor_update (F32.mul (spin_up_current (config_ a)) x)
                 (wrap_pm_pi (F32.mul (ramp_up_distance (config_ a)) x))) a in
  if ok i then Done (F32.ltb x' F32.one, x') a' s
  else Done (false, x') (set_error_ ERROR_MOTOR_FAILED a') s.
Proof.
  intros Hd. unfold spin_up_ramp_handler, bind, get, call, modify, ret.
  rewrite Hd. destruct (ok i); reflexivity.
Qed.

Lemma accel_handler_answer l a i s :
  during i = [] ->
  spin_up_accel_handler l a (i :: s) =
  let l' := accel_step (config_ a) l in
  let a' := add_log (ev_motor_update (spin_up_current (config_ a)) (snd l')) a in
  if ok i
  then Done (F32.ltb (fst l') (spin_up_target_vel (config_ a)), l') a' s
  else Done (false, l') (set_error_ ERROR_MOTOR_FAILED a') s.
Proof.
  intros Hd. unfold spin_up_accel_handler, bind, get, call, modify, ret.
  rewrite Hd. destruct (ok i); reflexivity.
Qed.

Lemma accel_from_shift cfg l k :
  accel_from cfg (accel_step cfg l) k = accel_from cfg l (S k).
Proof.
  induction k as [|k IH]; simpl.
  - reflexivity.
  - rewrite IH. reflexivity.
Qed.

Lemma accel_log_snoc cfg n : forall l a,
  add_logs (accel_log cfg (accel_from cfg l n) 1) (add_logs (accel_log cfg l n) a) =
  add_logs (accel_log cfg l (S n)) a.
Proof.
  induction n as [|n IH]; intros l a.
  - reflexivity.
  - rewrite <- accel_from_shift.
    change (add_logs (accel_log cfg l (S n)) a)
      with (add_logs (accel_log cfg (accel_step cfg l) n)
              (add_logs (accel_log cfg l 1) a)).
    rewrite IH. reflexivity.
Qed.

Lemma accel_round fuel l a i1 i2 s c cs :
  requested_state_ a = AXIS_STATE_UNDEFINED ->
  task_chain_ a = c :: cs ->
  quiet i1 -> during i2 = [] ->
  run_control_loop_fuel (S fuel) spin_up_accel_handler l a (i1 :: i2 :: s) =
  let l' := accel_step (config_ a) l in
  let a' := add_logs (accel_log (config_ a) l 1) a in
  if ok i2 then
    if F32.ltb (fst l') (spin_up_target_vel (config_ a))
    then run_control_loop_fuel fuel spin_up_accel_handler l' a' s
    else Done l' a' s
  else Done l' (set_error_ ERROR_MOTOR_FAILED a') s.
Proof.
  intros Hreq Hc Hq1 Hd2.
  rewrite (loop_round _ fuel l a i1 _ c cs Hreq Hc Hq1).
  rewrite accel_handler_answer by exact Hd2. cbn zeta.
  cbn [config_ add_log].
  destruct (ok i2); [|reflexivity].
  destruct (F32.ltb _ _); reflexivity.
Qed.

Lemma ramp_round_answer fuel x a i1 i2 s c cs :
  requested_state_ a = AXIS_STATE_UNDEFINED ->
  task_chain_ a = c :: cs ->
  quiet i1 -> during i2 = [] ->
  run_control_loop_fuel (S fuel) spin_up_ramp_handler x a (i1 :: i2 :: s) =
  let x' := F32.add x (ramp_increment (config_ a)) in
  let a' := add_logs (ramp_log (config_ a) x 1) a in
  if ok i2 then
    if F32.ltb x' F32.one
    then run_control_loop_fuel fuel spin_up_ramp_handler x' a' s
    else Done x' a' s
  else Done x' (set_error_ ERROR_MOTOR_FAILED a') s.
Proof.
  intros Hreq Hc Hq1 Hd2.
  rewrite (loop_round _ fuel x a i1 _ c cs Hreq Hc Hq1).
  rewrite ramp_handler_answer by exact Hd2. cbn zeta.
  cbn [config_ add_log].
  destruct (ok i2); [|reflexivity].
  destruct (F32.ltb _ _); reflexivity.
Qed.

(** [n] rounds during which the velocity stays below the target. *)
Lemma accel_rounds n : forall fuel l a script tail c cs,
  requested_state_ a = AXIS_STATE_UNDEFINED ->
  task_chain_ a = c :: cs ->
  Forall quiet script ->
  length script = (2 * n)%nat ->
  (forall k, (0 < k <= n)%nat ->
     F32.ltb (fst (accel_from (config_ a) l k)) (spin_up_target_vel (config_ a))
     = true) ->
  run_control_loop_fuel (n + fuel) spin_up_accel_handler l a (script ++ tail) =
  run_control_loop_fuel fuel spin_up_accel_handler
    (accel_from (config_ a) l n) (add_logs (accel_log (config_ a) l n) a) tail.
Proof.
  induction n as [|n IH]; intros fuel l a script tail c cs Hreq Hc Hq Hlen Hlt.
  - destruct script; [reflexivity | discriminate].
  - destruct script as [|i1 [|i2 script]]; try (simpl in Hlen; lia).
    inversion Hq as [|? ? Hq1 Hq']; subst.
    inversion Hq' as [|? ? Hq2 Hq'']; subst.
    change (S n + fuel)%nat with (S (n + fuel)).
    change ((i1 :: i2 :: script) ++ tail) with (i1 :: i2 :: (script ++ tail)).
    rewrite (accel_round _ _ _ _ _ _ c cs Hreq Hc Hq1 (proj2 Hq2)).
    cbn zeta. rewrite (proj1 Hq2).
    assert (H1 : F32.ltb (fst (accel_step (config_ a) l))
                   (spin_up_target_vel (config_ a)) = true)
      by (apply (Hlt 1%nat); lia).
    rewrite H1.
    destruct (add_logs_keeps (accel_log (config_ a) l 1) a) as (K1 & K2 & K3).
    rewrite (IH fuel _ _ script tail c cs).
    + rewrite K3, accel_from_shift. reflexivity.
    + rewrite K1. exact Hreq.
    + rewrite K2. exact Hc.
    + exact Hq''.
    + simpl in Hlen. lia.
    + intros k Hk. rewrite K3, accel_from_shift. apply Hlt. lia.
Qed.

(** The last round of each loop of the spin-up, after [n] rounds that went
    on: the answer of the motor decides. *)
Lemma ramp_loop_last a n script rest i1 i2 c cs :
  requested_state_ a = AXIS_STATE_UNDEFINED ->
  task_chain_ a = c :: cs ->
  Forall quiet script -> length script = (2 * n)%nat ->
  quiet i1 -> during i2 = [] ->
  (forall k, (0 < k <= n)%nat -> F32.ltb (ramp_x (config_ a) k) F32.one = true) ->
  (ok i2 = true -> F32.ltb (ramp_x (config_ a) (S n)) F32.one = false) ->
  run_control_loop spin_up_ramp_handler F32.zero a (script ++ i1 :: i2 :: rest) =
  Done (ramp_x (config_ a) (S n))
    ((if ok i2 then fun x => x else set_error_ ERROR_MOTOR_FAILED)
       (add_logs (ramp_log (config_ a) F32.zero (S n)) a)) rest.
Proof.
  intros Hreq Hc Hq Hlen Hq1 Hd2 Hlt Hend.
  destruct (add_logs_keeps (ramp_log (config_ a) F32.zero n) a) as (K1 & K2 & K3).
  unfold run_control_loop. rewrite length_app, Hlen. simpl length.
  replace (S (2 * n + S (S (length rest))))
    with (n + S (S (S (n + length rest))))%nat by lia.
  rewrite (ramp_rounds n _ F32.zero a script (i1 :: i2 :: rest) c cs)
    by assumption.
  rewrite (ramp_round_answer _ _ _ _ _ _ c cs)
    by (rewrite ?K1, ?K2; assumption).
  cbn zeta. rewrite K3. fold (ramp_x (config_ a) n).
  change (F32.add (ramp_x (config_ a) n) (ramp_increment (config_ a)))
    with (ramp_x (config_ a) (S n)).
  pose proof (ramp_log_snoc (config_ a) n F32.zero a) as Hs.
  fold (ramp_x (config_ a) n) in Hs. rewrite !Hs.
  destruct (ok i2); [|reflexivity].
  rewrite Hend by reflexivity. reflexivity.
Qed.

Lemma accel_loop_last a l n script rest i1 i2 c cs :
  requested_state_ a = AXIS_STATE_UNDEFINED ->
  task_chain_ a = c :: cs ->
  Forall quiet script -> length script = (2 * n)%nat ->
  quiet i1 -> during i2 = [] ->
  (forall k, (0 < k <= n)%nat ->
     F32.ltb (fst (accel_from (config_ a) l k)) (spin_up_target_vel (config_ a))
     = true) ->
  (ok i2 = true ->
   F32.ltb (fst (accel_from (config_ a) l (S n))) (spin_up_target_vel (config_ a))
   = false) ->
  run_control_loop spin_up_accel_handler l a (script ++ i1 :: i2 :: rest) =
  Done (accel_from (config_ a) l (S n))
    ((if ok i2 then fun x => x else set_error_ ERROR_MOTOR_FAILED)
       (add_logs (accel_log (config_ a) l (S n)) a)) rest.
Proof.
  intros Hreq Hc Hq Hlen Hq1 Hd2 Hlt Hend.
  destruct (add_logs_keeps (accel_log (config_ a) l n) a) as (K1 & K2 & K3).
  unfold run_control_loop. rewrite length_app, Hlen. simpl length.
  replace (S (2 * n + S (S (length rest))))
    with (n + S (S (S (n + length rest))))%nat by lia.
  rewrite (accel_rounds n _ l a script (i1 :: i2 :: rest) c cs) by assumption.
  rewrite (accel_round _ _ _ _ _ _ c cs) by (rewrite ?K1, ?K2; assumption).
  cbn zeta. rewrite K3.
  change (accel_step (config_ a) (accel_from (config_ a) l n))
    with (accel_from (config_ a) l (S n)).
  rewrite accel_log_snoc.
  destruct (ok i2); [|reflexivity].
  rewrite Hend by reflexivity. reflexivity.
Qed.

End SpinUp.

Section SpinUpRuns.

Context {D : Declarations}.

(** X14.  Suppose that on entry no error is recorded and no request is
    pending (the task chain array not being empty), that during the
    spin-up every current measurement arrives in time and every motor
    update succeeds, and that no other context writes to the axis during
    these calls.  If the updated [x] of the ramp is
    below 1 in the first [n1] iterations and not in the next, and the
    updated velocity of the acceleration is below [spin_up_target_vel] in
    the first [n2] iterations and not in the next, then the sensorless
    spin-up makes [n1 + 1] iterations of the ramp and [n2 + 1] of the
    acceleration, each a wait for the current measurement and one motor
    update, and gives success with no error recorded.  The ramp feeds the
    motor [spin_up_current * x] at the wrapped phase [ramp_up_distance * x];
    the acceleration starts from the velocity
    [ramp_up_distance / ramp_up_time], adds
    [spin_up_acceleration * current_meas_period] in each iteration and
    feeds the motor [spin_up_current] at the phase advanced by the new
    velocity.  That the two loops end is a hypothesis here, not a
    result. *)
Theorem spin_up_succeeds
    (a : Axis) (n1 n2 : nat) (script1 script2 rest : list Input)
    (i1 i2 j1 j2 : Input) (c : State_t) (cs : list State_t) :
  error_ a = ERROR_NO_ERROR ->
  requested_state_ a = AXIS_STATE_UNDEFINED ->
  task_chain_ a = c :: cs ->
  Forall quiet script1 -> length script1 = (2 * n1)%nat ->
  Forall quiet script2 -> length script2 = (2 * n2)%nat ->
  quiet i1 -> quiet i2 -> quiet j1 -> quiet j2 ->
  (forall k, (0 < k <= n1)%nat -> F32.ltb (ramp_x (config_ a) k) F32.one = true) ->
  F32.ltb (ramp_x (config_ a) (S n1)) F32.one = false ->
  (forall k, (0 < k <= n2)%nat ->
     F32.ltb (fst (accel_from (config_ a) (accel_start (config_ a)) k))
       (spin_up_target_vel (config_ a)) = true) ->
  F32.ltb (fst (accel_from (config_ a) (accel_start (config_ a)) (S n2)))
    (spin_up_target_vel (config_ a)) = false ->
  run_sensorless_spin_up a
    (script1 ++ i1 :: i2 :: script2 ++ j1 :: j2 :: rest) =
  Done true
    (add_logs (ramp_log (config_ a) F32.zero (S n1)
               ++ accel_log (config_ a) (accel_start (config_ a)) (S n2)) a)
    rest.
Proof.
  intros Herr Hreq Hc Hq1 Hl1 Hq2 Hl2 Hi1 Hi2 Hj1 Hj2 Hr Hrend Ha Haend.
  destruct (add_logs_keeps (ramp_log (config_ a) F32.zero (S n1)) a)
    as (K1 & K2 & K3).
  unfold run_sensorless_spin_up. unfold bind at 1.
  rewrite (ramp_loop_last a n1 script1 _ i1 i2 c cs Hreq Hc Hq1 Hl1 Hi1
             (proj2 Hi2) Hr (fun _ => Hrend)).
  rewrite (proj1 Hi2).
  unfold bind at 1. unfold get at 1.
  rewrite add_logs_error, Herr. cbn [Error_eqb negb].
  rewrite K3. fold (accel_start (config_ a)).
  unfold bind at 1.
  rewrite (accel_loop_last _ (accel_start (config_ a)) n2 script2 rest j1 j2 c cs)
    by (rewrite ?K1, ?K2, ?K3; try assumption; try apply Hj2;
        intros _; exact Haend).
  rewrite (proj1 Hj2), K3.
  unfold bind, get, ret. rewrite !add_logs_error, Herr.
  rewrite add_logs_app. reflexivity.
Qed.

(** X15.  A motor update that fails ends the spin-up with the error
    MotorFailed and failure: in the ramp the acceleration is not started,
    in the acceleration no further update is made, and the answers behind
    the failing one are not taken. *)
Theorem spin_up_stops_at_motor_failure
    (a : Axis) (n1 : nat) (script1 rest : list Input)
    (i1 i2 : Input) (c : State_t) (cs : list State_t) :
  requested_state_ a = AXIS_STATE_UNDEFINED ->
  task_chain_ a = c :: cs ->
  Forall quiet script1 -> length script1 = (2 * n1)%nat ->
  quiet i1 ->
  (forall k, (0 < k <= n1)%nat -> F32.ltb (ramp_x (config_ a) k) F32.one = true) ->
  (ok i2 = false -> during i2 = [] ->
   run_sensorless_spin_up a (script1 ++ i1 :: i2 :: rest) =
   Done false
     (set_error_ ERROR_MOTOR_FAILED
        (add_logs (ramp_log (config_ a) F32.zero (S n1)) a)) rest)
  /\ (forall n2 script2 j1 j2,
        error_ a = ERROR_NO_ERROR ->
        quiet i2 ->
        F32.ltb (ramp_x (config_ a) (S n1)) F32.one = false ->
        Forall quiet script2 -> length script2 = (2 * n2)%nat ->
        quiet j1 -> ok j2 = false -> during j2 = [] ->
        (forall k, (0 < k <= n2)%nat ->
           F32.ltb (fst (accel_from (config_ a) (accel_start (config_ a)) k))
             (spin_up_target_vel (config_ a)) = true) ->
        run_sensorless_spin_up a
          (script1 ++ i1 :: i2 :: script2 ++ j1 :: j2 :: rest) =
        Done false
          (set_error_ ERROR_MOTOR_FAILED
             (add_logs (ramp_log (config_ a) F32.zero (S n1)
                        ++ accel_log (config_ a) (accel_start (config_ a)) (S n2))
                a)) rest).
Proof.
  intros Hreq Hc Hq1 Hl1 Hi1 Hr.
  destruct (add_logs_keeps (ramp_log (config_ a) F32.zero (S n1)) a)
    as (K1 & K2 & K3).
  split.
  - intros Hok Hd.
    unfold run_sensorless_spin_up. unfold bind at 1.
    rewrite (ramp_loop_last a n1 script1 _ i1 i2 c cs Hreq Hc Hq1 Hl1 Hi1 Hd Hr)
      by (rewrite Hok; discriminate).
    rewrite Hok. reflexivity.
  - intros n2 script2 j1 j2 Herr Hi2 Hrend Hq2 Hl2 Hj1 Hok Hd Ha.
    unfold run_sensorless_spin_up. unfold bind at 1.
    rewrite (ramp_loop_last a n1 script1 _ i1 i2 c cs Hreq Hc Hq1 Hl1 Hi1
               (proj2 Hi2) Hr (fun _ => Hrend)).
    rewrite (proj1 Hi2).
    unfold bind at 1. unfold get at 1.
    rewrite add_logs_error, Herr. cbn [Error_eqb negb].
    rewrite K3. fold (accel_start (config_ a)).
    unfold bind at 1.
    rewrite (accel_loop_last _ (accel_start (config_ a)) n2 script2 rest j1 j2 c cs)
      by (rewrite ?K1, ?K2, ?K3; try assumption; rewrite Hok; discriminate).
    rewrite Hok, K3.
    unfold bind, get, ret. cbn [error_ set_error_ Error_eqb].
    rewrite add_logs_app. reflexivity.
Qed.

End SpinUpRuns.

Lemma spin_up_ramp_below_one (k : nat) :
  (0 < k <= 12)%nat ->
  F32.ltb (@ramp_x spec_declarations spin_up_config k) F32.one = true.
Proof.
  intros Hk.
  do 13 (destruct k as [|k]; [try lia; try (vm_compute; reflexivity)|]). lia.
Qed.

Lemma spin_up_accel_below_target (k : nat) :
  (0 < k <= 1)%nat ->
  F32.ltb (fst (@accel_from spec_declarations spin_up_config
                  (@accel_start spec_declarations spin_up_config) k))
    (spin_up_target_vel spin_up_config) = true.
Proof.
  intros Hk.
  do 2 (destruct k as [|k]; [try lia; try (vm_compute; reflexivity)|]). lia.
Qed.

Lemma spin_up_succeeds_witness :
  @run_sensorless_spin_up spec_declarations spin_up_axis
    (repeat yes 24 ++ yes :: yes :: repeat yes 2 ++ yes :: yes :: [no]) =
  Done true
    (add_logs (@ramp_log spec_declarations spin_up_config F32.zero 13
               ++ @accel_log spec_declarations spin_up_config
                    (@accel_start spec_declarations spin_up_config) 2)
       spin_up_axis)
    [no].
Proof.
  apply (@spin_up_succeeds spec_declarations spin_up_axis 12 1
           (repeat yes 24) (repeat yes 2) [no] yes yes yes yes
           AXIS_STATE_SENSORLESS_CONTROL
           (AXIS_STATE_IDLE :: repeat AXIS_STATE_UNDEFINED 8));
    try reflexivity; try (split; reflexivity); try (repeat constructor).
  - exact spin_up_ramp_below_one.
  - exact spin_up_accel_below_target.
Defined.

Lemma spin_up_stops_at_motor_failure_witness :
  @run_sensorless_spin_up spec_declarations spin_up_axis
    (repeat yes 24 ++ yes :: no :: [yes; yes]) =
  Done false
    (set_error_ ERROR_MOTOR_FAILED
       (add_logs (@ramp_log spec_declarations spin_up_config F32.zero 13)
          spin_up_axis))
    [yes; yes].
Proof.
  assert (Hq : Forall quiet (repeat yes 24)) by (repeat constructor).
  destruct (@spin_up_stops_at_motor_failure spec_declarations spin_up_axis 12
              (repeat yes 24) [yes; yes] yes no
              AXIS_STATE_SENSORLESS_CONTROL
              (AXIS_STATE_IDLE :: repeat AXIS_STATE_UNDEFINED 8)
              eq_refl eq_refl Hq eq_refl (conj eq_refl eq_refl)
              spin_up_ramp_below_one) as [H _].
  apply H; reflexivity.
Defined.

(** ** The two control loops *)
Section ControlLoopRuns.

Context {D : Declarations}.

Lemma add_logs_log es a : log (add_logs es a) = log a ++ es.
Proof.
  revert a. induction es as [|e es IH]; intros a.
  - simpl. rewrite app_nil_r. reflexivity.
  - simpl. rewrite IH. simpl. rewrite <- app_assoc. reflexivity.
Qed.

Lemma add_logs_flag es a : enable_step_dir_ (add_logs es a) = enable_step_dir_ a.
Proof.
  revert a. induction es as [|e es IH]; intros a; [reflexivity|].
  simpl. rewrite IH. reflexivity.
Qed.

Lemma add_logs_mode es a : control_mode (add_logs es a) = control_mode a.
Proof.
  revert a. induction es as [|e es IH]; intros a; [reflexivity|].
  simpl. rewrite IH. reflexivity.
Qed.

(** [n] rounds of the runner with a handler that takes [k] answers and
    goes on when they are answers of success. *)
Lemma loop_good_rounds (h : unit -> M (bool * unit)) (k : nat) (R : Axis -> Prop) :
  (forall es x, R x -> R (add_logs es x)) ->
  (forall x script s,
     R x -> Forall quiet script -> length script = k ->
     exists es, h tt x (script ++ s) = Done (true, tt) (add_logs es x) s) ->
  forall n fuel a script tail c cs,
    R a ->
    requested_state_ a = AXIS_STATE_UNDEFINED ->
    task_chain_ a = c :: cs ->
    Forall quiet script ->
    length script = (n * S k)%nat ->
    exists es,
      run_control_loop_fuel (n + fuel) h tt a (script ++ tail) =
      run_control_loop_fuel fuel h tt (add_logs es a) tail.
Proof.
  intros HR Hgood.
  induction n as [|n IH]; intros fuel a script tail c cs Ha Hreq Hc Hq Hlen.
  - destruct script; [|discriminate]. exists []. reflexivity.
  - destruct script as [|w script']; [discriminate|].
    inversion Hq as [|? ? Hw Hq']; subst.
    simpl in Hlen.
    assert (Hsplit : script' = firstn k script' ++ skipn k script')
      by (symmetry; apply firstn_skipn).
    assert (Hl1 : length (firstn k script') = k)
      by (rewrite length_firstn; lia).
    assert (Hl2 : length (skipn k script') = (n * S k)%nat)
      by (rewrite length_skipn; lia).
    assert (Hq1 : Forall quiet (firstn k script')).
    { apply Forall_forall. intros i Hi.
      apply (proj1 (Forall_forall _ _) Hq'). rewrite Hsplit.
      apply in_or_app. left. exact Hi. }
    assert (Hq2 : Forall quiet (skipn k script')).
    { apply Forall_forall. intros i Hi.
      apply (proj1 (Forall_forall _ _) Hq'). rewrite Hsplit.
      apply in_or_app. right. exact Hi. }
    change (S n + fuel)%nat with (S (n + fuel)).
    change ((w :: script') ++ tail) with (w :: (script' ++ tail)).
    rewrite (loop_round h _ tt a w _ c cs Hreq Hc Hw).
    rewrite Hsplit, <- app_assoc.
    destruct (Hgood (add_log ev_wait_current_meas a) (firstn k script')
                (skipn k script' ++ tail)) as [es Hes];
      [apply (HR [ev_wait_current_meas]), Ha|exact Hq1|exact Hl1|].
    rewrite Hes.
    destruct (add_logs_keeps (ev_wait_current_meas :: es) a) as (K1 & K2 & _).
    destruct (IH fuel (add_logs (ev_wait_current_meas :: es) a)
                (skipn k script') tail c cs) as [es' Hes'].
    + apply HR, Ha.
    + rewrite K1. exact Hreq.
    + rewrite K2. exact Hc.
    + exact Hq2.
    + exact Hl2.
    + exists ((ev_wait_current_meas :: es) ++ es').
      rewrite add_logs_app. exact Hes'.
Qed.

(** Such rounds followed by a round that ends the loop: the handler gives
    [false], or it gives [true] and a request is pending afterwards. *)
Lemma loop_rounds_then_end (h : unit -> M (bool * unit)) (k : nat)
    (R : Axis -> Prop) (f : Axis -> Axis) (go : bool) :
  (forall es x, R x -> R (add_logs es x)) ->
  (forall x script s,
     R x -> Forall quiet script -> length script = k ->
     exists es, h tt x (script ++ s) = Done (true, tt) (add_logs es x) s) ->
  forall n a script w tail rest c cs,
    R a ->
    requested_state_ a = AXIS_STATE_UNDEFINED ->
    task_chain_ a = c :: cs ->
    Forall quiet script ->
    length script = (n * S k)%nat ->
    quiet w ->
    (forall x, R x -> h tt x tail = Done (go, tt) (f x) rest) ->
    (go = true -> forall x, requested_state_ (f x) <> AXIS_STATE_UNDEFINED) ->
    exists es,
      run_control_loop h tt a (script ++ w :: tail) =
      Done tt (f (add_logs (es ++ [ev_wait_current_meas]) a)) rest.
Proof.
  intros HR Hgood n a script w tail rest c cs Ha Hreq Hc Hq Hlen Hw Hend Hgo.
  unfold run_control_loop. rewrite length_app, Hlen. simpl length.
  replace (S (n * S k + S (length tail)))
    with (n + S (S (n * k + length tail)))%nat by lia.
  destruct (loop_good_rounds h k R HR Hgood n (S (S (n * k + length tail))) a
              script (w :: tail) c cs Ha Hreq Hc Hq Hlen) as [es Hes].
  exists es. rewrite Hes.
  destruct (add_logs_keeps es a) as (K1 & K2 & _).
  rewrite (loop_round h _ tt _ w _ c cs) by (rewrite ?K1, ?K2; assumption).
  rewrite add_logs_app. cbn [add_logs fold_left].
  rewrite Hend by (apply (HR [ev_wait_current_meas]), HR, Ha).
  destruct go; [|reflexivity].
  rewrite run_control_loop_fuel_S.
  destruct (State_eqb_spec
              (requested_state_ (f (add_log ev_wait_current_meas (add_logs es a))))
              AXIS_STATE_UNDEFINED) as [Hu|Hu]; [|reflexivity].
  exfalso. exact (Hgo eq_refl _ Hu).
Qed.

(** What a control loop makes of the end of its runner. *)
Lemma control_loop_end (h : unit -> M (bool * unit)) a s a2 s2 :
  run_control_loop h tt
    (if enable_step_dir (config_ a)
     then set_enable_step_dir_ true
            (add_log ev_gpio_subscribe (add_log ev_gpio_init_dir a))
     else add_log ev_gpio_unsubscribe (set_enable_step_dir_ false a)) s
  = Done tt a2 s2 ->
  (a0 <- get ;;
   set_step_dir_enabled (enable_step_dir (config_ a0)) ;;
   run_control_loop h tt ;;
   set_step_dir_enabled false ;;
   a' <- get ;;
   ret (Error_eqb (error_ a') ERROR_NO_ERROR)) a s =
  Done (Error_eqb (error_ a2) ERROR_NO_ERROR)
    (add_log ev_gpio_unsubscribe (set_enable_step_dir_ false a2)) s2.
Proof.
  intros H. unfold bind at 1. unfold get at 1. unfold bind at 1.
  rewrite set_step_dir_enabled_Done. unfold bind at 1. rewrite H.
  reflexivity.
Qed.

(** The state in which a control loop entered from [a] starts its
    runner. *)
Lemma entered_keeps a :
  let a1 := if enable_step_dir (config_ a)
            then set_enable_step_dir_ true
                   (add_log ev_gpio_subscribe (add_log ev_gpio_init_dir a))
            else add_log ev_gpio_unsubscribe (set_enable_step_dir_ false a) in
  requested_state_ a1 = requested_state_ a /\
  task_chain_ a1 = task_chain_ a /\
  control_mode a1 = control_mode a /\
  error_ a1 = error_ a.
Proof. destruct (enable_step_dir (config_ a)); repeat split. Qed.

Lemma closed_loop_handler_good x script s :
  True -> Forall quiet script -> length script = 4%nat ->
  exists es, closed_loop_handler tt x (script ++ s) = Done (true, tt) (add_logs es x) s.
Proof.
  intros _ Hq Hlen.
  destruct script as [|est [|enc [|ctl [|mot [|]]]]]; try discriminate.
  inversion Hq as [|? ? [H1 G1] Hq1]; subst.
  inversion Hq1 as [|? ? [H2 G2] Hq2]; subst.
  inversion Hq2 as [|? ? [H3 G3] Hq3]; subst.
  inversion Hq3 as [|? ? [H4 G4] _]; subst.
  exists [ev_sensorless_update false; ev_encoder_update true;
          ev_controller_update (out1 enc) (out2 enc);
          ev_motor_update (out1 ctl) (out3 enc)].
  destruct est, enc, ctl, mot. simpl in *. subst. reflexivity.
Qed.

Lemma sensorless_handler_good x script s :
  control_mode x < CTRL_MODE_POSITION_CONTROL ->
  Forall quiet script -> length script = 4%nat ->
  exists es, sensorless_handler tt x (script ++ s) = Done (true, tt) (add_logs es x) s.
Proof.
  intros Hm Hq Hlen. apply Z.leb_gt in Hm.
  destruct script as [|enc [|est [|ctl [|mot [|]]]]]; try discriminate.
  inversion Hq as [|? ? [H1 G1] Hq1]; subst.
  inversion Hq1 as [|? ? [H2 G2] Hq2]; subst.
  inversion Hq2 as [|? ? [H3 G3] Hq3]; subst.
  inversion Hq3 as [|? ? [H4 G4] _]; subst.
  exists [ev_encoder_update false; ev_sensorless_update true;
          ev_controller_update (out1 est) (out2 est);
          ev_motor_update (out1 ctl) (out3 est)].
  unfold sensorless_handler, bind at 1. unfold get at 1. rewrite Hm.
  destruct est, enc, ctl, mot. simpl in *. subst. reflexivity.
Qed.

Lemma closed_loop_handler_ends x est enc ctl mot rest r :
  during est = [] -> during enc = [] ->
  let calls2 := [ev_sensorless_update false; ev_encoder_update true] in
  let calls3 := calls2 ++ [ev_controller_update (out1 enc) (out2 enc)] in
  let calls4 := calls3 ++ [ev_motor_update (out1 ctl) (out3 enc)] in
  (ok enc = false ->
   closed_loop_handler tt x (est :: enc :: rest) =
   Done (false, tt) (set_error_ ERROR_ENCODER_FAILED (add_logs calls2 x)) rest)
  /\ (ok enc = true -> during ctl = [] -> ok ctl = false ->
      closed_loop_handler tt x (est :: enc :: ctl :: rest) =
      Done (false, tt) (set_error_ ERROR_CONTROLLER_FAILED (add_logs calls3 x)) rest)
  /\ (ok enc = true -> during ctl = [] -> ok ctl = true ->
      during mot = [] -> ok mot = false ->
      closed_loop_handler tt x (est :: enc :: ctl :: mot :: rest) =
      Done (false, tt) (set_error_ ERROR_MOTOR_FAILED (add_logs calls4 x)) rest)
  /\ (ok enc = true -> during ctl = [] -> ok ctl = true ->
      during mot = [write_requested_state r] -> ok mot = true ->
      closed_loop_handler tt x (est :: enc :: ctl :: mot :: rest) =
      Done (true, tt) (set_requested_state_ r (add_logs calls4 x)) rest).
Proof.
  destruct est, enc, ctl, mot. simpl. intros -> ->.
  repeat split; intros; subst; reflexivity.
Qed.

Lemma sensorless_handler_ends x enc est ctl mot rest r :
  control_mode x < CTRL_MODE_POSITION_CONTROL ->
  during enc = [] -> during est = [] ->
  let calls2 := [ev_encoder_update false; ev_sensorless_update true] in
  let calls3 := calls2 ++ [ev_controller_update (out1 est) (out2 est)] in
  let calls4 := calls3 ++ [ev_motor_update (out1 ctl) (out3 est)] in
  (ok est = false ->
   sensorless_handler tt x (enc :: est :: rest) =
   Done (false, tt)
     (set_error_ ERROR_SENSORLESS_ESTIMATOR_FAILED (add_logs calls2 x)) rest)
  /\ (ok est = true -> during ctl = [] -> ok ctl = false ->
      sensorless_handler tt x (enc :: est :: ctl :: rest) =
      Done (false, tt) (set_error_ ERROR_CONTROLLER_FAILED (add_logs calls3 x)) rest)
  /\ (ok est = true -> during ctl = [] -> ok ctl = true ->
      during mot = [] -> ok mot = false ->
      sensorless_handler tt x (enc :: est :: ctl :: mot :: rest) =
      Done (false, tt) (set_error_ ERROR_MOTOR_FAILED (add_logs calls4 x)) rest)
  /\ (ok est = true -> during ctl = [] -> ok ctl = true ->
      during mot = [write_requested_state r] -> ok mot = true ->
      sensorless_handler tt x (enc :: est :: ctl :: mot :: rest) =
      Done (true, tt) (set_requested_state_ r (add_logs calls4 x)) rest).
Proof.
  intros Hm. apply Z.leb_gt in Hm.
  unfold sensorless_handler, bind, get. cbn beta iota. rewrite Hm.
  destruct est, enc, ctl, mot. simpl. intros -> ->.
  repeat split; intros; subst; reflexivity.
Qed.

(** How a run of a control loop that ended in the handler looks from
    outside. *)
Lemma control_loop_failed (h : unit -> M (bool * unit)) a s rest es e calls :
  e <> ERROR_NO_ERROR ->
  run_control_loop h tt
    (if enable_step_dir (config_ a)
     then set_enable_step_dir_ true
            (add_log ev_gpio_subscribe (add_log ev_gpio_init_dir a))
     else add_log ev_gpio_unsubscribe (set_enable_step_dir_ false a)) s
  = Done tt
      (set_error_ e
         (add_logs calls
            (add_logs (es ++ [ev_wait_current_meas])
               (if enable_step_dir (config_ a)
                then set_enable_step_dir_ true
                       (add_log ev_gpio_subscribe (add_log ev_gpio_init_dir a))
                else add_log ev_gpio_unsubscribe (set_enable_step_dir_ false a)))))
      rest ->
  loop_failed
    ((a0 <- get ;;
      set_step_dir_enabled (enable_step_dir (config_ a0)) ;;
      run_control_loop h tt ;;
      set_step_dir_enabled false ;;
      a' <- get ;;
      ret (Error_eqb (error_ a') ERROR_NO_ERROR)) a s)
    rest e (ev_wait_current_meas :: calls).
Proof.
  intros He H. apply control_loop_end in H. rewrite H.
  set (a1 := if enable_step_dir (config_ a) then _ else _).
  eexists. exists (log a1 ++ es).
  split; [|split; [|split]].
  - cbn [error_ set_error_].
    destruct (Error_eqb_spec e ERROR_NO_ERROR); [contradiction|reflexivity].
  - reflexivity.
  - reflexivity.
  - cbn [log add_log set_enable_step_dir_ set_error_].
    rewrite !add_logs_log. rewrite <- !app_assoc. reflexivity.
Qed.

Lemma trivial_kept (es : list Event) (x : Axis) : True -> True.
Proof. auto. Qed.

Lemma mode_kept es x :
  control_mode x < CTRL_MODE_POSITION_CONTROL ->
  control_mode (add_logs es x) < CTRL_MODE_POSITION_CONTROL.
Proof. rewrite add_logs_mode. auto. Qed.

(** X16.  After any number of iterations in which every update succeeded,
    the closed-loop control loop ends in the iteration in which the
    encoder, the controller or the motor fails, right after the failing
    update: it gives failure with the error of that subsystem, the
    subsystems behind it are not updated and their answers not taken, and
    step/dir input is disabled. What the monitoring update of the
    estimator answers plays no part. *)
Theorem closed_loop_stops_at_first_failure
    (a : Axis) (n : nat) (script rest : list Input) (w est : Input)
    (c : State_t) (cs : list State_t) :
  requested_state_ a = AXIS_STATE_UNDEFINED ->
  task_chain_ a = c :: cs ->
  Forall quiet script -> length script = (5 * n)%nat ->
  quiet w -> during est = [] ->
  (forall enc,
     ok enc = false -> during enc = [] ->
     loop_failed
       (run_closed_loop_control_loop a (script ++ w :: est :: enc :: rest))
       rest ERROR_ENCODER_FAILED
       [ev_wait_current_meas; ev_sensorless_update false; ev_encoder_update true])
  /\ (forall enc ctl,
        quiet enc -> ok ctl = false -> during ctl = [] ->
        loop_failed
          (run_closed_loop_control_loop a
             (script ++ w :: est :: enc :: ctl :: rest))
          rest ERROR_CONTROLLER_FAILED
          [ev_wait_current_meas; ev_sensorless_update false;
           ev_encoder_update true;
           ev_controller_update (out1 enc) (out2 enc)])
  /\ (forall enc ctl mot,
        quiet enc -> quiet ctl -> ok mot = false -> during mot = [] ->
        loop_failed
          (run_closed_loop_control_loop a
             (script ++ w :: est :: enc :: ctl :: mot :: rest))
          rest ERROR_MOTOR_FAILED
          [ev_wait_current_meas; ev_sensorless_update false;
           ev_encoder_update true;
           ev_controller_update (out1 enc) (out2 enc);
           ev_motor_update (out1 ctl) (out3 enc)]).
Proof.
  intros Hreq Hc Hq Hlen Hw Hest.
  destruct (entered_keeps a) as (E1 & E2 & _ & _).
  set (a1 := if enable_step_dir (config_ a) then _ else _) in *.
  assert (Hlen' : length script = (n * 5)%nat) by lia.
  assert (Hrun : forall tail f,
            (forall x, True -> closed_loop_handler tt x tail = Done (false, tt) (f x) rest) ->
            exists es,
              run_control_loop closed_loop_handler tt a1 (script ++ w :: tail) =
              Done tt (f (add_logs (es ++ [ev_wait_current_meas]) a1)) rest).
  { intros tail f Hf.
    apply (loop_rounds_then_end closed_loop_handler 4 (fun _ => True) f false
             trivial_kept closed_loop_handler_good n a1 script w tail rest c cs);
      try assumption; try congruence. exact I. }
  split; [|split].
  - intros enc Hok Hd.
    destruct (Hrun (est :: enc :: rest)
                (fun x => set_error_ ERROR_ENCODER_FAILED
                            (add_logs [ev_sensorless_update false;
                                       ev_encoder_update true] x)))
      as [es Hes].
    { intros x _.
      apply (closed_loop_handler_ends x est enc enc enc rest c Hest Hd).
      exact Hok. }
    apply (control_loop_failed closed_loop_handler a _ rest es); [discriminate|].
    exact Hes.
  - intros enc ctl [Hok Hd] Hokc Hdc.
    destruct (Hrun (est :: enc :: ctl :: rest)
                (fun x => set_error_ ERROR_CONTROLLER_FAILED
                            (add_logs [ev_sensorless_update false;
                                       ev_encoder_update true;
                                       ev_controller_update (out1 enc) (out2 enc)]
                               x)))
      as [es Hes].
    { intros x _.
      apply (closed_loop_handler_ends x est enc ctl ctl rest c Hest Hd);
        assumption. }
    apply (control_loop_failed closed_loop_handler a _ rest es); [discriminate|].
    exact Hes.
  - intros enc ctl mot [Hok Hd] [Hokc Hdc] Hokm Hdm.
    destruct (Hrun (est :: enc :: ctl :: mot :: rest)
                (fun x => set_error_ ERROR_MOTOR_FAILED
                            (add_logs [ev_sensorless_update false;
                                       ev_encoder_update true;
                                       ev_controller_update (out1 enc) (out2 enc);
                                       ev_motor_update (out1 ctl) (out3 enc)]
                               x)))
      as [es Hes].
    { intros x _.
      apply (closed_loop_handler_ends x est enc ctl mot rest c Hest Hd);
        assumption. }
    apply (control_loop_failed closed_loop_handler a _ rest es); [discriminate|].
    exact Hes.
Qed.

(** X17.  After any number of iterations in which every update succeeded,
    the sensorless control loop, while the controller is not in position
    control, ends right after the update of the estimator, of the
    controller or of the motor that fails: it gives failure with the
    error of that subsystem, the subsystems behind it are not updated,
    and step/dir input is disabled.  What the monitoring update of the
    encoder answers plays no part. *)
Theorem sensorless_loop_stops_at_first_failure
    (a : Axis) (n : nat) (script rest : list Input) (w enc : Input)
    (c : State_t) (cs : list State_t) :
  control_mode a < CTRL_MODE_POSITION_CONTROL ->
  requested_state_ a = AXIS_STATE_UNDEFINED ->
  task_chain_ a = c :: cs ->
  Forall quiet script -> length script = (5 * n)%nat ->
  quiet w -> during enc = [] ->
  (forall est,
     ok est = false -> during est = [] ->
     loop_failed
       (run_sensorless_control_loop a (script ++ w :: enc :: est :: rest))
       rest ERROR_SENSORLESS_ESTIMATOR_FAILED
       [ev_wait_current_meas; ev_encoder_update false; ev_sensorless_update true])
  /\ (forall est ctl,
        quiet est -> ok ctl = false -> during ctl = [] ->
        loop_failed
          (run_sensorless_control_loop a
             (script ++ w :: enc :: est :: ctl :: rest))
          rest ERROR_CONTROLLER_FAILED
          [ev_wait_current_meas; ev_encoder_update false;
           ev_sensorless_update true;
           ev_controller_update (out1 est) (out2 est)])
  /\ (forall est ctl mot,
        quiet est -> quiet ctl -> ok mot = false -> during mot = [] ->
        loop_failed
          (run_sensorless_control_loop a
             (script ++ w :: enc :: est :: ctl :: mot :: rest))
          rest ERROR_MOTOR_FAILED
          [ev_wait_current_meas; ev_encoder_update false;
           ev_sensorless_update true;
           ev_controller_update (out1 est) (out2 est);
           ev_motor_update (out1 ctl) (out3 est)]).
Proof.
  intros Hmode Hreq Hc Hq Hlen Hw Henc.
  destruct (entered_keeps a) as (E1 & E2 & E3 & _).
  set (a1 := if enable_step_dir (config_ a) then _ else _) in *.
  assert (Hlen' : length script = (n * 5)%nat) by lia.
  assert (Hrun : forall tail f,
            (forall x, control_mode x < CTRL_MODE_POSITION_CONTROL ->
                       sensorless_handler tt x tail = Done (false, tt) (f x) rest) ->
            exists es,
              run_control_loop sensorless_handler tt a1 (script ++ w :: tail) =
              Done tt (f (add_logs (es ++ [ev_wait_current_meas]) a1)) rest).
  { intros tail f Hf.
    apply (loop_rounds_then_end sensorless_handler 4
             (fun x => control_mode x < CTRL_MODE_POSITION_CONTROL) f false
             mode_kept sensorless_handler_good n a1 script w tail rest c cs);
      try assumption; try congruence. }
  split; [|split].
  - intros est Hok Hd.
    destruct (Hrun (enc :: est :: rest)
                (fun x => set_error_ ERROR_SENSORLESS_ESTIMATOR_FAILED
                            (add_logs [ev_encoder_update false;
                                       ev_sensorless_update true] x)))
      as [es Hes].
    { intros x Hx.
      apply (sensorless_handler_ends x enc est est est rest c Hx Henc Hd).
      exact Hok. }
    apply (control_loop_failed sensorless_handler a _ rest es); [discriminate|].
    exact Hes.
  - intros est ctl [Hok Hd] Hokc Hdc.
    destruct (Hrun (enc :: est :: ctl :: rest)
                (fun x => set_error_ ERROR_CONTROLLER_FAILED
                            (add_logs [ev_encoder_update false;
                                       ev_sensorless_update true;
                                       ev_controller_update (out1 est) (out2 est)]
                               x)))
      as [es Hes].
    { intros x Hx.
      apply (sensorless_handler_ends x enc est ctl ctl rest c Hx Henc Hd);
        assumption. }
    apply (control_loop_failed sensorless_handler a _ rest es); [discriminate|].
    exact Hes.
  - intros est ctl mot [Hok Hd] [Hokc Hdc] Hokm Hdm.
    destruct (Hrun (enc :: est :: ctl :: mot :: rest)
                (fun x => set_error_ ERROR_MOTOR_FAILED
                            (add_logs [ev_encoder_update false;
                                       ev_sensorless_update true;
                                       ev_controller_update (out1 est) (out2 est);
                                       ev_motor_update (out1 ctl) (out3 est)]
                               x)))
      as [es Hes].
    { intros x Hx.
      apply (sensorless_handler_ends x enc est ctl mot rest c Hx Henc Hd);
        assumption. }
    apply (control_loop_failed sensorless_handler a _ rest es); [discriminate|].
    exact Hes.
Qed.

Lemma control_loop_left (h : unit -> M (bool * unit)) a s rest es r calls :
  run_control_loop h tt
    (if enable_step_dir (config_ a)
     then set_enable_step_dir_ true
            (add_log ev_gpio_subscribe (add_log ev_gpio_init_dir a))
     else add_log ev_gpio_unsubscribe (set_enable_step_dir_ false a)) s
  = Done tt
      (set_requested_state_ r
         (add_logs calls
            (add_logs (es ++ [ev_wait_current_meas])
               (if enable_step_dir (config_ a)
                then set_enable_step_dir_ true
                       (add_log ev_gpio_subscribe (add_log ev_gpio_init_dir a))
                else add_log ev_gpio_unsubscribe (set_enable_step_dir_ false a)))))
      rest ->
  loop_left a
    ((a0 <- get ;;
      set_step_dir_enabled (enable_step_dir (config_ a0)) ;;
      run_control_loop h tt ;;
      set_step_dir_enabled false ;;
      a' <- get ;;
      ret (Error_eqb (error_ a') ERROR_NO_ERROR)) a s)
    rest r.
Proof.
  intros H. apply control_loop_end in H. rewrite H.
  destruct (entered_keeps a) as (_ & _ & _ & E4).
  set (a1 := if enable_step_dir (config_ a) then _ else _) in *.
  assert (Herr : error_ (add_logs calls (add_logs (es ++ [ev_wait_current_meas]) a1))
                 = error_ a)
    by (rewrite !add_logs_error; exact E4).
  eexists. split; [|split; [|split]].
  - cbn [error_ set_requested_state_]. rewrite Herr. reflexivity.
  - reflexivity.
  - cbn [error_ add_log set_enable_step_dir_ set_requested_state_]. exact Herr.
  - reflexivity.
Qed.

(** X18.  A request that is written during the motor update of an
    iteration in which every update succeeds ends the control loop after
    that iteration: the loop returns with the request pending and step/dir
    input disabled, records no error, and its status is success unless an
    error had been recorded before. *)
Theorem request_ends_control_loops
    (a : Axis) (n : nat) (script rest : list Input) (w x1 x2 ctl mot : Input)
    (r c : State_t) (cs : list State_t) :
  requested_state_ a = AXIS_STATE_UNDEFINED ->
  task_chain_ a = c :: cs ->
  Forall quiet script -> length script = (5 * n)%nat ->
  quiet w -> quiet x1 -> quiet x2 -> quiet ctl ->
  ok mot = true -> during mot = [write_requested_state r] ->
  r <> AXIS_STATE_UNDEFINED ->
  loop_left a
    (run_closed_loop_control_loop a
       (script ++ w :: x1 :: x2 :: ctl :: mot :: rest)) rest r
  /\ (control_mode a < CTRL_MODE_POSITION_CONTROL ->
      loop_left a
        (run_sensorless_control_loop a
           (script ++ w :: x1 :: x2 :: ctl :: mot :: rest)) rest r).
Proof.
  intros Hreq Hc Hq Hlen Hw [H1 G1] [H2 G2] [H3 G3] Hokm Hdm Hr.
  destruct (entered_keeps a) as (E1 & E2 & E3 & _).
  set (a1 := if enable_step_dir (config_ a) then _ else _) in *.
  assert (Hlen' : length script = (n * 5)%nat) by lia.
  split.
  - destruct (loop_rounds_then_end closed_loop_handler 4 (fun _ => True)
                (fun x => set_requested_state_ r
                            (add_logs [ev_sensorless_update false;
                                       ev_encoder_update true;
                                       ev_controller_update (out1 x2) (out2 x2);
                                       ev_motor_update (out1 ctl) (out3 x2)] x))
                true trivial_kept closed_loop_handler_good n a1 script w
                (x1 :: x2 :: ctl :: mot :: rest) rest c cs)
      as [es Hes]; try assumption; try congruence.
    + exact I.
    + intros x _.
      apply (closed_loop_handler_ends x x1 x2 ctl mot rest r G1 G2); assumption.
    + intros _ x. exact Hr.
    + apply (control_loop_left closed_loop_handler a _ rest es r _ Hes).
  - intros Hmode.
    destruct (loop_rounds_then_end sensorless_handler 4
                (fun x => control_mode x < CTRL_MODE_POSITION_CONTROL)
                (fun x => set_requested_state_ r
                            (add_logs [ev_encoder_update false;
                                       ev_sensorless_update true;
                                       ev_controller_update (out1 x2) (out2 x2);
                                       ev_motor_update (out1 ctl) (out3 x2)] x))
                true mode_kept sensorless_handler_good n a1 script w
                (x1 :: x2 :: ctl :: mot :: rest) rest c cs)
      as [es Hes]; try assumption; try congruence.
    + intros x Hx.
      apply (sensorless_handler_ends x x1 x2 ctl mot rest r Hx G1 G2); assumption.
    + intros _ x. exact Hr.
    + apply (control_loop_left sensorless_handler a _ rest es r _ Hes).
Qed.

End ControlLoopRuns.

Lemma closed_loop_stops_at_first_failure_witness :
  loop_failed
    (run_closed_loop_control_loop (closed_loop_axis example_config)
       (repeat yes 5 ++ yes :: no :: no :: [yes; yes]))
    [yes; yes] ERROR_ENCODER_FAILED
    [ev_wait_current_meas; ev_sensorless_update false; ev_encoder_update true].
Proof.
  assert (Hq : Forall quiet (repeat yes 5)) by (repeat constructor).
  destruct (closed_loop_stops_at_first_failure
              (closed_loop_axis example_config) 1 (repeat yes 5) [yes; yes]
              yes no AXIS_STATE_CLOSED_LOOP_CONTROL
              (AXIS_STATE_IDLE :: repeat AXIS_STATE_UNDEFINED 8)
              eq_refl eq_refl Hq eq_refl (conj eq_refl eq_refl) eq_refl)
    as [H _].
  apply H; reflexivity.
Defined.

Lemma sensorless_loop_stops_at_first_failure_witness :
  loop_failed
    (@run_sensorless_control_loop spec_declarations spin_up_axis
       (repeat yes 5 ++ yes :: no :: yes :: no :: [yes]))
    [yes] ERROR_CONTROLLER_FAILED
    [ev_wait_current_meas; ev_encoder_update false; ev_sensorless_update true;
     ev_controller_update F32.zero F32.zero].
Proof.
  assert (Hq : Forall quiet (repeat yes 5)) by (repeat constructor).
  destruct (@sensorless_loop_stops_at_first_failure spec_declarations
              spin_up_axis 1 (repeat yes 5) [yes] yes no
              AXIS_STATE_SENSORLESS_CONTROL
              (AXIS_STATE_IDLE :: repeat AXIS_STATE_UNDEFINED 8)
              eq_refl eq_refl eq_refl Hq eq_refl (conj eq_refl eq_refl) eq_refl)
    as (_ & H & _).
  apply (H yes no); try reflexivity. split; reflexivity.
Defined.

Lemma request_ends_control_loops_witness :
  loop_left (closed_loop_axis example_config)
    (run_closed_loop_control_loop (closed_loop_axis example_config)
       (repeat yes 5
        ++ yes :: yes :: yes :: yes
           :: answer true [write_requested_state AXIS_STATE_IDLE] :: [no]))
    [no] AXIS_STATE_IDLE.
Proof.
  assert (Hq : Forall quiet (repeat yes 5)) by (repeat constructor).
  destruct (@request_ends_control_loops spec_declarations
              (closed_loop_axis example_config) 1 (repeat yes 5) [no]
              yes yes yes yes
              (answer true [write_requested_state AXIS_STATE_IDLE])
              AXIS_STATE_IDLE AXIS_STATE_CLOSED_LOOP_CONTROL
              (AXIS_STATE_IDLE :: repeat AXIS_STATE_UNDEFINED 8)
              eq_refl eq_refl Hq eq_refl
              (conj eq_refl eq_refl) (conj eq_refl eq_refl)
              (conj eq_refl eq_refl) (conj eq_refl eq_refl)
              eq_refl eq_refl ltac:(discriminate))
    as [H _].
  exact H.
Defined.

(** ** A calibration sequence *)
Section CalibrationSequence.

Context {D : Declarations}.

(** A head passes the validation when each calibration it lies above in
    the enumeration is reported done. *)
Lemma validate_state_ok a s cur rest :
  task_chain_ a = cur :: rest ->
  motor_is_calibrated_ a = true
  \/ state_value cur <= state_value AXIS_STATE_MOTOR_CALIBRATION ->
  encoder_is_calibrated_ a = true
  \/ state_value cur <= state_value AXIS_STATE_ENCODER_CALIBRATION ->
  validate_state a s = Done tt a s.
Proof.
  intros Hc Hm He.
  assert (H1 : (state_value AXIS_STATE_MOTOR_CALIBRATION <? state_value cur)
               && negb (motor_is_calibrated_ a) = false).
  { destruct Hm as [-> | Hm]; [apply andb_false_r|].
    apply Z.ltb_ge in Hm. rewrite Hm. reflexivity. }
  assert (H2 : (state_value AXIS_STATE_ENCODER_CALIBRATION <? state_value cur)
               && negb (encoder_is_calibrated_ a) = false).
  { destruct He as [-> | He]; [apply andb_false_r|].
    apply Z.ltb_ge in He. rewrite He. reflexivity. }
  unfold validate_state, current_state, load, store, bind, get, ret.
  rewrite Hc. simpl. rewrite H1. simpl. rewrite Hc. simpl. rewrite H2.
  reflexivity.
Qed.

(** A round put together from its parts. *)
Lemma round_of_parts a s a1 cur rest status a2 s2 :
  load_task_chain a s = Done tt a1 s ->
  validate_state a1 s = Done tt a1 s ->
  task_chain_ a1 = cur :: rest ->
  run_state cur a1 s = Done status a2 s2 ->
  state_machine_round a s =
  Done (cur, status)
    (set_task_chain_
       (if status then shift_chain (cur :: rest) else AXIS_STATE_IDLE :: rest)
       a2) s2.
Proof.
  intros Hload Hval Hc Hrun.
  pose proof (run_state_chain cur a1 s) as Hchain.
  rewrite Hrun in Hchain. simpl in Hchain.
  unfold state_machine_round, select_state.
  unfold bind at 1. unfold bind at 1. rewrite Hload.
  unfold bind at 1. rewrite Hval.
  rewrite (current_state_head a1 s cur rest Hc).
  unfold bind at 1. rewrite Hrun.
  destruct status; unfold finish_state, bind, store, modify, ret;
    cbn [negb]; cbn beta; rewrite Hchain, Hc; reflexivity.
Qed.

(** X19.  A FullCalibrationSequence request whose two calibrations succeed
    and report the motor and the encoder calibrated is dispatched as
    MotorCalibration, then EncoderCalibration; Idle is at the head of the
    chain then and is what the third round dispatches. No error is
    recorded on the way. MotorCalibration lies below EncoderCalibration in
    the enumeration of axis.hpp. *)
Theorem full_calibration_runs_in_order
    (a : Axis) (mcal ecal : Input) (s : list Input) :
  requested_state_ a = AXIS_STATE_FULL_CALIBRATION_SEQUENCE ->
  (4 <= length (task_chain_ a))%nat ->
  state_value AXIS_STATE_MOTOR_CALIBRATION
    < state_value AXIS_STATE_ENCODER_CALIBRATION ->
  ok mcal = true -> during mcal = [write_motor_is_calibrated true] ->
  ok ecal = true -> during ecal = [write_encoder_is_calibrated true] ->
  exists a',
    state_machine_rounds 2 a (mcal :: ecal :: s) =
      Done [(AXIS_STATE_MOTOR_CALIBRATION, true);
            (AXIS_STATE_ENCODER_CALIBRATION, true)] a' s
    /\ error_ a' = error_ a
    /\ log a' = log a ++ [ev_motor_run_calibration; ev_encoder_run_calibration]
    /\ select_state a' s = Done AXIS_STATE_IDLE a' s.
Proof.
  intros Hreq Hlen Hlt Hok1 Hd1 Hok2 Hd2.
  destruct (task_chain_ a) as [|c0 [|c1 [|c2 [|c3 tl]]]] eqn:Hc;
    try (simpl in Hlen; lia).
  assert (Hload : forall s',
            load_task_chain a s' =
            Done tt
              (set_requested_state_ AXIS_STATE_UNDEFINED
                 (set_task_chain_
                    ([AXIS_STATE_MOTOR_CALIBRATION; AXIS_STATE_ENCODER_CALIBRATION;
                      AXIS_STATE_IDLE; AXIS_STATE_UNDEFINED] ++ tl) a)) s').
  { intros s'. rewrite load_task_chain_Done; rewrite Hreq, ?Hc.
    - reflexivity.
    - discriminate.
    - simpl. lia. }
  set (a1 := set_requested_state_ AXIS_STATE_UNDEFINED _) in Hload.
  (* the first round *)
  pose proof (round_of_parts a (mcal :: ecal :: s) a1
                AXIS_STATE_MOTOR_CALIBRATION
                ([AXIS_STATE_ENCODER_CALIBRATION; AXIS_STATE_IDLE;
                  AXIS_STATE_UNDEFINED] ++ tl)
                true
                (deliver_all (during mcal) (add_log ev_motor_run_calibration a1))
                (ecal :: s) (Hload _)) as R1.
  rewrite (validate_state_ok a1 _ AXIS_STATE_MOTOR_CALIBRATION
             ([AXIS_STATE_ENCODER_CALIBRATION; AXIS_STATE_IDLE;
               AXIS_STATE_UNDEFINED] ++ tl)) in R1
    by (try reflexivity; right; lia).
  specialize (R1 eq_refl eq_refl).
  assert (Hrun1 : run_state AXIS_STATE_MOTOR_CALIBRATION a1 (mcal :: ecal :: s) =
                  Done true
                    (deliver_all (during mcal)
                       (add_log ev_motor_run_calibration a1)) (ecal :: s)).
  { simpl. unfold bind, call, ret. rewrite Hok1. reflexivity. }
  specialize (R1 Hrun1). rewrite Hd1 in R1.
  cbn [deliver_all fold_left deliver shift_chain app] in R1.
  set (l1 := last _ AXIS_STATE_MOTOR_CALIBRATION) in R1.
  set (a2 := set_task_chain_ _ _) in R1.
  (* the second round *)
  assert (Hc2 : task_chain_ a2 =
                AXIS_STATE_ENCODER_CALIBRATION
                :: AXIS_STATE_IDLE :: AXIS_STATE_UNDEFINED :: tl ++ [l1])
    by reflexivity.
  pose proof (round_of_parts a2 (ecal :: s) a2
                AXIS_STATE_ENCODER_CALIBRATION
                (AXIS_STATE_IDLE :: AXIS_STATE_UNDEFINED :: tl ++ [l1])
                true
                (deliver_all (during ecal) (add_log ev_encoder_run_calibration a2))
                s) as R2.
  rewrite load_task_chain_idle in R2 by reflexivity.
  rewrite (validate_state_ok a2 _ _ _ Hc2) in R2
    by (try (left; reflexivity); right; lia).
  specialize (R2 eq_refl eq_refl Hc2).
  assert (Hrun2 : run_state AXIS_STATE_ENCODER_CALIBRATION a2 (ecal :: s) =
                  Done true
                    (deliver_all (during ecal)
                       (add_log ev_encoder_run_calibration a2)) s).
  { simpl. unfold bind, call, ret. rewrite Hok2. reflexivity. }
  specialize (R2 Hrun2). rewrite Hd2 in R2.
  cbn [deliver_all fold_left deliver shift_chain app] in R2.
  set (l2 := last _ AXIS_STATE_ENCODER_CALIBRATION) in R2.
  set (a3 := set_task_chain_ _ _) in R2.
  exists a3. split; [|split; [|split]].
  - cbn [state_machine_rounds]. unfold bind at 1. rewrite R1.
    unfold bind at 1. unfold bind at 1. rewrite R2. reflexivity.
  - reflexivity.
  - simpl. rewrite <- app_assoc. reflexivity.
  - unfold select_state, bind.
    rewrite load_task_chain_idle by reflexivity.
    rewrite (validate_state_ok a3 s AXIS_STATE_IDLE
               (AXIS_STATE_UNDEFINED :: (tl ++ [l1]) ++ [l2]));
      try (left; reflexivity); reflexivity.
Qed.

End CalibrationSequence.

Lemma full_calibration_runs_in_order_witness :
  exists a',
    @state_machine_rounds spec_declarations 2
      (fresh_axis example_config 10 AXIS_STATE_FULL_CALIBRATION_SEQUENCE)
      [answer true [write_motor_is_calibrated true];
       answer true [write_encoder_is_calibrated true]; yes] =
    Done [(AXIS_STATE_MOTOR_CALIBRATION, true);
          (AXIS_STATE_ENCODER_CALIBRATION, true)] a' [yes]
    /\ @select_state spec_declarations a' [yes] = Done AXIS_STATE_IDLE a' [yes].
Proof.
  destruct (@full_calibration_runs_in_order spec_declarations
              (fresh_axis example_config 10 AXIS_STATE_FULL_CALIBRATION_SEQUENCE)
              (answer true [write_motor_is_calibrated true])
              (answer true [write_encoder_is_calibrated true]) [yes]
              eq_refl) as (a' & H1 & _ & _ & H2);
    try reflexivity.
  - simpl. lia.
  - exists a'. split; assumption.
Defined.

(** ** Idling without a request *)

Lemma no_request_deliver (c : list State_t) i a :
  no_request i ->
  requested_state_ a = AXIS_STATE_UNDEFINED /\ task_chain_ a = c ->
  requested_state_ (deliver_all (during i) a) = AXIS_STATE_UNDEFINED /\
  task_chain_ (deliver_all (during i) a) = c.
Proof.
  unfold no_request, deliver_all. intros Hi. revert a.
  induction Hi as [|w ws Hw _ IH]; intros a H; [exact H|].
  simpl. apply IH. destruct H as [Hr Hc].
  destruct w; simpl; try contradiction; try (split; assumption).
  unfold step_cb. destruct (enable_step_dir_ a); split; assumption.
Qed.

(** X20.  With Idle at the head of the chain and no request pending, the
    idle loop does not return as long as no state is requested: it takes
    every answer of the script, whatever the answers are, and is still
    running, without a request, when the script is over. *)
Theorem idle_loop_waits_for_request
    (a : Axis) (s : list Input) (rest : list State_t) :
  task_chain_ a = AXIS_STATE_IDLE :: rest ->
  requested_state_ a = AXIS_STATE_UNDEFINED ->
  Forall no_request s ->
  exists x,
    run_idle_loop a s = Starved x /\
    requested_state_ x = AXIS_STATE_UNDEFINED.
Proof.
  intros Hc Hreq Hs.
  set (P := fun x => requested_state_ x = AXIS_STATE_UNDEFINED /\
                     task_chain_ x = AXIS_STATE_IDLE :: rest).
  assert (Hlog : forall e x, P x -> P (add_log e x)) by (intros e x Hx; exact Hx).
  assert (Herr : forall e x, e <> ERROR_NO_ERROR -> P x -> P (set_error_ e x))
    by (intros e x _ Hx; exact Hx).
  assert (Hhead : forall x, P x -> False \/ task_chain_ x <> []).
  { intros x [_ Hx]. right. rewrite Hx. discriminate. }
  pose proof (Keeps_run_idle_loop no_request False P Hlog
                (no_request_deliver (AXIS_STATE_IDLE :: rest)) Herr Hhead
                a s Hs (conj Hreq Hc)) as H.
  destruct (run_idle_loop a s) as [status a1 s1|x|] eqn:Hrun.
  - exfalso. destruct H as [[Hu _] _].
    unfold run_idle_loop in Hrun.
    apply bind_Done in Hrun. destruct Hrun as ([] & a2 & s2 & Hloop & Hret).
    unfold bind, get, ret in Hret. injection Hret as _ <- _.
    exact (idle_loop_fuel _ _ _ _ _ _ rest Hc Hloop Hu).
  - exists x. split; [reflexivity|apply H].
  - contradiction.
Qed.

Lemma idle_loop_waits_for_request_witness :
  exists x,
    run_idle_loop idle_axis script_pulses_while_idle = Starved x /\
    requested_state_ x = AXIS_STATE_UNDEFINED.
Proof.
  apply (idle_loop_waits_for_request idle_axis script_pulses_while_idle
           (repeat AXIS_STATE_UNDEFINED 9)).
  - reflexivity.
  - reflexivity.
  - repeat constructor.
Defined.
